(** * Superbridge watcher: the reconciliation loop, embedded and verified

    The repository holds two variants of one service:

    - [Minimal]: [src/watcher.js], the watcher that records initiation events
      and submits the destination-chain payout;
    - [Unified]: the "Unified Watcher+Executor", which adds a retrying payout,
      the signature-based completion on the source chain and a block cursor.

    Both are [async] JavaScript driven by [setInterval].  The embedding is a
    state-and-exception monad [M] over a [World] (record store, block cursor,
    a counter of external calls); every external call answers through an
    [Env] of oracles indexed by that counter, so that a theorem quantified
    over [Env] covers every behaviour of the chain clients and of the record
    store.  Each computation also returns the list of the external actions it
    issued, in order. *)

From Stdlib Require Import ZArith List String Ascii Bool Lia DecimalString.
From Stdlib Require Import Sorted.
From stdpp Require Import base gmap strings list.
From Equations Require Import Equations.

Local Open Scope string_scope.
Local Open Scope Z_scope.

(** ** JavaScript values that the code compares with [===] *)

(** ethers v6 decodes a [uint8] either as a [bigint] or as a [number]; the
    code tests both: [statusNum === 0n || statusNum === 0]. *)
Inductive JsNum :=
| BigInt (z : Z)
| Number (z : Z).

Definition strictEq (a b : JsNum) : bool :=
  match a, b with
  | BigInt x, BigInt y => x =? y
  | Number x, Number y => x =? y
  | _, _ => false
  end.

(** [x === kn || x === k] *)
Definition isStatus (k : Z) (x : JsNum) : bool :=
  strictEq x (BigInt k) || strictEq x (Number k).

(** [bigint.toString()] *)
Definition toString (z : Z) : string := NilZero.string_of_int (Z.to_int z).

(** ** Data model *)

(** [event BridgeInitiated(address indexed user, uint256 originalAmount,
    uint256 bridgedAmount, bytes32 transferId, uint256 timestamp)] together
    with [event.blockNumber]. *)
Record BridgeInitiated := {
  bi_user : string;
  bi_originalAmount : Z;
  bi_bridgedAmount : Z;
  bi_transferId : string;
  bi_timestamp : Z;
  bi_blockNumber : Z
}.

(** [event Refunded(bytes32 indexed transferId, address user, uint256 amount)] *)
Record Refunded := {
  rf_transferId : string;
  rf_user : string;
  rf_amount : Z;
  rf_blockNumber : Z
}.

(** The tuple returned by [getTransfer]. *)
Record Transfer := {
  t_user : string;
  t_originalAmount : Z;
  t_bridgedAmount : Z;
  t_timestamp : Z;
  t_status : JsNum
}.

(** A row of the [bridged_events] table. *)
Record Row := {
  tx_id : string;
  address : string;
  bridged_amount : string;
  status : string;
  block_number : Z;
  timestamp : string;
  l1_block_number : option Z;
  signature1 : option string
}.

(** The object given to [.update(...)]: only the listed columns change. *)
Record Patch := {
  p_status : option string;
  p_l1_block_number : option Z;
  p_signature1 : option string
}.

Definition applyPatch (p : Patch) (r : Row) : Row :=
  {| tx_id := tx_id r;
     address := address r;
     bridged_amount := bridged_amount r;
     status := default (status r) (p_status p);
     block_number := block_number r;
     timestamp := timestamp r;
     l1_block_number :=
       match p_l1_block_number p with Some b => Some b | None => l1_block_number r end;
     signature1 :=
       match p_signature1 p with Some s => Some s | None => signature1 r end |}.

(** What a supabase call resolves to: [{ data, error }]. *)
Record Response := {
  data : option (list string);
  error : option string
}.

(** The two event filters of the source-chain contract. *)
Inductive EventKind := KBridgeInitiated | KRefunded.

(** Thrown JavaScript errors. *)
Inductive Err :=
| RpcError (method : string)
| DbError (msg : string)
| InvalidArgument (what : string)
| ProcessExit (code : Z).

(** External actions, in the order the program issues them.  Store writes
    carry the store's answer ([ok = true]: no [error] came back). *)
Inductive Action :=
| GetBlockNumber
| QueryFilter (kind : EventKind) (fromBlock toBlock : Z)
| GetTransfer (transferId : string)
| DbSelect (transferId : string)
| DbInsert (r : Row) (ok : bool)
| DbUpdate (transferId : string) (p : Patch) (ok : bool)
| L1Payout (transferId user : string) (bridgedAmount : Z)
| L1Wait (hash : string)
| L2Complete (transferId : string) (signatures signers : list string)
| L2Wait (hash : string)
| SignMessage (digest : list Byte.byte)
| SetTimeout (ms : Z)
| ConsoleError (msg : string).

(** ** The world and its environment *)

Record World := {
  store : gmap string Row;      (* the bridged_events table, keyed by tx_id *)
  clock : nat;                  (* number of external calls made so far *)
  lastCheckedBlock : Z          (* [let lastCheckedBlock = 0] *)
}.

(** The answers of the external collaborators; the [nat] is the value of
    [clock] when the call is made.  [None] is a rejected promise. *)
Record Env := {
  eth_blockNumber : nat -> option Z;
  eth_bridgeLogs : nat -> Z -> Z -> option (list BridgeInitiated);
  eth_refundLogs : nat -> Z -> Z -> option (list Refunded);
  eth_getTransfer : nat -> string -> option Transfer;
  eth_payout : nat -> option string;          (* hash of the sent payout tx *)
  eth_payoutWait : nat -> option Z;           (* receipt.blockNumber *)
  eth_complete : nat -> option string;        (* hash of the sent complete tx *)
  eth_completeWait : nat -> option unit;
  db_error : nat -> option string;            (* the store answers { error } *)
  db_concurrent : nat -> option Row           (* a row another writer inserted
                                                 just before this store call *)
}.

(** Values read from [process.env] and the cryptographic library. *)
Record Config := {
  L1_ADDRESS : string;
  L2_ADDRESS : string;
  SIGNER_KEY : string;
  keccak256 : list Byte.byte -> list Byte.byte;
  wallet_signMessage : string -> list Byte.byte -> string
}.

Definition AUTHORIZED_SIGNER : string := "0x9e09fd3f7Bf43E68A1C813e02d0f5da519AaEbEd".
Definition POLL_INTERVAL : Z := 5000.

(** ** The monad *)

Inductive Result (A : Type) :=
| Ok (a : A)
| Throw (err : Err).
Arguments Ok {A} a.
Arguments Throw {A} err.

Record Out (A : Type) := mkOut {
  res : Result A;
  world : World;
  emitted : list Action
}.
Arguments mkOut {A} res world emitted.
Arguments res {A} o.
Arguments world {A} o.
Arguments emitted {A} o.

Definition M (A : Type) : Type := World -> Out A.

Definition ret {A} (a : A) : M A := fun w => mkOut (Ok a) w [].

Definition throw {A} (e : Err) : M A := fun w => mkOut (Throw e) w [].

Definition bind {A B} (m : M A) (k : A -> M B) : M B := fun w =>
  let o := m w in
  match res o with
  | Ok a => let o' := k a (world o) in
            mkOut (res o') (world o') (emitted o ++ emitted o')
  | Throw e => mkOut (Throw e) (world o) (emitted o)
  end.

(** [try { m } catch (err) { h err }] *)
Definition tryCatch {A} (m : M A) (h : Err -> M A) : M A := fun w =>
  let o := m w in
  match res o with
  | Ok a => o
  | Throw e => let o' := h e (world o) in
               mkOut (res o') (world o') (emitted o ++ emitted o')
  end.

(** The outcome of [m] as a value: used where a [try] block assigns a local
    variable before it throws and the [catch] block goes on with it. *)
Definition attempt {A} (m : M A) : M (Result A) := fun w =>
  let o := m w in mkOut (Ok (res o)) (world o) (emitted o).

Declare Scope js_scope.
Delimit Scope js_scope with js.
Notation "x <- m ;; k" := (bind m (fun x => k))
  (at level 100, m at next level, k at level 200, right associativity) : js_scope.
Notation "m ;; k" := (bind m (fun _ => k))
  (at level 100, k at level 200, right associativity) : js_scope.
Local Open Scope js_scope.

(** [for (const x of xs) { body x }]; a [continue] is the body returning. *)
Fixpoint forEach {A} (body : A -> M unit) (xs : list A) : M unit :=
  match xs with
  | [] => ret tt
  | x :: rest => body x ;; forEach body rest
  end.

Definition inspect {A} (a : A) : {b : A | a = b} := exist _ a eq_refl.

(** ** Primitive calls *)

Definition bump (w : World) : World :=
  {| store := store w; clock := S (clock w); lastCheckedBlock := lastCheckedBlock w |}.

Definition withStore (s : gmap string Row) (w : World) : World :=
  {| store := s; clock := clock w; lastCheckedBlock := lastCheckedBlock w |}.

Definition emit (a : Action) : M unit := fun w => mkOut (Ok tt) w [a].

(** An awaited call to a chain client. *)
Definition rpc {A} (a : Action) (method : string) (answer : nat -> option A) : M A :=
  fun w =>
    match answer (clock w) with
    | Some v => mkOut (Ok v) (bump w) [a]
    | None => mkOut (Throw (RpcError method)) (bump w) [a]
    end.

Definition consoleError (msg : string) : M unit := emit (ConsoleError msg).

(** [await new Promise(resolve => setTimeout(resolve, ms))] *)
Definition sleep (ms : Z) : M unit := emit (SetTimeout ms).

Definition getLastCheckedBlock : M Z := fun w => mkOut (Ok (lastCheckedBlock w)) w [].

Definition setLastCheckedBlock (b : Z) : M unit := fun w =>
  mkOut (Ok tt) {| store := store w; clock := clock w; lastCheckedBlock := b |} [].

Section Program.

Context (cfg : Config) (env : Env).

Definition getBlockNumber : M Z :=
  rpc GetBlockNumber "getBlockNumber" (eth_blockNumber env).

Definition queryBridgeInitiated (fromBlock toBlock : Z) : M (list BridgeInitiated) :=
  rpc (QueryFilter KBridgeInitiated fromBlock toBlock) "queryFilter"
      (fun n => eth_bridgeLogs env n fromBlock toBlock).

Definition queryRefunded (fromBlock toBlock : Z) : M (list Refunded) :=
  rpc (QueryFilter KRefunded fromBlock toBlock) "queryFilter"
      (fun n => eth_refundLogs env n fromBlock toBlock).

Definition getTransfer (transferId : string) : M Transfer :=
  rpc (GetTransfer transferId) "getTransfer" (fun n => eth_getTransfer env n transferId).

(** *** The record store

    The table [bridged_events], keyed by [tx_id].  Any call can come back
    with [{ error }] ([db_error]). *)

(** The table as a call finds it: another writer may have inserted a row
    since the previous call ([db_concurrent]); it never deletes or
    overwrites. *)
Definition arrive (w : World) : gmap string Row :=
  match db_concurrent env (clock w) with
  | Some r => match store w !! tx_id r with
              | None => <[tx_id r := r]> (store w)
              | Some _ => store w
              end
  | None => store w
  end.

(** [supabase.from('bridged_events').select('tx_id').eq('tx_id', transferId)] *)
Definition supabase_select (transferId : string) : M Response := fun w =>
  let s := arrive w in
  let w' := bump (withStore s w) in
  match db_error env (clock w) with
  | Some e => mkOut (Ok {| data := None; error := Some e |}) w' [DbSelect transferId]
  | None =>
      let rows := match s !! transferId with Some r => [tx_id r] | None => [] end in
      mkOut (Ok {| data := Some rows; error := None |}) w' [DbSelect transferId]
  end.

(** Modelled from the spec: the schema of the [bridged_events] table is not
    in the repository; by the spec the table is keyed by the transfer
    identifier and an insert on an identifier that is present fails with a
    conflict.

    [supabase.from('bridged_events').insert([row])] *)
Definition supabase_insert (r : Row) : M Response := fun w =>
  let s := arrive w in
  match db_error env (clock w) with
  | Some e => mkOut (Ok {| data := None; error := Some e |})
                    (bump (withStore s w)) [DbInsert r false]
  | None =>
      match s !! tx_id r with
      | Some _ => mkOut (Ok {| data := None; error := Some "duplicate key value" |})
                        (bump (withStore s w)) [DbInsert r false]
      | None => mkOut (Ok {| data := None; error := None |})
                      (bump (withStore (<[tx_id r := r]> s) w)) [DbInsert r true]
      end
  end.

(** [supabase.from('bridged_events').update(patch).eq('tx_id', transferId)] *)
Definition supabase_update (p : Patch) (transferId : string) : M Response := fun w =>
  let s := arrive w in
  match db_error env (clock w) with
  | Some e => mkOut (Ok {| data := None; error := Some e |})
                    (bump (withStore s w)) [DbUpdate transferId p false]
  | None =>
      let s' := match s !! transferId with
                | Some r => <[transferId := applyPatch p r]> s
                | None => s
                end in
      mkOut (Ok {| data := None; error := None |})
            (bump (withStore s' w)) [DbUpdate transferId p true]
  end.

(** *** The chunked log scan

    [[
    while (fromBlock <= currentBlock) {
      const toBlock = Math.min(fromBlock + 499, currentBlock);
      const chunkEvents = await l2.queryFilter(filter, fromBlock, toBlock);
      events.push(...chunkEvents);
      fromBlock = toBlock + 1;
    }
    ]] *)
Equations? queryLoop {E : Type} (queryFilter : Z -> Z -> M (list E))
    (currentBlock fromBlock : Z) (events : list E) : M (list E)
    by wf (Z.to_nat (currentBlock + 1 - fromBlock)) lt :=
queryLoop queryFilter currentBlock fromBlock events
    with inspect (fromBlock <=? currentBlock) := {
  | exist _ true _ =>
      let toBlock := Z.min (fromBlock + 499) currentBlock in
      chunkEvents <- queryFilter fromBlock toBlock ;;
      queryLoop queryFilter currentBlock (toBlock + 1) (events ++ chunkEvents)
  | exist _ false _ => ret events }.
Proof. lia. Qed.

End Program.

(** ** [ethers.solidityPacked] on the types the signer uses *)

Definition hexDigit (c : ascii) : option N :=
  let n := N_of_ascii c in
  if ((48 <=? n) && (n <=? 57))%N then Some (n - 48)%N
  else if ((97 <=? n) && (n <=? 102))%N then Some (n - 87)%N
  else if ((65 <=? n) && (n <=? 70))%N then Some (n - 55)%N
  else None.

Definition byteOfN (n : N) : Byte.byte := byte_of_ascii (ascii_of_N n).

Fixpoint hexPairs (s : string) : option (list Byte.byte) :=
  match s with
  | EmptyString => Some []
  | String hi (String lo rest) =>
      match hexDigit hi, hexDigit lo, hexPairs rest with
      | Some h, Some l, Some bs => Some (byteOfN (16 * h + l) :: bs)
      | _, _, _ => None
      end
  | String _ EmptyString => None
  end.

(** [s.startsWith('0x')] *)
Definition startsWith0x (s : string) : bool :=
  match s with
  | String "0" (String "x" _) => true
  | _ => false
  end.

(** [ethers.getBytes] of a hex string. *)
Definition getBytes (s : string) : option (list Byte.byte) :=
  match s with
  | String "0" (String "x" rest) => hexPairs rest
  | _ => None
  end.

Definition fixedBytes (n : nat) (s : string) : option (list Byte.byte) :=
  match getBytes s with
  | Some bs => if Nat.eqb (length bs) n then Some bs else None
  | None => None
  end.

(** Big-endian, [n] bytes. *)
Fixpoint bigEndian (n : nat) (v : Z) : list Byte.byte :=
  match n with
  | O => []
  | S k => (bigEndian k (v / 256) ++ [byteOfN (Z.to_N (v mod 256))])%list
  end.

Definition uint256 (v : Z) : option (list Byte.byte) :=
  if (0 <=? v) && (v <? 2 ^ 256) then Some (bigEndian 32 v) else None.

(** [solidityPacked(['bytes32', 'address', 'uint256', 'address'], [a, b, c, d])];
    [None] where ethers throws.  (The mixed-case checksum test that ethers
    runs on an address is not modelled: the packing accepts every 20-byte
    hex string.) *)
Definition solidityPacked (a b : string) (c : Z) (d : string) : option (list Byte.byte) :=
  match fixedBytes 32 a, fixedBytes 20 b, uint256 c, fixedBytes 20 d with
  | Some ab, Some bb, Some cb, Some db => Some (ab ++ bb ++ cb ++ db)%list
  | _, _, _, _ => None
  end.

(** ** What the two variants share *)

Section Shared.

Context (env : Env).

(** [await provider.getBlockNumber()] then [Math.max(0, currentBlock - lookback)];
    [null] when the call throws. *)
Definition getStartingBlockWith (lookback : Z) : M (option Z) :=
  tryCatch
    (currentBlock <- getBlockNumber env ;;
     ret (Some (Z.max 0 (currentBlock - lookback))))
    (fun _ => consoleError "Error getting starting block:" ;; ret None).

(** The head of [main]: a [null] starting block ends the process. *)
Definition startupWith (lookback : Z) : M unit :=
  startingBlock <- getStartingBlockWith lookback ;;
  match startingBlock with
  | None => consoleError "Failed to determine starting block. Exiting." ;;
            throw (ProcessExit 1)
  | Some b => setLastCheckedBlock b
  end.

Definition pendingRow (event : BridgeInitiated) (blockNumber : Z) : Row :=
  {| tx_id := bi_transferId event;
     address := bi_user event;
     bridged_amount := toString (bi_bridgedAmount event);
     status := "pending";
     block_number := blockNumber;
     timestamp := toString (bi_timestamp event);
     l1_block_number := None;
     signature1 := None |}.

(** [existing && existing.length > 0] *)
Definition nonEmpty (rows : option (list string)) : bool :=
  match rows with
  | Some l => negb (Nat.eqb (length l) 0)
  | None => false
  end.

(** The body of [for (const event of bridgeEvents)].  Both files have the
    same text up to the payout; [onPending] is the payout part and
    [afterEvent] what follows the [if]/[else] on the status. *)
Definition processBridgeEventWith
    (onPending : BridgeInitiated -> M unit) (afterEvent : M unit)
    (event : BridgeInitiated) : M unit :=
  let transferId := bi_transferId event in
  let blockNumber := bi_blockNumber event in
  sel <- supabase_select env transferId ;;
  match error sel with
  | Some _ => consoleError "Supabase select error:"          (* continue *)
  | None =>
      if nonEmpty (data sel) then ret tt                     (* continue *)
      else
        transfer <- getTransfer env transferId ;;
        let statusNum := t_status transfer in
        (if isStatus 0 statusNum then
           ins <- supabase_insert env (pendingRow event blockNumber) ;;
           match error ins with
           | Some _ => consoleError "Supabase insert error:"
           | None => ret tt
           end ;;
           onPending event
         else ret tt) ;;
        afterEvent
  end.

Definition refundedPatch : Patch :=
  {| p_status := Some "refunded"; p_l1_block_number := None; p_signature1 := None |}.

(** The body of [for (const event of refundEvents)], the same in both files. *)
Definition processRefund (event : Refunded) : M unit :=
  upd <- supabase_update env refundedPatch (rf_transferId event) ;;
  match error upd with
  | Some _ => consoleError "Supabase update error for refund:"
  | None => ret tt
  end.

End Shared.

(** ** [src/watcher.js] *)

Module Minimal.
Section Program.

Context (env : Env).

Definition getStartingBlock : M (option Z) := getStartingBlockWith env 1000.

Definition startup : M unit := startupWith env 1000.

(** [try { tx = await l1.payout(...); await tx.wait() } catch (err) { ... }] *)
Definition payoutOnce (event : BridgeInitiated) : M unit :=
  tryCatch
    (tx <- rpc (L1Payout (bi_transferId event) (bi_user event) (bi_bridgedAmount event))
               "payout" (eth_payout env) ;;
     _ <- rpc (L1Wait tx) "wait" (eth_payoutWait env) ;;
     ret tt)
    (fun _ => consoleError "Error processing payout:").

Definition processBridgeEvent : BridgeInitiated -> M unit :=
  processBridgeEventWith env payoutOnce (ret tt).

Definition tickBody : M unit :=
  currentBlock <- getBlockNumber env ;;
  let startingBlock := Z.max 0 (currentBlock - 1000) in
  bridgeEvents <- queryLoop (queryBridgeInitiated env) currentBlock startingBlock [] ;;
  refundEvents <- queryLoop (queryRefunded env) currentBlock startingBlock [] ;;
  forEach processBridgeEvent bridgeEvents ;;
  forEach (processRefund env) refundEvents.

(** One run of the [setInterval] callback. *)
Definition tick : M unit :=
  tryCatch tickBody (fun _ => consoleError "Error polling for events:").

End Program.
End Minimal.

(** ** The unified watcher and executor *)

Module Unified.

(** [payoutTx], with the [blockNumber] the code copies from the receipt. *)
Record PayoutTx := {
  hash : string;
  blockNumber : option Z
}.

(** The locals of the payout retry loop. *)
Record RetryState := {
  retryCount : Z;
  payoutSuccess : bool;
  payoutTx : option PayoutTx
}.

Definition maxRetries : Z := 3.

Definition completedPatch (l1BlockNumber : option Z) (signature : string) : Patch :=
  {| p_status := Some "Completed";
     p_l1_block_number := l1BlockNumber;
     p_signature1 := Some signature |}.

Section Program.

Context (cfg : Config) (env : Env).

Definition getStartingBlock : M (option Z) := getStartingBlockWith env 200.

Definition startup : M unit := startupWith env 200.

(** The bytes handed to [ethers.keccak256] by [signMessage]. *)
Definition digestInput (transferId user : string) (bridgedAmount : Z)
    (contractAddress : string) : option (list Byte.byte) :=
  let transferIdBytes :=
    if startsWith0x transferId then transferId else "0x" ++ transferId in
  solidityPacked transferIdBytes user bridgedAmount contractAddress.

Definition signMessage (transferId user : string) (bridgedAmount : Z)
    (contractAddress : string) : M string :=
  tryCatch
    (match digestInput transferId user bridgedAmount contractAddress with
     | None => throw (InvalidArgument "solidityPacked")
     | Some packed =>
         let rawHash := keccak256 cfg packed in
         emit (SignMessage rawHash) ;;
         ret (wallet_signMessage cfg (SIGNER_KEY cfg) rawHash)
     end)
    (fun err => consoleError "Error signing message:" ;; throw err).

Definition callCompleteOnL2 (transferId user : string) (bridgedAmount : Z)
    (signature : string) : M string :=
  tryCatch
    (tx <- rpc (L2Complete transferId [signature] [AUTHORIZED_SIGNER])
               "complete" (eth_complete env) ;;
     _ <- rpc (L2Wait tx) "wait" (eth_completeWait env) ;;
     ret tx)
    (fun err => consoleError "Error calling complete on L2:" ;; throw err).

Definition updateSupabaseComplete (transferId : string) (l1BlockNumber : option Z)
    (l2TxHash signature : string) : M unit :=
  tryCatch
    (upd <- supabase_update env (completedPatch l1BlockNumber signature) transferId ;;
     match error upd with
     | Some e => consoleError "Error updating Supabase completion data:" ;;
                 throw (DbError e)
     | None => ret tt
     end)
    (fun err => consoleError "Error updating Supabase completion data:" ;; throw err).

Definition processPayoutCompletion (transferId user : string) (bridgedAmount : Z)
    (payoutBlockNumber : option Z) : M unit :=
  tryCatch
    (transfer <- getTransfer env transferId ;;
     signature <- signMessage transferId (t_user transfer) (t_bridgedAmount transfer)
                              (L2_ADDRESS cfg) ;;
     doubleCheck <- getTransfer env transferId ;;
     if isStatus 1 (t_status doubleCheck) then ret tt
     else if isStatus 2 (t_status doubleCheck) then ret tt
     else if negb (strictEq (t_status doubleCheck) (BigInt 0))
             && negb (strictEq (t_status doubleCheck) (Number 0)) then ret tt
     else
       l2TxHash <- callCompleteOnL2 transferId user bridgedAmount signature ;;
       updateSupabaseComplete transferId payoutBlockNumber l2TxHash signature)
    (fun _ =>
       consoleError "Error processing payout completion:" ;;
       consoleError "Error details:" ;;
       consoleError "Error stack:").

(** The [catch] block of one payout attempt, after [retryCount++]. *)
Definition payoutFailed (retryCount' : Z) : M unit :=
  consoleError "Error processing payout (attempt):" ;;
  if retryCount' <? maxRetries then
    let waitTime := 2 ^ retryCount' * 1000 in
    sleep waitTime
  else consoleError "All payout attempts failed for transfer:".

(** [[
    while (retryCount < maxRetries && !payoutSuccess) {
      try {
        payoutTx = await l1.payout(transferId, user, bridgedAmount);
        const receipt = await payoutTx.wait();
        payoutSuccess = true;
        payoutTx.blockNumber = receipt.blockNumber;
      } catch (err) {
        retryCount++;
        ... wait 2^retryCount seconds if retryCount < maxRetries ...
      }
    }
    ]] *)
Equations? payoutLoop (event : BridgeInitiated) (st : RetryState) : M RetryState
    by wf (Z.to_nat (maxRetries - retryCount st) + (if payoutSuccess st then 0 else 1))%nat lt :=
payoutLoop event st
    with inspect ((retryCount st <? maxRetries) && negb (payoutSuccess st)) := {
  | exist _ true _ =>
      sent <- attempt (rpc (L1Payout (bi_transferId event) (bi_user event)
                                     (bi_bridgedAmount event))
                           "payout" (eth_payout env)) ;;
      match sent with
      | Throw _ =>
          payoutFailed (retryCount st + 1) ;;
          payoutLoop event {| retryCount := retryCount st + 1;
                              payoutSuccess := payoutSuccess st;
                              payoutTx := payoutTx st |}
      | Ok tx =>
          receipt <- attempt (rpc (L1Wait tx) "wait" (eth_payoutWait env)) ;;
          match receipt with
          | Throw _ =>
              payoutFailed (retryCount st + 1) ;;
              payoutLoop event
                {| retryCount := retryCount st + 1;
                   payoutSuccess := payoutSuccess st;
                   payoutTx := Some {| hash := tx; blockNumber := None |} |}
          | Ok receiptBlockNumber =>
              payoutLoop event
                {| retryCount := retryCount st;
                   payoutSuccess := true;
                   payoutTx := Some {| hash := tx;
                                       blockNumber := Some receiptBlockNumber |} |}
          end
      end
  | exist _ false _ => ret st }.
Proof.
  all: clear payoutLoop; apply andb_prop in e; destruct e as [Hlt Hneg];
    apply negb_true_iff in Hneg; rewrite Hneg; cbn; lia.
Qed.

(** The payout part of the loop body: the retry loop, then the completion. *)
Definition payoutAndComplete (event : BridgeInitiated) : M unit :=
  st <- payoutLoop event {| retryCount := 0; payoutSuccess := false; payoutTx := None |} ;;
  match payoutSuccess st, payoutTx st with
  | true, Some tx =>
      tryCatch
        (processPayoutCompletion (bi_transferId event) (bi_user event)
                                 (bi_bridgedAmount event) (blockNumber tx))
        (fun _ => consoleError "Error in processPayoutCompletion:")
  | _, _ => ret tt
  end.

Definition processBridgeEvent : BridgeInitiated -> M unit :=
  processBridgeEventWith env payoutAndComplete (sleep 1000).

Definition tickBody : M unit :=
  currentBlock <- getBlockNumber env ;;
  cursor <- getLastCheckedBlock ;;
  if currentBlock <=? cursor then ret tt
  else
    fromBlock <- getLastCheckedBlock ;;
    bridgeEvents <- queryLoop (queryBridgeInitiated env) currentBlock (fromBlock + 1) [] ;;
    fromBlock <- getLastCheckedBlock ;;
    refundEvents <- queryLoop (queryRefunded env) currentBlock (fromBlock + 1) [] ;;
    forEach processBridgeEvent bridgeEvents ;;
    forEach (processRefund env) refundEvents ;;
    setLastCheckedBlock currentBlock.

(** One run of the [setInterval] callback. *)
Definition tick : M unit :=
  tryCatch tickBody (fun _ => consoleError "Error polling for events:").

End Program.
End Unified.

(** ** Vocabulary of the statements *)

Local Open Scope list_scope.

Definition setCursor (c : Z) (w : World) : World :=
  {| store := store w; clock := clock w; lastCheckedBlock := c |}.

Definition mapWorld {A} (f : World -> World) (o : Out A) : Out A :=
  mkOut (res o) (f (world o)) (emitted o).

(** [m] neither reads nor writes [lastCheckedBlock]: run from a world whose
    cursor was replaced, it does the same and leaves the replacement. *)
Definition cursorBlind {A} (m : M A) : Prop :=
  forall c w, m (setCursor c w) = mapWorld (setCursor c) (m w).

(** The runs of a loop body, one per element reached; the list stops after
    the first run that throws. *)
Fixpoint runs {A} (body : A -> M unit) (xs : list A) (w : World) : list (Out unit) :=
  match xs with
  | [] => []
  | x :: rest =>
      let o := body x w in
      o :: match res o with
           | Ok _ => runs body rest (world o)
           | Throw _ => []
           end
  end.

Definition returned {A} (o : Out A) : Prop :=
  match res o with Ok _ => True | Throw _ => False end.

(** The sub-ranges of [fromBlock .. toBlock] in windows of 500 blocks: the
    [i]-th starts at [fromBlock + 500 * i] and ends 499 blocks later, or at
    [toBlock] if that comes first. *)
Definition subRangeCount (fromBlock toBlock : Z) : Z :=
  if fromBlock <=? toBlock then (toBlock - fromBlock + 500) / 500 else 0.

Definition subRanges (fromBlock toBlock : Z) : list (Z * Z) :=
  (fun i => (fromBlock + 500 * i, Z.min (fromBlock + 500 * i + 499) toBlock))
    <$> seqZ 0 (subRangeCount fromBlock toBlock).

(** One query per range, in list order, results appended. *)
Fixpoint queryAll {E} (queryFilter : Z -> Z -> M (list E)) (ranges : list (Z * Z))
    (events : list E) : M (list E) :=
  match ranges with
  | [] => ret events
  | (a, b) :: rest =>
      chunkEvents <- queryFilter a b ;;
      queryAll queryFilter rest (events ++ chunkEvents)
  end.

Definition isInsertOf (id : string) (a : Action) : bool :=
  match a with
  | DbInsert r true => if decide (tx_id r = id) then true else false
  | _ => false
  end.

(** How many rows with key [id] the trace created. *)
Definition inserted (id : string) (t : list Action) : nat :=
  length (filter (fun a => isInsertOf id a = true) t).

(** Writes: to the record store or to a chain. *)
Definition isWrite (a : Action) : bool :=
  match a with
  | DbInsert _ _ | DbUpdate _ _ _ | L1Payout _ _ _ | L2Complete _ _ _ => true
  | _ => false
  end.

Definition isPayout (a : Action) : bool :=
  match a with L1Payout _ _ _ => true | _ => false end.

Definition isConsoleError (a : Action) : bool :=
  match a with ConsoleError _ => true | _ => false end.

(** The delays of a trace, in order. *)
Definition delays (t : list Action) : list Z :=
  omap (fun a => match a with SetTimeout ms => Some ms | _ => None end) t.

Definition payouts (t : list Action) : nat :=
  length (filter (fun a => isPayout a = true) t).

(** The insert invariant for one key: rows are never removed, a key that
    is present is not inserted, and a key is inserted at most once, after
    which it is present. *)
Definition insertOnce (id : string) (w : World) (t : list Action) (w' : World) : Prop :=
  (is_Some (store w !! id) -> is_Some (store w' !! id) /\ inserted id t = 0%nat) /\
  (inserted id t <= 1)%nat /\
  (inserted id t = 1%nat -> is_Some (store w' !! id)).

Definition keepsInsertOnce {A} (m : M A) : Prop :=
  forall id w, insertOnce id w (emitted (m w)) (world (m w)).

(** The measure that decreases around the payout loop. *)
Definition retryMeasure (st : Unified.RetryState) : nat :=
  (Z.to_nat (Unified.maxRetries - Unified.retryCount st)
   + (if Unified.payoutSuccess st then 0 else 1))%nat.

(** The test of the payout loop. *)
Definition retrying (st : Unified.RetryState) : bool :=
  (Unified.retryCount st <? Unified.maxRetries) && negb (Unified.payoutSuccess st).

(** The part of the tick that follows the head-at-or-below-cursor test. *)
Definition scanAndProcess cfg env (currentBlock : Z) : M unit :=
  fromBlock <- getLastCheckedBlock ;;
  bridgeEvents <- queryLoop (queryBridgeInitiated env) currentBlock (fromBlock + 1) [] ;;
  fromBlock <- getLastCheckedBlock ;;
  refundEvents <- queryLoop (queryRefunded env) currentBlock (fromBlock + 1) [] ;;
  forEach (Unified.processBridgeEvent cfg env) bridgeEvents ;;
  forEach (processRefund env) refundEvents ;;
  setLastCheckedBlock currentBlock.

(** *** The payout retry loop *)

Definition payAction (ev : BridgeInitiated) : Action :=
  L1Payout (bi_transferId ev) (bi_user ev) (bi_bridgedAmount ev).

Definition failLog : Action := ConsoleError "Error processing payout (attempt):".

Definition allFailedLog : Action :=
  ConsoleError "All payout attempts failed for transfer:".

(** What the [catch] block of an attempt emits once [retryCount] is [n]. *)
Definition failTrace (n : Z) : list Action :=
  failLog :: (if n <? Unified.maxRetries then [SetTimeout (2 ^ n * 1000)]
              else [allFailedLog]).

Definition prepend {A} (t : list Action) (o : Out A) : Out A :=
  mkOut (res o) (world o) (t ++ emitted o).

Definition failedState (st : Unified.RetryState) (tx : option Unified.PayoutTx) :=
  {| Unified.retryCount := Unified.retryCount st + 1;
     Unified.payoutSuccess := Unified.payoutSuccess st;
     Unified.payoutTx := tx |}.

Definition confirmedState (st : Unified.RetryState) (tx : string) (b : Z) :=
  {| Unified.retryCount := Unified.retryCount st;
     Unified.payoutSuccess := true;
     Unified.payoutTx :=
       Some {| Unified.hash := tx; Unified.blockNumber := Some b |} |}.

(** The locals when the loop is entered. *)
Definition st0 : Unified.RetryState :=
  {| Unified.retryCount := 0; Unified.payoutSuccess := false; Unified.payoutTx := None |}.

(** The actions of one payout attempt: the submission, and the wait for
    the receipt if the submission went through. *)
Definition isAttempt (ev : BridgeInitiated) (t : list Action) : Prop :=
  t = [payAction ev] \/ exists tx, t = [payAction ev; L1Wait tx].

(** *** The completion step *)

(** What [processPayoutCompletion] does once the signature exists: the
    second read of the status, the guard, the call and the store update. *)
Definition completionGuarded env (transferId user : string) (bridgedAmount : Z)
    (payoutBlockNumber : option Z) (signature : string) : M unit :=
  doubleCheck <- getTransfer env transferId ;;
  if isStatus 1 (t_status doubleCheck) then ret tt
  else if isStatus 2 (t_status doubleCheck) then ret tt
  else if negb (strictEq (t_status doubleCheck) (BigInt 0))
          && negb (strictEq (t_status doubleCheck) (Number 0)) then ret tt
  else
    l2TxHash <- Unified.callCompleteOnL2 env transferId user bridgedAmount signature ;;
    Unified.updateSupabaseComplete env transferId payoutBlockNumber l2TxHash signature.

(** The [catch] block of [processPayoutCompletion]. *)
Definition completionHandler : Err -> M unit := fun _ =>
  consoleError "Error processing payout completion:" ;;
  consoleError "Error details:" ;;
  consoleError "Error stack:".

Definition isSign (a : Action) : bool :=
  match a with SignMessage _ => true | _ => false end.

(** The transfer an action is about, if any. *)
Definition aboutTransfer (a : Action) : option string :=
  match a with
  | GetTransfer id | DbSelect id | DbUpdate id _ _
  | L1Payout id _ _ | L2Complete id _ _ => Some id
  | DbInsert r _ => Some (tx_id r)
  | _ => None
  end.

Definition mentions (id : string) (t : list Action) : list Action :=
  filter (fun a => aboutTransfer a = Some id) t.

(** ** Scenarios *)

Definition idA : string :=
  "0xaaaaaaaaaaaaaaaaaaaaaaaaaaaaaaaaaaaaaaaaaaaaaaaaaaaaaaaaaaaaaaaa".

Definition idB : string :=
  "0xbbbbbbbbbbbbbbbbbbbbbbbbbbbbbbbbbbbbbbbbbbbbbbbbbbbbbbbbbbbbbbbb".

Definition alice : string := "0x00000000000000000000000000000000000a11ce".

Definition bob : string := "0x0000000000000000000000000000000000000b0b".

Definition evA : BridgeInitiated :=
  {| bi_user := alice; bi_originalAmount := 105; bi_bridgedAmount := 100;
     bi_transferId := idA; bi_timestamp := 1700000000; bi_blockNumber := 1201 |}.

Definition evB : BridgeInitiated :=
  {| bi_user := bob; bi_originalAmount := 210; bi_bridgedAmount := 200;
     bi_transferId := idB; bi_timestamp := 1700000060; bi_blockNumber := 1202 |}.

Definition refundA : Refunded :=
  {| rf_transferId := idA; rf_user := alice; rf_amount := 105; rf_blockNumber := 1300 |}.

(** The source chain's view of a transfer with the given status. *)
Definition transferOf (ev : BridgeInitiated) (st : JsNum) : Transfer :=
  {| t_user := bi_user ev; t_originalAmount := bi_originalAmount ev;
     t_bridgedAmount := bi_bridgedAmount ev; t_timestamp := bi_timestamp ev;
     t_status := st |}.

Definition chainTransfer (id : string) (st : JsNum) : Transfer :=
  if String.eqb id idB then transferOf evB st else transferOf evA st.

(** An environment in which every call answers: the head is block 1700,
    a query whose range covers blocks 1201 and 1202 returns the two
    initiation events, every transfer is Pending. *)
Definition calmEnv : Env :=
  {| eth_blockNumber := fun _ => Some 1700;
     eth_bridgeLogs := fun _ a b =>
       Some (if (a <=? 1201) && (1202 <=? b) then [evA; evB] else []);
     eth_refundLogs := fun _ _ _ => Some [];
     eth_getTransfer := fun _ id => Some (chainTransfer id (BigInt 0));
     eth_payout := fun _ => Some "0xpayout";
     eth_payoutWait := fun _ => Some 77;
     eth_complete := fun _ => Some "0xcomplete";
     eth_completeWait := fun _ => Some tt;
     db_error := fun _ => None;
     db_concurrent := fun _ => None |}.

(** The row another writer inserts for [idA]. *)
Definition foreignRow : Row :=
  {| tx_id := idA; address := alice; bridged_amount := "100"; status := "pending";
     block_number := 1201; timestamp := "1700000000";
     l1_block_number := None; signature1 := None |}.

(** As [calmEnv], but another writer inserts the row of [idA] after the
    existence check (call 0) and the status read (call 1), just before this
    process's insert (call 2). *)
Definition raceEnv : Env :=
  {| eth_blockNumber := eth_blockNumber calmEnv;
     eth_bridgeLogs := eth_bridgeLogs calmEnv;
     eth_refundLogs := eth_refundLogs calmEnv;
     eth_getTransfer := eth_getTransfer calmEnv;
     eth_payout := eth_payout calmEnv;
     eth_payoutWait := eth_payoutWait calmEnv;
     eth_complete := eth_complete calmEnv;
     eth_completeWait := eth_completeWait calmEnv;
     db_error := fun _ => None;
     db_concurrent := fun n => if Nat.eqb n 2 then Some foreignRow else None |}.

(** As [calmEnv], but the record store rejects the tenth call, which in
    a tick of the minimal variant from [w0] is the insert of [idA]. *)
Definition outageEnv : Env :=
  {| eth_blockNumber := eth_blockNumber calmEnv;
     eth_bridgeLogs := eth_bridgeLogs calmEnv;
     eth_refundLogs := eth_refundLogs calmEnv;
     eth_getTransfer := eth_getTransfer calmEnv;
     eth_payout := eth_payout calmEnv;
     eth_payoutWait := eth_payoutWait calmEnv;
     eth_complete := eth_complete calmEnv;
     eth_completeWait := eth_completeWait calmEnv;
     db_error := fun n => if Nat.eqb n 9 then Some "connection reset" else None;
     db_concurrent := fun _ => None |}.

(** As [calmEnv], with a refund of [idA] in the scanned range, and
    [getTransfer] throwing for [idA]. *)
Definition flakyEnv : Env :=
  {| eth_blockNumber := eth_blockNumber calmEnv;
     eth_bridgeLogs := eth_bridgeLogs calmEnv;
     eth_refundLogs := fun _ a b =>
       Some (if (a <=? 1300) && (1300 <=? b) then [refundA] else []);
     eth_getTransfer := fun _ id => if String.eqb id idA then None
                                    else Some (chainTransfer id (BigInt 0));
     eth_payout := eth_payout calmEnv;
     eth_payoutWait := eth_payoutWait calmEnv;
     eth_complete := eth_complete calmEnv;
     eth_completeWait := eth_completeWait calmEnv;
     db_error := fun _ => None;
     db_concurrent := fun _ => None |}.

(** As [calmEnv], with a destination chain that rejects every payout. *)
Definition noPayoutEnv : Env :=
  {| eth_blockNumber := eth_blockNumber calmEnv;
     eth_bridgeLogs := eth_bridgeLogs calmEnv;
     eth_refundLogs := eth_refundLogs calmEnv;
     eth_getTransfer := eth_getTransfer calmEnv;
     eth_payout := fun _ => None;
     eth_payoutWait := eth_payoutWait calmEnv;
     eth_complete := eth_complete calmEnv;
     eth_completeWait := eth_completeWait calmEnv;
     db_error := fun _ => None;
     db_concurrent := fun _ => None |}.

(** As [calmEnv], with a source chain that reports every transfer as
    Completed. *)
Definition completedEnv : Env :=
  {| eth_blockNumber := eth_blockNumber calmEnv;
     eth_bridgeLogs := eth_bridgeLogs calmEnv;
     eth_refundLogs := eth_refundLogs calmEnv;
     eth_getTransfer := fun _ id => Some (chainTransfer id (BigInt 1));
     eth_payout := eth_payout calmEnv;
     eth_payoutWait := eth_payoutWait calmEnv;
     eth_complete := eth_complete calmEnv;
     eth_completeWait := eth_completeWait calmEnv;
     db_error := fun _ => None;
     db_concurrent := fun _ => None |}.

(** A configuration with distinct contract addresses.  The hash is a
    stand-in that returns its input, so that two digests are equal exactly
    when the hashed bytes are. *)
Definition cfg0 : Config :=
  {| L1_ADDRESS := "0x1111111111111111111111111111111111111111";
     L2_ADDRESS := "0x2222222222222222222222222222222222222222";
     SIGNER_KEY := "signer-key";
     keccak256 := fun bytes => bytes;
     wallet_signMessage := fun _ _ => "0xsignature" |}.

Definition w0 : World := {| store := ∅; clock := 0; lastCheckedBlock := 1200 |}.

(** A world whose record store already holds a completed row for [idA]. *)
Definition completedRow : Row :=
  {| tx_id := idA; address := alice; bridged_amount := "100"; status := "Completed";
     block_number := 1201; timestamp := "1700000000";
     l1_block_number := Some 77; signature1 := Some "0xsignature" |}.

Definition w1 : World :=
  {| store := {[ idA := completedRow ]}; clock := 0; lastCheckedBlock := 1200 |}.

(** ** Vocabulary of the further properties *)

(** [m] returns from every world. *)
Definition neverThrows {A} (m : M A) : Prop := forall w, returned (m w).

(** What the loop body does with a new, Pending transfer: the insert, its
    log line, the payout part, and what follows the [if]. *)
Definition storeAndPay env (onPending : BridgeInitiated -> M unit) (afterEvent : M unit)
    (event : BridgeInitiated) : M unit :=
  (ins <- supabase_insert env (pendingRow event (bi_blockNumber event)) ;;
   match error ins with
   | Some _ => consoleError "Supabase insert error:"
   | None => ret tt
   end ;;
   onPending event) ;;
  afterEvent.


(** The three messages of the [catch] block of [processPayoutCompletion]. *)
Definition completionLogs : list Action :=
  [ConsoleError "Error processing payout completion:";
   ConsoleError "Error details:"; ConsoleError "Error stack:"].



(** [m] relates the world it starts from, the actions it issues and the
    world it leaves by [R]. *)
Definition obeys (R : World -> list Action -> World -> Prop) {A} (m : M A) : Prop :=
  forall w, R w (emitted (m w)) (world (m w)).

(** The columns that identify a row, and the ways its status may move. *)
Definition evolves (r r' : Row) : Prop :=
  tx_id r' = tx_id r /\ address r' = address r /\
  bridged_amount r' = bridged_amount r /\ block_number r' = block_number r /\
  timestamp r' = timestamp r /\
  (status r' = status r \/ status r' = "Completed" \/ status r' = "refunded").

(** Every row of [w] is still in [w'], evolved. *)
Definition rowsKept (w : World) (t : list Action) (w' : World) : Prop :=
  forall k r, store w !! k = Some r ->
              exists r', store w' !! k = Some r' /\ evolves r r'.

(** The calls that the processing of [ev] may make. *)
Definition aboutEvent (ev : BridgeInitiated) (a : Action) : Prop :=
  match a with
  | DbSelect i | GetTransfer i => i = bi_transferId ev
  | DbInsert r _ => r = pendingRow ev (bi_blockNumber ev)
  | DbUpdate i p _ => i = bi_transferId ev /\ p_status p = Some "Completed"
  | L1Payout i u amount =>
      i = bi_transferId ev /\ u = bi_user ev /\ amount = bi_bridgedAmount ev
  | L2Complete i s g => i = bi_transferId ev /\ length s = 1%nat /\ g = [AUTHORIZED_SIGNER]
  | L1Wait _ | L2Wait _ | SignMessage _ | SetTimeout _ | ConsoleError _ => True
  | GetBlockNumber | QueryFilter _ _ _ => False
  end.

(** The calls of the completion protocol and the throttle, which the
    minimal variant has not. *)
Definition isExecutorAction (a : Action) : bool :=
  match a with
  | DbUpdate _ _ _ | L2Complete _ _ _ | L2Wait _ | SignMessage _ | SetTimeout _ => true
  | _ => false
  end.

(** Every action of the trace satisfies [P]. *)
Definition traceAll (P : Action -> Prop) (w : World) (t : list Action) (w' : World) : Prop :=
  Forall P t.

(** The calls that the minimal variant may make for [ev]. *)
Definition watcherAction (ev : BridgeInitiated) (a : Action) : Prop :=
  aboutEvent ev a /\ isExecutorAction a = false.




(** [transferId.startsWith('0x') ? transferId : '0x' + transferId] *)
Definition transferIdBytes (transferId : string) : string :=
  if startsWith0x transferId then transferId else ("0x" ++ transferId)%string.

(** The number that a big-endian byte string denotes. *)
Definition fromBigEndian (bs : list Byte.byte) : Z :=
  fold_left (fun acc b => acc * 256 + Z.of_N (N_of_ascii (ascii_of_byte b))) bs 0.


(** ** The maintenance script

    [clearFirst200] of [src/unnamed/part_000]: one select, ordered and
    limited, and one delete by identifier.  The supabase client hands
    errors back as [{ error }]; what the database answers to the ordered
    select is [db_order], the two possible errors are [selectError] and
    [deleteError].  The [console.log] lines are not part of the model. *)

Module Maintenance.

Inductive Call :=
| SelectOrdered (limit : nat)
| DeleteIn (txIds : list string)
| LogError (msg : string).

Record Db := {
  db_order : gmap string Row -> list Row;
  selectError : option string;
  deleteError : option string
}.

(** [.delete().in('tx_id', txIds)] *)
Definition deleteIn (txIds : list string) (s : gmap string Row) : gmap string Row :=
  filter (fun kr : string * Row => tx_id kr.2 ∉ txIds) s.

(** [[
    const { data: rowsToDelete, error: selectError } = await supabase
      .from('bridged_events').select(...)
      .order('block_number', { ascending: true }).limit(200);
    if (selectError) { console.error(...); return; }
    if (rowsToDelete.length === 0) { return; }
    const txIdsToDelete = rowsToDelete.map(row => row.tx_id);
    const { error: deleteError } = await supabase
      .from('bridged_events').delete().in('tx_id', txIdsToDelete);
    if (deleteError) { console.error(...); return; }
    ]] *)
Definition clearFirst200 (db : Db) (s : gmap string Row) : gmap string Row * list Call :=
  match selectError db with
  | Some _ => (s, [SelectOrdered 200; LogError "Error selecting rows:"])
  | None =>
      let rowsToDelete := take 200 (db_order db s) in
      if Nat.eqb (length rowsToDelete) 0 then (s, [SelectOrdered 200])
      else
        let txIdsToDelete := map tx_id rowsToDelete in
        match deleteError db with
        | Some _ => (s, [SelectOrdered 200; DeleteIn txIdsToDelete;
                         LogError "Error deleting rows:"])
        | None => (deleteIn txIdsToDelete s, [SelectOrdered 200; DeleteIn txIdsToDelete])
        end
  end.

End Maintenance.

(** The rows of a table. *)
Definition rowsOf (s : gmap string Row) : list Row := (map_to_list s).*2.

(** [.order('block_number', { ascending: true })] *)
Definition byBlockNumber (r1 r2 : Row) : Prop := block_number r1 <= block_number r2.

(** The answer of the database is the table, in ascending order of
    [block_number]. *)
Definition ordersByBlockNumber (db : Maintenance.Db) (s : gmap string Row) : Prop :=
  Maintenance.db_order db s ≡ₚ rowsOf s /\
  StronglySorted byBlockNumber (Maintenance.db_order db s).

(** Every row is stored under its own [tx_id]. *)
Definition keyedByTxId (s : gmap string Row) : Prop :=
  forall k r, s !! k = Some r -> tx_id r = k.


(** The reads of the source chain's head and logs. *)
Definition isChainRead (a : Action) : bool :=
  match a with
  | GetBlockNumber | QueryFilter _ _ _ => true
  | _ => false
  end.

(** Only the clock has moved, and only the chain was read. *)
Definition readsChainOnly (w : World) (t : list Action) (w' : World) : Prop :=
  store w' = store w /\ lastCheckedBlock w' = lastCheckedBlock w /\
  Forall (fun a => isChainRead a = true) t.


(** ** Further scenarios *)


(** As [calmEnv], but the confirmation of a payout is not seen at the
    second call. *)
Definition slowConfirmEnv : Env :=
  {| eth_blockNumber := eth_blockNumber calmEnv;
     eth_bridgeLogs := eth_bridgeLogs calmEnv;
     eth_refundLogs := eth_refundLogs calmEnv;
     eth_getTransfer := eth_getTransfer calmEnv;
     eth_payout := eth_payout calmEnv;
     eth_payoutWait := fun n => if Nat.eqb n 1 then None else Some 77;
     eth_complete := eth_complete calmEnv;
     eth_completeWait := eth_completeWait calmEnv;
     db_error := fun _ => None;
     db_concurrent := fun _ => None |}.

(** As [calmEnv], but every query for refund logs is rejected. *)
Definition scanFailEnv : Env :=
  {| eth_blockNumber := eth_blockNumber calmEnv;
     eth_bridgeLogs := eth_bridgeLogs calmEnv;
     eth_refundLogs := fun _ _ _ => None;
     eth_getTransfer := eth_getTransfer calmEnv;
     eth_payout := eth_payout calmEnv;
     eth_payoutWait := eth_payoutWait calmEnv;
     eth_complete := eth_complete calmEnv;
     eth_completeWait := eth_completeWait calmEnv;
     db_error := fun _ => None;
     db_concurrent := fun _ => None |}.

(** [idA] without its prefix. *)
Definition idA_bare : string :=
  "aaaaaaaaaaaaaaaaaaaaaaaaaaaaaaaaaaaaaaaaaaaaaaaaaaaaaaaaaaaaaaaa".

(** A table of two rows: the completed row of [idA] (block 1201) and the
    pending row of [idB] (block 1202). *)
Definition twoRows : gmap string Row :=
  <[idB := pendingRow evB 1202]> {[ idA := completedRow ]}.

Fixpoint insertByBlock (r : Row) (l : list Row) : list Row :=
  match l with
  | [] => [r]
  | x :: rest => if block_number r <=? block_number x then r :: l
                 else x :: insertByBlock r rest
  end.

(** A database that answers both calls and orders by insertion sort. *)
Definition sortedDb : Maintenance.Db :=
  {| Maintenance.db_order := fun s => foldr insertByBlock [] (rowsOf s);
     Maintenance.selectError := None;
     Maintenance.deleteError := None |}.


(** As [calmEnv], with a source chain that rejects every [complete]. *)
Definition noCompleteEnv : Env :=
  {| eth_blockNumber := eth_blockNumber calmEnv;
     eth_bridgeLogs := eth_bridgeLogs calmEnv;
     eth_refundLogs := eth_refundLogs calmEnv;
     eth_getTransfer := fun _ _ => Some (chainTransfer idA (BigInt 0));
     eth_payout := eth_payout calmEnv;
     eth_payoutWait := eth_payoutWait calmEnv;
     eth_complete := fun _ => None;
     eth_completeWait := eth_completeWait calmEnv;
     db_error := fun _ => None;
     db_concurrent := fun _ => None |}.

(** * Proofs *)

(** ** Unfolding the loops *)

Lemma queryLoop_step {E} (q : Z -> Z -> M (list E)) cur from ev :
  queryLoop q cur from ev =
  if from <=? cur then
    chunkEvents <- q from (Z.min (from + 499) cur) ;;
    queryLoop q cur (Z.min (from + 499) cur + 1) (ev ++ chunkEvents)
  else ret ev.
Proof.
  funelim (queryLoop q cur from ev);
    match goal with H : (_ <=? _) = _ |- _ => rewrite H end; reflexivity.
Qed.

Lemma forEach_app {A} (body : A -> M unit) xs ys w :
  forEach body (xs ++ ys) w = (forEach body xs ;; forEach body ys) w.
Proof.
  revert w; induction xs as [|x xs IH]; intros w; cbn.
  - unfold bind; cbn. destruct (forEach body ys w); reflexivity.
  - unfold bind at 1 3. cbn. destruct (res (body x w)) eqn:Hx; cbn.
    + rewrite IH. unfold bind. cbn. rewrite Hx.
      destruct (res (forEach body xs (world (body x w)))); cbn;
        rewrite ?app_assoc; reflexivity.
    + unfold bind; cbn. rewrite Hx. reflexivity.
Qed.

(** A loop returns exactly when each of its bodies ran and returned. *)
Lemma forEach_returned {A} (body : A -> M unit) xs w :
  returned (forEach body xs w) <->
  length (runs body xs w) = length xs /\ Forall returned (runs body xs w).
Proof.
  revert w; induction xs as [|x xs IH]; intros w; cbn.
  - split; [intros _; split; [reflexivity | constructor] | intros _; exact I].
  - unfold returned at 1, bind; cbn.
    destruct (res (body x w)) eqn:Hx; cbn.
    + specialize (IH (world (body x w))). unfold returned at 1 in IH.
      split.
      * intros H. apply IH in H as [Hl Hf]. split; [congruence |].
        constructor; [unfold returned; rewrite Hx; exact I | exact Hf].
      * intros [Hl Hf]. apply IH. split; [congruence | inversion Hf; assumption].
    + split; [intros [] |].
      intros [Hl Hf]. inversion Hf as [|? ? Hr _]; subst.
      unfold returned in Hr; rewrite Hx in Hr; exact Hr.
Qed.

(** ** Computations that ignore the cursor *)

Lemma blind_ret {A} (a : A) : cursorBlind (ret a).
Proof. intros c w; reflexivity. Qed.

Lemma blind_throw {A} e : cursorBlind (@throw A e).
Proof. intros c w; reflexivity. Qed.

Lemma blind_emit a : cursorBlind (emit a).
Proof. intros c w; reflexivity. Qed.

Lemma blind_rpc {A} a method (answer : nat -> option A) : cursorBlind (rpc a method answer).
Proof. intros c w; unfold rpc; cbn. destruct (answer (clock w)); reflexivity. Qed.

Lemma blind_bind {A B} (m : M A) (k : A -> M B) :
  cursorBlind m -> (forall a, cursorBlind (k a)) -> cursorBlind (bind m k).
Proof.
  intros Hm Hk c w. unfold bind. cbn beta zeta. rewrite !Hm.
  unfold mapWorld; cbn [res world emitted].
  destruct (res (m w)); [rewrite !Hk |]; reflexivity.
Qed.

Lemma blind_tryCatch {A} (m : M A) (h : Err -> M A) :
  cursorBlind m -> (forall e, cursorBlind (h e)) -> cursorBlind (tryCatch m h).
Proof.
  intros Hm Hh c w. unfold tryCatch. cbn beta zeta. rewrite !Hm.
  unfold mapWorld; cbn [res world emitted].
  destruct (res (m w)) eqn:Hr; [rewrite Hr | rewrite !Hh]; reflexivity.
Qed.

Lemma blind_attempt {A} (m : M A) : cursorBlind m -> cursorBlind (attempt m).
Proof. intros Hm c w. unfold attempt. cbn beta zeta. rewrite !Hm. reflexivity. Qed.

Lemma blind_forEach {A} (body : A -> M unit) xs :
  (forall x, cursorBlind (body x)) -> cursorBlind (forEach body xs).
Proof.
  intros Hb. induction xs as [|x xs IH]; cbn.
  - apply blind_ret.
  - apply blind_bind; [apply Hb | intros _; exact IH].
Qed.

Lemma blind_queryLoop {E} (q : Z -> Z -> M (list E)) cur from ev :
  (forall a b, cursorBlind (q a b)) -> cursorBlind (queryLoop q cur from ev).
Proof.
  intros Hq.
  remember (Z.to_nat (cur + 1 - from)) as n eqn:Hn.
  revert from ev Hn. induction n as [n IH] using lt_wf_ind. intros from ev Hn.
  rewrite queryLoop_step. destruct (from <=? cur) eqn:Hle.
  - apply blind_bind; [apply Hq |]. intros chunk.
    eapply IH; [| reflexivity]. lia.
  - apply blind_ret.
Qed.

Lemma blind_select env id : cursorBlind (supabase_select env id).
Proof.
  intros c w. unfold supabase_select, arrive; cbn.
  destruct (db_error env (clock w)); reflexivity.
Qed.

Lemma blind_insert env r : cursorBlind (supabase_insert env r).
Proof.
  intros c w. unfold supabase_insert, arrive; cbn.
  destruct (db_error env (clock w)); [reflexivity |].
  match goal with |- context [match ?s !! tx_id r with _ => _ end] =>
    destruct (s !! tx_id r) end; reflexivity.
Qed.

Lemma blind_update env p id : cursorBlind (supabase_update env p id).
Proof.
  intros c w. unfold supabase_update, arrive; cbn.
  destruct (db_error env (clock w)); reflexivity.
Qed.

Create HintDb blind.
#[local] Hint Resolve blind_ret blind_throw blind_emit blind_rpc blind_attempt
  blind_select blind_insert blind_update : blind.

(** Applies the closure lemmas through binds, handlers and case splits. *)
Ltac blind_step :=
  first
    [ solve [eauto with blind]
    | apply blind_bind; [| intros ?]
    | apply blind_tryCatch; [| intros ?]
    | apply blind_forEach; intros ?
    | apply blind_queryLoop; intros ? ?
    | match goal with
      | |- cursorBlind (match ?x with _ => _ end) => destruct x
      | |- cursorBlind (if ?x then _ else _) => destruct x
      end ].

Ltac blind := repeat blind_step.

Lemma blind_processRefund env ev : cursorBlind (processRefund env ev).
Proof. unfold processRefund, consoleError. blind. Qed.

Lemma blind_processBridgeEventWith env onPending afterEvent ev :
  (forall e, cursorBlind (onPending e)) -> cursorBlind afterEvent ->
  cursorBlind (processBridgeEventWith env onPending afterEvent ev).
Proof.
  intros Hp Ha. unfold processBridgeEventWith, getTransfer, consoleError. blind.
Qed.

Lemma payoutLoop_step env event st :
  Unified.payoutLoop env event st =
  if (Unified.retryCount st <? Unified.maxRetries) && negb (Unified.payoutSuccess st) then
    sent <- attempt (rpc (L1Payout (bi_transferId event) (bi_user event)
                                   (bi_bridgedAmount event))
                         "payout" (eth_payout env)) ;;
    match sent with
    | Throw _ =>
        Unified.payoutFailed (Unified.retryCount st + 1) ;;
        Unified.payoutLoop env event
          {| Unified.retryCount := Unified.retryCount st + 1;
             Unified.payoutSuccess := Unified.payoutSuccess st;
             Unified.payoutTx := Unified.payoutTx st |}
    | Ok tx =>
        receipt <- attempt (rpc (L1Wait tx) "wait" (eth_payoutWait env)) ;;
        match receipt with
        | Throw _ =>
            Unified.payoutFailed (Unified.retryCount st + 1) ;;
            Unified.payoutLoop env event
              {| Unified.retryCount := Unified.retryCount st + 1;
                 Unified.payoutSuccess := Unified.payoutSuccess st;
                 Unified.payoutTx :=
                   Some {| Unified.hash := tx; Unified.blockNumber := None |} |}
        | Ok receiptBlockNumber =>
            Unified.payoutLoop env event
              {| Unified.retryCount := Unified.retryCount st;
                 Unified.payoutSuccess := true;
                 Unified.payoutTx :=
                   Some {| Unified.hash := tx;
                           Unified.blockNumber := Some receiptBlockNumber |} |}
        end
    end
  else ret st.
Proof.
  funelim (Unified.payoutLoop env event st);
    match goal with H : (_ && _) = _ |- _ => rewrite H end; reflexivity.
Qed.

Lemma blind_payoutFailed n : cursorBlind (Unified.payoutFailed n).
Proof. unfold Unified.payoutFailed, consoleError, sleep. blind. Qed.

Lemma retryMeasure_failed st tx :
  retrying st = true ->
  (retryMeasure {| Unified.retryCount := Unified.retryCount st + 1;
                   Unified.payoutSuccess := Unified.payoutSuccess st;
                   Unified.payoutTx := tx |} < retryMeasure st)%nat.
Proof.
  unfold retrying, retryMeasure, Unified.maxRetries; cbn. intros H.
  apply andb_prop in H as [Hlt Hs]. apply negb_true_iff in Hs. rewrite Hs. lia.
Qed.

Lemma retryMeasure_confirmed st tx :
  retrying st = true ->
  (retryMeasure {| Unified.retryCount := Unified.retryCount st;
                   Unified.payoutSuccess := true;
                   Unified.payoutTx := tx |} < retryMeasure st)%nat.
Proof.
  unfold retrying, retryMeasure, Unified.maxRetries; cbn. intros H.
  apply andb_prop in H as [Hlt Hs]. apply negb_true_iff in Hs. rewrite Hs. lia.
Qed.

Lemma blind_payoutLoop env event st : cursorBlind (Unified.payoutLoop env event st).
Proof.
  remember (retryMeasure st) as n eqn:Hn.
  revert st Hn. induction n as [n IH] using lt_wf_ind. intros st ->.
  rewrite payoutLoop_step. fold (retrying st).
  destruct (retrying st) eqn:Hc; [| apply blind_ret].
  apply blind_bind; [auto with blind |]. intros [tx | e].
  - apply blind_bind; [auto with blind |]. intros [b | e].
    + eapply IH; [apply retryMeasure_confirmed, Hc | reflexivity].
    + apply blind_bind; [apply blind_payoutFailed |]. intros _.
      eapply IH; [apply retryMeasure_failed, Hc | reflexivity].
  - apply blind_bind; [apply blind_payoutFailed |]. intros _.
    eapply IH; [apply retryMeasure_failed, Hc | reflexivity].
Qed.

Lemma blind_signMessage cfg id user amount contract :
  cursorBlind (Unified.signMessage cfg id user amount contract).
Proof. unfold Unified.signMessage, consoleError. blind. Qed.

Lemma blind_callCompleteOnL2 env id user amount signature :
  cursorBlind (Unified.callCompleteOnL2 env id user amount signature).
Proof. unfold Unified.callCompleteOnL2, consoleError. blind. Qed.

Lemma blind_updateSupabaseComplete env id b h s :
  cursorBlind (Unified.updateSupabaseComplete env id b h s).
Proof. unfold Unified.updateSupabaseComplete, consoleError. blind. Qed.

Lemma blind_processPayoutCompletion cfg env id user amount b :
  cursorBlind (Unified.processPayoutCompletion cfg env id user amount b).
Proof.
  unfold Unified.processPayoutCompletion, getTransfer, consoleError.
  pose proof (blind_signMessage cfg). pose proof (blind_callCompleteOnL2 env).
  pose proof (blind_updateSupabaseComplete env). blind.
Qed.

Lemma blind_payoutAndComplete cfg env ev :
  cursorBlind (Unified.payoutAndComplete cfg env ev).
Proof.
  unfold Unified.payoutAndComplete, consoleError.
  pose proof (blind_payoutLoop env). pose proof (blind_processPayoutCompletion cfg env).
  blind.
Qed.

Lemma blind_unified_processBridgeEvent cfg env ev :
  cursorBlind (Unified.processBridgeEvent cfg env ev).
Proof.
  apply blind_processBridgeEventWith.
  - apply blind_payoutAndComplete.
  - apply blind_emit.
Qed.

Lemma blind_payoutOnce env ev : cursorBlind (Minimal.payoutOnce env ev).
Proof. unfold Minimal.payoutOnce, consoleError. blind. Qed.

Lemma blind_minimal_processBridgeEvent env ev :
  cursorBlind (Minimal.processBridgeEvent env ev).
Proof.
  apply blind_processBridgeEventWith; [apply blind_payoutOnce | apply blind_ret].
Qed.

Lemma blind_minimal_tickBody env : cursorBlind (Minimal.tickBody env).
Proof.
  unfold Minimal.tickBody, getBlockNumber, queryBridgeInitiated, queryRefunded.
  pose proof (blind_minimal_processBridgeEvent env).
  pose proof (blind_processRefund env). blind.
Qed.

Lemma blind_minimal_tick env : cursorBlind (Minimal.tick env).
Proof.
  unfold Minimal.tick, consoleError. pose proof (blind_minimal_tickBody env). blind.
Qed.

(** A computation that ignores the cursor leaves it as it was. *)
Lemma blind_frame {A} (m : M A) w :
  cursorBlind m -> lastCheckedBlock (world (m w)) = lastCheckedBlock w.
Proof.
  intros Hm. specialize (Hm (lastCheckedBlock w) w).
  assert (Hw : setCursor (lastCheckedBlock w) w = w) by (destruct w; reflexivity).
  rewrite Hw in Hm. apply (f_equal (fun o => lastCheckedBlock (world o))) in Hm.
  exact Hm.
Qed.

(** ** The chunked scan *)

Lemma subRanges_empty from cur : cur < from -> subRanges from cur = [].
Proof.
  intros H. unfold subRanges, subRangeCount.
  destruct (from <=? cur) eqn:Hle; [lia |]. reflexivity.
Qed.

Lemma subRanges_step from cur :
  from <= cur ->
  subRanges from cur =
  (from, Z.min (from + 499) cur) :: subRanges (Z.min (from + 499) cur + 1) cur.
Proof.
  intros Hle. unfold subRanges at 1, subRangeCount.
  destruct (from <=? cur) eqn:Hb; [| lia].
  assert (Hn : 0 < (cur - from + 500) / 500)
    by (apply Z.div_str_pos; lia).
  rewrite seqZ_cons by exact Hn. rewrite fmap_cons.
  f_equal; [f_equal; lia |].
  destruct (Z_le_gt_dec cur (from + 499)) as [Hshort | Hlong].
  - (* the whole range fits in one window *)
    rewrite Z.min_r by lia. rewrite subRanges_empty by lia.
    assert (Hone : (cur - from + 500) / 500 = 1)
      by (symmetry; apply (Z.div_unique _ _ 1 (cur - from)); lia).
    rewrite Hone. reflexivity.
  - rewrite Z.min_l by lia. unfold subRanges, subRangeCount.
    destruct (from + 499 + 1 <=? cur) eqn:Hb'; [| lia].
    assert (Hcount : Z.pred ((cur - from + 500) / 500)
                     = (cur - (from + 499 + 1) + 500) / 500).
    { replace (cur - from + 500) with ((cur - (from + 499 + 1) + 500) + 1 * 500) by lia.
      rewrite Z.div_add by lia. lia. }
    rewrite Hcount.
    replace (Z.succ 0) with (1 + 0) by lia.
    rewrite <- fmap_add_seqZ, <- list_fmap_compose.
    apply list_fmap_ext. intros _ i _. cbn. f_equal; [lia | f_equal; lia].
Qed.

Lemma queryLoop_queryAll {E} (q : Z -> Z -> M (list E)) cur from ev w :
  queryLoop q cur from ev w = queryAll q (subRanges from cur) ev w.
Proof.
  remember (Z.to_nat (cur + 1 - from)) as n eqn:Hn.
  revert from ev w Hn. induction n as [n IH] using lt_wf_ind. intros from ev w Hn.
  rewrite queryLoop_step. destruct (from <=? cur) eqn:Hle.
  - rewrite subRanges_step by lia. cbn. unfold bind.
    destruct (res (q from (Z.min (from + 499) cur) w)); [| reflexivity].
    erewrite IH; [reflexivity | | reflexivity]. lia.
  - rewrite subRanges_empty by lia. reflexivity.
Qed.

(** Queries that all succeed return their chunks appended in range order. *)
Lemma queryAll_pure {E} (f : Z -> Z -> list E) ranges ev w :
  queryAll (fun a b => ret (f a b)) ranges ev w =
  ret (ev ++ concat ((fun r => f r.1 r.2) <$> ranges))%list w.
Proof.
  revert ev; induction ranges as [|[a b] rest IH]; intros ev; cbn.
  - rewrite app_nil_r. reflexivity.
  - unfold bind; cbn. rewrite IH. cbn. rewrite <- app_assoc. reflexivity.
Qed.

(** The actions of a scan whose queries all answer: one [QueryFilter] per
    sub-range, in order. *)
Lemma queryAll_emitted {E} kind (logs : nat -> Z -> Z -> option (list E)) ranges ev w :
  (forall n a b, is_Some (logs n a b)) ->
  emitted (queryAll (fun a b => rpc (QueryFilter kind a b) "queryFilter"
                                    (fun n => logs n a b)) ranges ev w)
  = (fun r => QueryFilter kind r.1 r.2) <$> ranges.
Proof.
  intros Hok. revert ev w; induction ranges as [|[a b] rest IH]; intros ev w; cbn.
  - reflexivity.
  - destruct (Hok (clock w) a b) as [l Hl].
    unfold bind. cbn beta zeta.
    replace (rpc (QueryFilter kind a b) "queryFilter" (fun n => logs n a b) w)
      with (mkOut (Ok l) (bump w) [QueryFilter kind a b])
      by (unfold rpc; rewrite Hl; reflexivity).
    cbn. rewrite IH. reflexivity.
Qed.

(** C9.  The scan loop issues exactly the queries of the 500-block
    sub-ranges of the requested range, in ascending block order, and
    appends their results in that order: the loop is [queryAll] over
    [subRanges]; consecutive sub-ranges are adjacent, each holds at most 500
    blocks; a range of exactly 500 blocks is one sub-range and a range of
    501 blocks is two. *)
Theorem scan_in_500_block_windows :
  (forall E (queryFilter : Z -> Z -> M (list E)) currentBlock fromBlock events w,
      queryLoop queryFilter currentBlock fromBlock events w
      = queryAll queryFilter (subRanges fromBlock currentBlock) events w) /\
  (forall E (f : Z -> Z -> list E) currentBlock fromBlock w,
      res (queryLoop (fun a b => ret (f a b)) currentBlock fromBlock [] w)
      = Ok (concat ((fun r => f r.1 r.2) <$> subRanges fromBlock currentBlock))) /\
  (forall fromBlock toBlock (i : nat) a b,
      subRanges fromBlock toBlock !! i = Some (a, b) ->
      a = fromBlock + 500 * Z.of_nat i /\ a <= b <= toBlock /\ b - a + 1 <= 500 /\
      (b < toBlock -> b - a + 1 = 500 /\
                      subRanges fromBlock toBlock !! S i
                      = Some (b + 1, Z.min (b + 500) toBlock))) /\
  (forall fromBlock, subRanges fromBlock (fromBlock + 499)
                     = [(fromBlock, fromBlock + 499)]) /\
  (forall fromBlock, subRanges fromBlock (fromBlock + 500)
                     = [(fromBlock, fromBlock + 499); (fromBlock + 500, fromBlock + 500)]).
Proof.
  split; [intros; apply queryLoop_queryAll |].
  split; [intros; rewrite queryLoop_queryAll, queryAll_pure; reflexivity |].
  split; [| split].
  - intros from to i a b. unfold subRanges, subRangeCount.
    rewrite list_lookup_fmap.
    destruct (from <=? to) eqn:Hle; [| rewrite seqZ_nil by lia; discriminate].
    destruct (seqZ 0 ((to - from + 500) / 500) !! i) as [j|] eqn:Hj; [| discriminate].
    apply lookup_seqZ in Hj as [-> Hlt]. cbn. intros [= <- <-].
    assert (Hdiv : 500 * ((to - from + 500) / 500) <= to - from + 500)
      by (apply Z.mul_div_le; lia).
    assert (Hdiv' : to - from + 500 < 500 * ((to - from + 500) / 500) + 500).
    { pose proof (Z.mod_pos_bound (to - from + 500) 500 ltac:(lia)).
      pose proof (Z.div_mod (to - from + 500) 500 ltac:(lia)). lia. }
    split; [lia |]. split; [lia |]. split; [lia |].
    intros Hlast. split; [lia |]. rewrite list_lookup_fmap.
    rewrite (lookup_seqZ_lt 0 _ (S i)) by lia. cbn.
    f_equal. f_equal; lia.
  - intros from. rewrite subRanges_step by lia.
    rewrite Z.min_r by lia. rewrite subRanges_empty by lia.
    replace (from + 499) with (from + 499) by lia. reflexivity.
  - intros from. rewrite subRanges_step by lia. rewrite Z.min_l by lia.
    rewrite subRanges_step by lia. rewrite Z.min_r by lia.
    rewrite subRanges_empty by lia.
    replace (from + 499 + 1) with (from + 500) by lia. reflexivity.
Qed.

(** ** Running binds *)

Lemma bind_ok {A B} (m : M A) (k : A -> M B) w a :
  res (m w) = Ok a ->
  bind m k w = mkOut (res (k a (world (m w)))) (world (k a (world (m w))))
                     (emitted (m w) ++ emitted (k a (world (m w)))).
Proof. intros H. unfold bind. cbn beta zeta. rewrite H. reflexivity. Qed.

Lemma bind_thrown {A B} (m : M A) (k : A -> M B) w e :
  res (m w) = Throw e ->
  bind m k w = mkOut (Throw e) (world (m w)) (emitted (m w)).
Proof. intros H. unfold bind. cbn beta zeta. rewrite H. reflexivity. Qed.

Lemma tryCatch_emitted {A} (m : M A) h w :
  exists rest, emitted (tryCatch m h w) = emitted (m w) ++ rest.
Proof.
  unfold tryCatch. cbn beta zeta. destruct (res (m w)).
  - exists []. rewrite app_nil_r. reflexivity.
  - eexists. reflexivity.
Qed.

Lemma out_eta {A} (o : Out A) : o = mkOut (res o) (world o) (emitted o).
Proof. destruct o; reflexivity. Qed.

Lemma queryAll_answers {E} kind (logs : nat -> Z -> Z -> option (list E)) ranges ev w :
  (forall n a b, is_Some (logs n a b)) ->
  exists l, res (queryAll (fun a b => rpc (QueryFilter kind a b) "queryFilter"
                                          (fun n => logs n a b)) ranges ev w) = Ok l.
Proof.
  intros Hok. revert ev w; induction ranges as [|[a b] rest IH]; intros ev w; cbn.
  - eexists; reflexivity.
  - destruct (Hok (clock w) a b) as [l Hl].
    unfold bind. cbn beta zeta.
    replace (rpc (QueryFilter kind a b) "queryFilter" (fun n => logs n a b) w)
      with (mkOut (Ok l) (bump w) [QueryFilter kind a b])
      by (unfold rpc; rewrite Hl; reflexivity).
    cbn. apply IH.
Qed.

(** ** The cursor of the unified variant *)

Lemma blind_scanBridge env cur from ev :
  cursorBlind (queryLoop (queryBridgeInitiated env) cur from ev).
Proof. apply blind_queryLoop. intros a b. apply blind_rpc. Qed.

Lemma blind_scanRefund env cur from ev :
  cursorBlind (queryLoop (queryRefunded env) cur from ev).
Proof. apply blind_queryLoop. intros a b. apply blind_rpc. Qed.

Lemma blind_bridgeLoop cfg env evs :
  cursorBlind (forEach (Unified.processBridgeEvent cfg env) evs).
Proof. apply blind_forEach. intros ev. apply blind_unified_processBridgeEvent. Qed.

Lemma blind_refundLoop env evs : cursorBlind (forEach (processRefund env) evs).
Proof. apply blind_forEach. intros ev. apply blind_processRefund. Qed.

Lemma returned_Ok {A} (o : Out A) : returned o <-> exists a, res o = Ok a.
Proof.
  unfold returned. destruct (res o); split; try (intros; exact I); eauto.
  - intros []. - intros [a H]; discriminate.
Qed.

Lemma bind_getLast {B} (k : Z -> M B) w :
  bind getLastCheckedBlock k w = k (lastCheckedBlock w) w.
Proof. unfold bind, getLastCheckedBlock; cbn. destruct (k _ w); reflexivity. Qed.

Lemma unified_tickBody_run cfg env w :
  Unified.tickBody cfg env w =
  match eth_blockNumber env (clock w) with
  | None => mkOut (Throw (RpcError "getBlockNumber")) (bump w) [GetBlockNumber]
  | Some head =>
      if head <=? lastCheckedBlock w then mkOut (Ok tt) (bump w) [GetBlockNumber]
      else let o := scanAndProcess cfg env head (bump w) in
           mkOut (res o) (world o) (GetBlockNumber :: emitted o)
  end.
Proof.
  unfold Unified.tickBody.
  destruct (eth_blockNumber env (clock w)) as [head|] eqn:Hh.
  - assert (Hg : getBlockNumber env w = mkOut (Ok head) (bump w) [GetBlockNumber])
      by (unfold getBlockNumber, rpc; rewrite Hh; reflexivity).
    rewrite (bind_ok _ _ w head) by (rewrite Hg; reflexivity).
    rewrite Hg. cbn [res world emitted]. rewrite bind_getLast.
    cbn [lastCheckedBlock bump].
    destruct (head <=? lastCheckedBlock w); reflexivity.
  - assert (Hg : getBlockNumber env w
                 = mkOut (Throw (RpcError "getBlockNumber")) (bump w) [GetBlockNumber])
      by (unfold getBlockNumber, rpc; rewrite Hh; reflexivity).
    rewrite (bind_thrown _ _ w (RpcError "getBlockNumber")) by (rewrite Hg; reflexivity).
    rewrite Hg. reflexivity.
Qed.

(** The four phases of [scanAndProcess] from a world [w0] whose cursor is
    [cursor]: either one of them throws and the cursor is untouched, or all
    return and the cursor is set in the world the last one left. *)
Lemma scanAndProcess_run cfg env head w0 :
  let cursor := lastCheckedBlock w0 in
  let s1 := queryLoop (queryBridgeInitiated env) head (cursor + 1) [] w0 in
  let s2 := queryLoop (queryRefunded env) head (cursor + 1) [] (world s1) in
  let o := scanAndProcess cfg env head w0 in
  match res s1 with
  | Throw e => o = mkOut (Throw e) (world s1) (emitted s1)
  | Ok bev =>
      match res s2 with
      | Throw e => o = mkOut (Throw e) (world s2) (emitted s1 ++ emitted s2)
      | Ok rev =>
          let p1 := forEach (Unified.processBridgeEvent cfg env) bev (world s2) in
          let p2 := forEach (processRefund env) rev (world p1) in
          match res p1 with
          | Throw e => o = mkOut (Throw e) (world p1)
                                 (emitted s1 ++ emitted s2 ++ emitted p1)
          | Ok _ =>
              match res p2 with
              | Throw e => o = mkOut (Throw e) (world p2)
                                     (emitted s1 ++ emitted s2 ++ emitted p1 ++ emitted p2)
              | Ok _ => o = mkOut (Ok tt) (setCursor head (world p2))
                                  (emitted s1 ++ emitted s2 ++ emitted p1 ++ emitted p2)
              end
          end
      end
  end.
Proof.
  intros cursor s1 s2 o. subst o. unfold scanAndProcess.
  rewrite bind_getLast. fold cursor. fold s1.
  assert (Hc1 : lastCheckedBlock (world s1) = cursor)
    by (apply blind_frame, blind_scanBridge).
  destruct (res s1) as [bev|e] eqn:Hs1.
  2:{ rewrite (bind_thrown _ _ w0 e) by exact Hs1. reflexivity. }
  rewrite (bind_ok _ _ w0 bev) by exact Hs1. fold s1.
  rewrite bind_getLast. rewrite Hc1. fold s2.
  destruct (res s2) as [rev|e] eqn:Hs2.
  2:{ rewrite (bind_thrown _ _ (world s1) e) by exact Hs2. fold s2. cbn.
      reflexivity. }
  rewrite (bind_ok _ _ (world s1) rev) by exact Hs2. fold s2. cbn [res world emitted].
  cbv zeta.
  set (p1 := forEach (Unified.processBridgeEvent cfg env) bev (world s2)).
  set (p2 := forEach (processRefund env) rev (world p1)).
  destruct (res p1) as [[]|e] eqn:Hp1.
  2:{ rewrite (bind_thrown _ _ (world s2) e) by exact Hp1. fold p1. cbn.
      reflexivity. }
  rewrite (bind_ok _ _ (world s2) tt) by exact Hp1. fold p1. cbn [res world emitted].
  destruct (res p2) as [[]|e] eqn:Hp2.
  2:{ rewrite (bind_thrown _ _ (world p1) e) by exact Hp2. fold p2. cbn.
      reflexivity. }
  rewrite (bind_ok _ _ (world p1) tt) by exact Hp2. fold p2. cbn.
  rewrite app_nil_r. reflexivity.
Qed.

(** C3.  One tick of the unified variant.  The callback itself never
    throws.  If the body throws (head read, scan or event processing), the
    cursor is left as it was.  If the body returns, either the head was at
    or below the cursor and nothing moved, or both scans answered, the body
    of the loop ran and returned for every initiation event and every refund
    event of the scanned range, the cursor was still the old one in the
    world these runs left, and the tick ends in that world with the cursor
    set to the head. *)
Theorem cursor_advances_after_whole_range cfg env w :
  let cursor := lastCheckedBlock w in
  let body := Unified.tickBody cfg env w in
  let o := Unified.tick cfg env w in
  res o = Ok tt /\
  match res body with
  | Throw _ => lastCheckedBlock (world o) = cursor
  | Ok _ =>
      exists head,
        eth_blockNumber env (clock w) = Some head /\
        ((head <= cursor /\ lastCheckedBlock (world o) = cursor) \/
         (cursor < head /\
          exists bev rev,
            let s1 := queryLoop (queryBridgeInitiated env) head (cursor + 1) [] (bump w) in
            let s2 := queryLoop (queryRefunded env) head (cursor + 1) [] (world s1) in
            let p1 := forEach (Unified.processBridgeEvent cfg env) bev (world s2) in
            let p2 := forEach (processRefund env) rev (world p1) in
            res s1 = Ok bev /\ res s2 = Ok rev /\
            length (runs (Unified.processBridgeEvent cfg env) bev (world s2)) = length bev /\
            Forall returned (runs (Unified.processBridgeEvent cfg env) bev (world s2)) /\
            length (runs (processRefund env) rev (world p1)) = length rev /\
            Forall returned (runs (processRefund env) rev (world p1)) /\
            lastCheckedBlock (world p2) = cursor /\
            world o = setCursor head (world p2) /\
            emitted o = GetBlockNumber
                          :: emitted s1 ++ emitted s2 ++ emitted p1 ++ emitted p2))
  end.
Proof.
  intros cursor body o. subst body o. unfold Unified.tick, tryCatch. cbn beta zeta.
  rewrite unified_tickBody_run.
  destruct (eth_blockNumber env (clock w)) as [head|] eqn:Hh;
    [| cbn; split; reflexivity].
  destruct (head <=? lastCheckedBlock w) eqn:Hle.
  { cbn. split; [reflexivity |]. exists head. split; [reflexivity |]. left.
    split; [lia | reflexivity]. }
  cbv zeta. cbn [res world emitted].
  pose proof (scanAndProcess_run cfg env head (bump w)) as Hrun. cbv zeta in Hrun.
  change (lastCheckedBlock (bump w)) with cursor in Hrun.
  set (s1 := queryLoop (queryBridgeInitiated env) head (cursor + 1) [] (bump w)) in *.
  set (s2 := queryLoop (queryRefunded env) head (cursor + 1) [] (world s1)) in *.
  assert (Hc1 : lastCheckedBlock (world s1) = cursor)
    by (unfold s1; rewrite blind_frame by apply blind_scanBridge; reflexivity).
  assert (Hc2 : lastCheckedBlock (world s2) = cursor)
    by (unfold s2; rewrite blind_frame by apply blind_scanRefund; exact Hc1).
  destruct (res s1) as [bev|e] eqn:Hs1; [| rewrite Hrun; cbn; split; [reflexivity | exact Hc1]].
  destruct (res s2) as [rev|e] eqn:Hs2; [| rewrite Hrun; cbn; split; [reflexivity | exact Hc2]].
  set (p1 := forEach (Unified.processBridgeEvent cfg env) bev (world s2)) in *.
  set (p2 := forEach (processRefund env) rev (world p1)) in *.
  assert (Hc3 : lastCheckedBlock (world p1) = cursor)
    by (unfold p1; rewrite blind_frame by apply blind_bridgeLoop; exact Hc2).
  assert (Hc4 : lastCheckedBlock (world p2) = cursor)
    by (unfold p2; rewrite blind_frame by apply blind_refundLoop; exact Hc3).
  destruct (res p1) as [[]|e] eqn:Hp1; [| rewrite Hrun; cbn; split; [reflexivity | exact Hc3]].
  destruct (res p2) as [[]|e] eqn:Hp2; [| rewrite Hrun; cbn; split; [reflexivity | exact Hc4]].
  rewrite Hrun. cbn. split; [reflexivity |].
  exists head. split; [reflexivity |]. right. split; [lia |].
  exists bev, rev.
  assert (Hr1 : returned p1) by (unfold returned; rewrite Hp1; exact I).
  assert (Hr2 : returned p2) by (unfold returned; rewrite Hp2; exact I).
  apply forEach_returned in Hr1 as [Hl1 Hf1]. apply forEach_returned in Hr2 as [Hl2 Hf2].
  repeat split; assumption.
Qed.

(** ** The payout retry loop *)

Lemma bind_attempt {A B} (m : M A) (k : Result A -> M B) w :
  bind (attempt m) k w = prepend (emitted (m w)) (k (res (m w)) (world (m w))).
Proof. reflexivity. Qed.

Lemma rpc_run {A} a method (answer : nat -> option A) w :
  rpc a method answer w =
  mkOut (match answer (clock w) with Some v => Ok v | None => Throw (RpcError method) end)
        (bump w) [a].
Proof. unfold rpc. destruct (answer (clock w)); reflexivity. Qed.

Lemma bind_unit_run {B} (m : M unit) (k : unit -> M B) w t :
  m w = mkOut (Ok tt) w t -> bind m k w = prepend t (k tt w).
Proof. intros H. unfold bind, prepend. cbn beta zeta. rewrite H. reflexivity. Qed.

Lemma prepend_prepend {A} t1 t2 (o : Out A) :
  prepend t1 (prepend t2 o) = prepend (t1 ++ t2) o.
Proof. unfold prepend; cbn. rewrite app_assoc. reflexivity. Qed.

Lemma payoutFailed_run n w :
  Unified.payoutFailed n w = mkOut (Ok tt) w (failTrace n).
Proof.
  unfold Unified.payoutFailed, failTrace, consoleError, sleep, emit, bind. cbn.
  destruct (n <? Unified.maxRetries); reflexivity.
Qed.

Lemma payoutLoop_done env ev st w :
  retrying st = false -> Unified.payoutLoop env ev st w = mkOut (Ok st) w [].
Proof. intros H. rewrite payoutLoop_step. fold (retrying st). rewrite H. reflexivity. Qed.

Lemma payoutLoop_iter env ev st w :
  retrying st = true ->
  Unified.payoutLoop env ev st w =
  match eth_payout env (clock w) with
  | None =>
      prepend (payAction ev :: failTrace (Unified.retryCount st + 1))
              (Unified.payoutLoop env ev (failedState st (Unified.payoutTx st)) (bump w))
  | Some tx =>
      match eth_payoutWait env (S (clock w)) with
      | None =>
          prepend (payAction ev :: L1Wait tx :: failTrace (Unified.retryCount st + 1))
                  (Unified.payoutLoop env ev
                     (failedState st (Some {| Unified.hash := tx;
                                              Unified.blockNumber := None |}))
                     (bump (bump w)))
      | Some b =>
          prepend [payAction ev; L1Wait tx]
                  (Unified.payoutLoop env ev (confirmedState st tx b) (bump (bump w)))
      end
  end.
Proof.
  intros H. rewrite payoutLoop_step. fold (retrying st). rewrite H.
  rewrite bind_attempt, rpc_run. cbn [res world emitted].
  destruct (eth_payout env (clock w)) as [tx|].
  - rewrite bind_attempt, rpc_run. cbn [res world emitted clock bump].
    destruct (eth_payoutWait env (S (clock w))) as [b|].
    + rewrite prepend_prepend. reflexivity.
    + rewrite (bind_unit_run _ _ _ _ (payoutFailed_run _ _)).
      rewrite !prepend_prepend. reflexivity.
  - rewrite (bind_unit_run _ _ _ _ (payoutFailed_run _ _)).
    rewrite !prepend_prepend. reflexivity.
Qed.

Lemma payoutAndComplete_after_failure cfg env ev w st :
  res (Unified.payoutLoop env ev st0 w) = Ok st ->
  Unified.payoutSuccess st = false ->
  Unified.payoutAndComplete cfg env ev w
  = mkOut (Ok tt) (world (Unified.payoutLoop env ev st0 w))
          (emitted (Unified.payoutLoop env ev st0 w)).
Proof.
  intros Hres Hs. unfold Unified.payoutAndComplete.
  rewrite (bind_ok _ _ w st) by exact Hres. rewrite Hs. cbn.
  rewrite app_nil_r. reflexivity.
Qed.

(** Unrolls the payout loop along every answer of the destination chain. *)
Ltac unroll_payoutLoop :=
  repeat match goal with
    | |- context [Unified.payoutLoop ?env ?ev ?st ?w] =>
        first [ rewrite (payoutLoop_done env ev st w) by reflexivity
              | rewrite (payoutLoop_iter env ev st w) by reflexivity ]
    | |- context [match eth_payout ?env ?n with _ => _ end] =>
        destruct (eth_payout env n)
    | |- context [match eth_payoutWait ?env ?n with _ => _ end] =>
        destruct (eth_payoutWait env n)
    end.

(** Finds the attempts of a trace that is written out. *)
Ltac find_attempts ev :=
  lazymatch goal with
  | |- exists a, isAttempt _ a /\ _ =>
      first [ solve [exists [payAction ev]; split; [left; reflexivity | find_attempts ev]]
            | solve [eexists; split; [right; eexists; reflexivity | find_attempts ev]] ]
  | |- _ \/ _ =>
      first [ solve [left; repeat split; reflexivity]
            | solve [right; find_attempts ev]
            | solve [right; repeat split;
                     first [reflexivity
                           | match goal with H : _ |- _ => eapply H; reflexivity end]] ]
  end.

(** C2.  The payout loop of one transfer returns, having made one, two or
    three attempts.  A failed first attempt is followed by a wait of 2000 ms
    and a failed second one by a wait of 4000 ms; a failed third attempt is
    followed by no wait but by the "all attempts failed" message, the loop
    ends with [payoutSuccess = false], and the payout step does nothing more
    for this transfer.  No other delay occurs (8000 ms is never waited). *)
Theorem payout_retry_policy cfg env ev w :
  let o := Unified.payoutLoop env ev st0 w in
  exists st,
    res o = Ok st /\
    (payouts (emitted o) <= 3)%nat /\
    delays (emitted o) = take (payouts (emitted o) - 1) [2000; 4000] /\
    exists a1, isAttempt ev a1 /\
      ((emitted o = a1 /\ Unified.payoutSuccess st = true) \/
       exists a2, isAttempt ev a2 /\
         ((emitted o = a1 ++ failLog :: SetTimeout 2000 :: a2
           /\ Unified.payoutSuccess st = true) \/
          exists a3, isAttempt ev a3 /\
            ((emitted o = a1 ++ failLog :: SetTimeout 2000 :: a2
                             ++ failLog :: SetTimeout 4000 :: a3
              /\ Unified.payoutSuccess st = true) \/
             (emitted o = a1 ++ failLog :: SetTimeout 2000 :: a2
                             ++ failLog :: SetTimeout 4000 :: a3
                             ++ [failLog; allFailedLog]
              /\ Unified.payoutSuccess st = false
              /\ Unified.payoutAndComplete cfg env ev w
                 = mkOut (Ok tt) (world o) (emitted o))))).
Proof.
  intros o. subst o.
  pose proof (payoutAndComplete_after_failure cfg env ev w) as Hfail.
  revert Hfail. unroll_payoutLoop; intros Hfail;
    (eexists; split; [reflexivity |]; split; [vm_compute; lia |];
     split; [vm_compute; reflexivity |]);
    find_attempts ev.
Qed.

(** ** The record store *)

Lemma arrive_lookup_Some env w id r :
  store w !! id = Some r -> arrive env w !! id = Some r.
Proof.
  intros H. unfold arrive.
  destruct (db_concurrent env (clock w)) as [r'|]; [| exact H].
  destruct (store w !! tx_id r') eqn:Hr'; [exact H |].
  rewrite lookup_insert_ne; [exact H |]. intros Heq. rewrite Heq in Hr'. congruence.
Qed.

Lemma arrive_is_Some env w id :
  is_Some (store w !! id) -> is_Some (arrive env w !! id).
Proof. intros [r H]. exists r. apply arrive_lookup_Some, H. Qed.

(** ** Refund events *)

Lemma processRefund_run env ev w :
  processRefund env ev w =
  match db_error env (clock w) with
  | Some _ =>
      mkOut (Ok tt) (bump (withStore (arrive env w) w))
            [DbUpdate (rf_transferId ev) refundedPatch false;
             ConsoleError "Supabase update error for refund:"]
  | None =>
      mkOut (Ok tt)
            (bump (withStore
                     (match arrive env w !! rf_transferId ev with
                      | Some r => <[rf_transferId ev := applyPatch refundedPatch r]>
                                    (arrive env w)
                      | None => arrive env w
                      end) w))
            [DbUpdate (rf_transferId ev) refundedPatch true]
  end.
Proof.
  unfold processRefund, bind, supabase_update. cbn beta zeta.
  destruct (db_error env (clock w)); reflexivity.
Qed.

(** C7.  A refund event is handled by one call, the update of the row's
    status to [refunded]: nothing is read first, neither the record store
    nor the chain, so no existence check and no status guard can stop it.
    When the store accepts the update, a row with this identifier ends with
    status [refunded] whatever its status was, and its other columns are
    kept.  The body never throws. *)
Theorem refund_is_unconditional env ev w :
  let id := rf_transferId ev in
  let o := processRefund env ev w in
  res o = Ok tt /\
  emitted o = match db_error env (clock w) with
              | None => [DbUpdate id refundedPatch true]
              | Some _ => [DbUpdate id refundedPatch false;
                           ConsoleError "Supabase update error for refund:"]
              end /\
  p_status refundedPatch = Some "refunded" /\
  (db_error env (clock w) = None ->
   forall r, store w !! id = Some r ->
     store (world o) !! id
     = Some {| tx_id := tx_id r; address := address r;
               bridged_amount := bridged_amount r; status := "refunded";
               block_number := block_number r; timestamp := timestamp r;
               l1_block_number := l1_block_number r;
               signature1 := signature1 r |}).
Proof.
  intros id o. subst o. rewrite processRefund_run.
  destruct (db_error env (clock w)) as [e|] eqn:He.
  - split; [reflexivity |]. split; [reflexivity |].
    split; [reflexivity |]. discriminate.
  - split; [reflexivity |]. split; [reflexivity |].
    split; [reflexivity |]. intros _ r Hr. cbn.
    fold id. rewrite (arrive_lookup_Some env w id r Hr).
    rewrite lookup_insert_eq. reflexivity.
Qed.

(** ** The completion step *)

Lemma bind_run_ok {A B} (m : M A) (k : A -> M B) w a w' t :
  m w = mkOut (Ok a) w' t -> bind m k w = prepend t (k a w').
Proof. intros H. unfold bind, prepend. cbn beta zeta. rewrite H. reflexivity. Qed.

Lemma bind_run_thrown {A B} (m : M A) (k : A -> M B) w e w' t :
  m w = mkOut (Throw e) w' t -> bind m k w = mkOut (Throw e) w' t.
Proof. intros H. unfold bind. cbn beta zeta. rewrite H. reflexivity. Qed.

Lemma tryCatch_run_ok {A} (m : M A) h w a w' t :
  m w = mkOut (Ok a) w' t -> tryCatch m h w = mkOut (Ok a) w' t.
Proof. intros H. unfold tryCatch. cbn beta zeta. rewrite H. reflexivity. Qed.

Lemma tryCatch_run_thrown {A} (m : M A) h w e w' t :
  m w = mkOut (Throw e) w' t -> tryCatch m h w = prepend t (h e w').
Proof. intros H. unfold tryCatch, prepend. cbn beta zeta. rewrite H. reflexivity. Qed.

Lemma getTransfer_run env id w :
  getTransfer env id w =
  mkOut (match eth_getTransfer env (clock w) id with
         | Some t => Ok t
         | None => Throw (RpcError "getTransfer")
         end) (bump w) [GetTransfer id].
Proof. unfold getTransfer. apply rpc_run. Qed.

Lemma signMessage_run cfg id user amount contract w :
  Unified.signMessage cfg id user amount contract w =
  match Unified.digestInput id user amount contract with
  | Some packed =>
      mkOut (Ok (wallet_signMessage cfg (SIGNER_KEY cfg) (keccak256 cfg packed))) w
            [SignMessage (keccak256 cfg packed)]
  | None =>
      mkOut (Throw (InvalidArgument "solidityPacked")) w
            [ConsoleError "Error signing message:"]
  end.
Proof.
  unfold Unified.signMessage.
  destruct (Unified.digestInput id user amount contract); reflexivity.
Qed.

Lemma callCompleteOnL2_run env id user amount signature w :
  Unified.callCompleteOnL2 env id user amount signature w =
  let call := L2Complete id [signature] [AUTHORIZED_SIGNER] in
  match eth_complete env (clock w) with
  | None => mkOut (Throw (RpcError "complete")) (bump w)
                  [call; ConsoleError "Error calling complete on L2:"]
  | Some tx =>
      match eth_completeWait env (S (clock w)) with
      | None => mkOut (Throw (RpcError "wait")) (bump (bump w))
                      [call; L2Wait tx; ConsoleError "Error calling complete on L2:"]
      | Some _ => mkOut (Ok tx) (bump (bump w)) [call; L2Wait tx]
      end
  end.
Proof.
  unfold Unified.callCompleteOnL2, tryCatch, bind, rpc. cbn.
  destruct (eth_complete env (clock w)) as [tx|]; cbn; [| reflexivity].
  destruct (eth_completeWait env (S (clock w))); reflexivity.
Qed.

Lemma updateSupabaseComplete_run env id b h signature w :
  Unified.updateSupabaseComplete env id b h signature w =
  let p := Unified.completedPatch b signature in
  match db_error env (clock w) with
  | Some e =>
      mkOut (Throw (DbError e)) (bump (withStore (arrive env w) w))
            [DbUpdate id p false;
             ConsoleError "Error updating Supabase completion data:";
             ConsoleError "Error updating Supabase completion data:"]
  | None =>
      mkOut (Ok tt)
            (bump (withStore
                     (match arrive env w !! id with
                      | Some r => <[id := applyPatch p r]> (arrive env w)
                      | None => arrive env w
                      end) w))
            [DbUpdate id p true]
  end.
Proof.
  unfold Unified.updateSupabaseComplete, tryCatch, bind, supabase_update. cbn beta zeta.
  destruct (db_error env (clock w)); reflexivity.
Qed.

Lemma processPayoutCompletion_parts cfg env id user amount blk :
  Unified.processPayoutCompletion cfg env id user amount blk =
  tryCatch
    (transfer <- getTransfer env id ;;
     signature <- Unified.signMessage cfg id (t_user transfer) (t_bridgedAmount transfer)
                                      (L2_ADDRESS cfg) ;;
     completionGuarded env id user amount blk signature)
    completionHandler.
Proof. reflexivity. Qed.

Lemma completionHandler_run e w :
  completionHandler e w =
  mkOut (Ok tt) w [ConsoleError "Error processing payout completion:";
                   ConsoleError "Error details:"; ConsoleError "Error stack:"].
Proof. reflexivity. Qed.

(** When the second read shows a status other than Pending, the guarded
    part returns after that read. *)
Lemma completionGuarded_skips env id user amount blk signature w t2 :
  eth_getTransfer env (clock w) id = Some t2 ->
  isStatus 0 (t_status t2) = false ->
  completionGuarded env id user amount blk signature w
  = mkOut (Ok tt) (bump w) [GetTransfer id].
Proof.
  intros Ht2 Hst. unfold completionGuarded.
  rewrite (bind_run_ok _ _ w t2 (bump w) [GetTransfer id])
    by (rewrite getTransfer_run, Ht2; reflexivity).
  unfold isStatus in Hst. apply orb_false_elim in Hst as [Hb Hn].
  rewrite Hb, Hn. cbn [negb andb].
  destruct (isStatus 1 (t_status t2)); [reflexivity |].
  destruct (isStatus 2 (t_status t2)); reflexivity.
Qed.

(** C8.  When the completion step reaches its guard (the transfer was read
    and the message signed) and the second read returns a status other than
    Pending (Completed, Refunded or any other value), the step returns
    normally: it has made the two reads and the signature and nothing else,
    so no [complete] call, no store write and no error message, and the
    record store is as it was. *)
Theorem completion_guard_skips cfg env id user amount blk w t1 packed t2 :
  eth_getTransfer env (clock w) id = Some t1 ->
  Unified.digestInput id (t_user t1) (t_bridgedAmount t1) (L2_ADDRESS cfg) = Some packed ->
  eth_getTransfer env (S (clock w)) id = Some t2 ->
  isStatus 0 (t_status t2) = false ->
  let o := Unified.processPayoutCompletion cfg env id user amount blk w in
  res o = Ok tt /\
  emitted o = [GetTransfer id; SignMessage (keccak256 cfg packed); GetTransfer id] /\
  filter (fun a => isWrite a = true) (emitted o) = [] /\
  filter (fun a => isConsoleError a = true) (emitted o) = [] /\
  store (world o) = store w.
Proof.
  intros Ht1 Hpacked Ht2 Hst o. subst o.
  rewrite processPayoutCompletion_parts.
  erewrite tryCatch_run_ok.
  2:{ erewrite bind_run_ok by (rewrite getTransfer_run, Ht1; reflexivity).
      erewrite bind_run_ok by (rewrite signMessage_run, Hpacked; reflexivity).
      rewrite (completionGuarded_skips _ _ _ _ _ _ _ t2) by assumption.
      reflexivity. }
  cbn. repeat split; reflexivity.
Qed.

(** ** The signed digest *)

Lemma solidityPacked_Some a b c d packed :
  solidityPacked a b c d = Some packed ->
  exists ab bb db,
    fixedBytes 32 a = Some ab /\ fixedBytes 20 b = Some bb /\
    0 <= c < 2 ^ 256 /\ fixedBytes 20 d = Some db /\
    packed = ab ++ bb ++ bigEndian 32 c ++ db.
Proof.
  unfold solidityPacked, uint256.
  destruct (fixedBytes 32 a) as [ab|]; [| discriminate].
  destruct (fixedBytes 20 b) as [bb|]; [| discriminate].
  destruct ((0 <=? c) && (c <? 2 ^ 256)) eqn:Hc; [| discriminate].
  destruct (fixedBytes 20 d) as [db|]; [| discriminate].
  intros H. apply Some_inj in H. rewrite <- H.
  apply andb_prop in Hc as [H0 H1]. apply Z.leb_le in H0. apply Z.ltb_lt in H1.
  exists ab, bb, db. repeat split; try reflexivity; assumption.
Qed.

Lemma tryCatch_emitted_cases {A} (m : M A) h w :
  emitted (tryCatch m h w)
  = emitted (m w) ++ match res (m w) with
                     | Ok _ => []
                     | Throw e => emitted (h e (world (m w)))
                     end.
Proof.
  unfold tryCatch. cbn beta zeta.
  destruct (res (m w)); [rewrite app_nil_r |]; reflexivity.
Qed.

(** The actions of the guarded part: no signature is made there, and a
    [complete] call carries the signature it was given. *)
Ltac actions_tac :=
  cbn [res world emitted app];
  repeat (apply List.Forall_cons;
          [split; [reflexivity
                  | intros ? ? ? Heq; first [discriminate Heq | inversion Heq; auto]] |]);
  apply List.Forall_nil.

Lemma completionGuarded_actions env id user amount blk signature w :
  Forall (fun a => isSign a = false /\
                   forall id' sigs signers, a = L2Complete id' sigs signers ->
                     id' = id /\ sigs = [signature] /\ signers = [AUTHORIZED_SIGNER])
         (emitted (completionGuarded env id user amount blk signature w)).
Proof.
  unfold completionGuarded, bind. cbn beta zeta. rewrite getTransfer_run.
  cbn [res world emitted].
  destruct (eth_getTransfer env (clock w) id) as [t2|]; [| actions_tac].
  destruct (isStatus 1 (t_status t2)); [actions_tac |].
  destruct (isStatus 2 (t_status t2)); [actions_tac |].
  destruct (negb (strictEq (t_status t2) (BigInt 0))
            && negb (strictEq (t_status t2) (Number 0))); [actions_tac |].
  rewrite callCompleteOnL2_run. cbv zeta.
  destruct (eth_complete env (clock (bump w))) as [tx|]; [| actions_tac].
  destruct (eth_completeWait env (S (clock (bump w)))) as [[]|]; [| actions_tac].
  cbn [res world emitted]. rewrite updateSupabaseComplete_run. cbv zeta.
  destruct (db_error env (clock (bump (bump (bump w))))); actions_tac.
Qed.

(** C5, as the code has it.  Whenever the completion step signs a digest,
    and whenever it calls [complete], the digest is the hash of the
    concatenation of: the transfer identifier (32 bytes), the recipient and
    the bridged amount (32 bytes, big-endian) as [getTransfer] has just
    returned them, and the address of the source-chain contract
    [L2_ADDRESS], the contract on which [complete] is then called.  The
    address of the destination-chain payout contract [L1_ADDRESS] is not
    part of it.  The call carries the signature of that digest and the
    authorised signer's address. *)
Theorem digest_binds_source_contract cfg env id user amount blk w :
  let o := Unified.processPayoutCompletion cfg env id user amount blk w in
  (exists a, In a (emitted o) /\ (isSign a = true \/ exists i s g, a = L2Complete i s g)) ->
  exists t idBytes userBytes contractBytes,
    eth_getTransfer env (clock w) id = Some t /\
    fixedBytes 32 (if startsWith0x id then id else ("0x" ++ id)%string) = Some idBytes /\
    fixedBytes 20 (t_user t) = Some userBytes /\
    fixedBytes 20 (L2_ADDRESS cfg) = Some contractBytes /\
    0 <= t_bridgedAmount t < 2 ^ 256 /\
    let digest := keccak256 cfg (idBytes ++ userBytes
                                 ++ bigEndian 32 (t_bridgedAmount t) ++ contractBytes) in
    (forall d, In (SignMessage d) (emitted o) -> d = digest) /\
    (forall i s g, In (L2Complete i s g) (emitted o) ->
       i = id /\ s = [wallet_signMessage cfg (SIGNER_KEY cfg) digest]
       /\ g = [AUTHORIZED_SIGNER]).
Proof.
  intros o [a [Hin Ha]]. subst o. revert Hin.
  rewrite processPayoutCompletion_parts.
  assert (Hno : forall x,
             In x [GetTransfer id; ConsoleError "Error signing message:";
                   ConsoleError "Error processing payout completion:";
                   ConsoleError "Error details:"; ConsoleError "Error stack:"] ->
             isSign x = false /\ forall i s g, x <> L2Complete i s g).
  { intros x Hx. cbn in Hx.
    destruct Hx as [<- | [<- | [<- | [<- | [<- | []]]]]]; split;
      try reflexivity; discriminate. }
  assert (Hnot : forall x, isSign x = false -> (forall i s g, x <> L2Complete i s g) ->
                           ~ (isSign x = true \/ exists i s g, x = L2Complete i s g)).
  { intros x Hs Hc [Hs' | [i [s [g Hx]]]]; [congruence | exact (Hc i s g Hx)]. }
  destruct (eth_getTransfer env (clock w) id) as [t|] eqn:Ht.
  2:{ (* the first read throws: nothing is signed *)
      erewrite tryCatch_run_thrown
        by (erewrite bind_run_thrown by (rewrite getTransfer_run, Ht; reflexivity);
            reflexivity).
      rewrite completionHandler_run. cbn [prepend emitted app]. intros Hin. exfalso.
      destruct (Hno a) as [H1 H2]; [cbn in *; tauto | exact (Hnot a H1 H2 Ha)]. }
  destruct (Unified.digestInput id (t_user t) (t_bridgedAmount t) (L2_ADDRESS cfg))
    as [packed|] eqn:Hp.
  2:{ (* the packing throws: nothing is signed *)
      erewrite tryCatch_run_thrown.
      2:{ erewrite bind_run_ok by (rewrite getTransfer_run, Ht; reflexivity).
          erewrite bind_run_thrown by (rewrite signMessage_run, Hp; reflexivity).
          reflexivity. }
      rewrite completionHandler_run. cbn [prepend emitted app]. intros Hin. exfalso.
      destruct (Hno a) as [H1 H2]; [cbn in *; tauto | exact (Hnot a H1 H2 Ha)]. }
  intros _.
  unfold Unified.digestInput in Hp.
  destruct (solidityPacked_Some _ _ _ _ _ Hp) as (idB & uB & cB & Hid & Hu & Hamt & Hc & Hpk).
  exists t, idB, uB, cB. repeat (split; [first [reflexivity | assumption | lia] |]).
  rewrite <- Hpk. clear Hpk Hid Hu Hc Hamt.
  set (digest := keccak256 cfg packed).
  set (signature := wallet_signMessage cfg (SIGNER_KEY cfg) digest).
  set (guarded := completionGuarded env id user amount blk signature (bump w)).
  pose proof (completionGuarded_actions env id user amount blk signature (bump w)) as Hg.
  fold guarded in Hg. rewrite List.Forall_forall in Hg.
  assert (Hbody : (transfer <- getTransfer env id;;
                   signature0 <- Unified.signMessage cfg id (t_user transfer)
                                   (t_bridgedAmount transfer) (L2_ADDRESS cfg);;
                   completionGuarded env id user amount blk signature0) w
                  = prepend [GetTransfer id; SignMessage digest] guarded).
  { erewrite bind_run_ok by (rewrite getTransfer_run, Ht; reflexivity).
    erewrite bind_run_ok.
    2:{ rewrite signMessage_run. unfold Unified.digestInput. rewrite Hp. reflexivity. }
    rewrite prepend_prepend. reflexivity. }
  rewrite tryCatch_emitted_cases, Hbody. cbn [prepend res world emitted].
  assert (Hmid : forall x,
             In x (([GetTransfer id; SignMessage digest] ++ emitted guarded)
                   ++ match res guarded with
                      | Ok _ => []
                      | Throw e => emitted (completionHandler e (world guarded))
                      end) ->
             x = GetTransfer id \/ x = SignMessage digest \/
             (isSign x = false /\
              forall i s g, x = L2Complete i s g ->
                i = id /\ s = [signature] /\ g = [AUTHORIZED_SIGNER])).
  { intros x Hx. apply in_app_or in Hx as [Hx | Hx].
    - cbn in Hx. destruct Hx as [<- | [<- | Hx]]; [auto | auto |].
      right; right. apply Hg. exact Hx.
    - right; right. destruct (res guarded).
      + destruct Hx.
      + rewrite completionHandler_run in Hx.
        destruct (Hno x) as [H1 H2]; [cbn in *; tauto |]. split; [exact H1 |].
        intros i s g Hc'. destruct (H2 i s g Hc'). }
  split.
  - intros d Hd. apply Hmid in Hd as [Hd | [Hd | [Hd _]]];
      [discriminate | congruence | discriminate].
  - intros i s g Hc'. apply Hmid in Hc' as [Hc' | [Hc' | [_ Hc']]];
      [discriminate | discriminate | apply Hc'; reflexivity].
Qed.

(** ** Inserts happen at most once per identifier *)

Lemma inserted_app id t1 t2 : inserted id (t1 ++ t2) = (inserted id t1 + inserted id t2)%nat.
Proof. unfold inserted. rewrite filter_app, length_app. reflexivity. Qed.

Lemma insertOnce_refl id w : insertOnce id w [] w.
Proof.
  unfold insertOnce, inserted; cbn.
  split; [intros Hin; split; [exact Hin | reflexivity] |].
  split; [lia | discriminate].
Qed.

Lemma insertOnce_trans id w1 t1 w2 t2 w3 :
  insertOnce id w1 t1 w2 -> insertOnce id w2 t2 w3 -> insertOnce id w1 (t1 ++ t2) w3.
Proof.
  unfold insertOnce. rewrite inserted_app.
  intros (Ha1 & Hb1 & Hc1) (Ha2 & Hb2 & Hc2).
  split; [| split].
  - intros Hin. destruct (Ha1 Hin) as [Hin2 H1]. destruct (Ha2 Hin2) as [Hin3 H2].
    split; [exact Hin3 | lia].
  - destruct (Nat.eq_dec (inserted id t1) 1%nat) as [E | E]; [| lia].
    destruct (Ha2 (Hc1 E)) as [_ H2]. lia.
  - intros Hsum. destruct (Nat.eq_dec (inserted id t1) 1%nat) as [E | E].
    + destruct (Ha2 (Hc1 E)) as [H3 _]. exact H3.
    + apply Hc2. lia.
Qed.

(** A step that inserts nothing and keeps the rows that are there. *)
Lemma insertOnce_quiet id w t w' :
  inserted id t = 0%nat ->
  (is_Some (store w !! id) -> is_Some (store w' !! id)) ->
  insertOnce id w t w'.
Proof.
  intros H0 Hk. unfold insertOnce. rewrite H0.
  split; [intros Hin; split; [apply Hk, Hin | reflexivity] |].
  split; [lia | discriminate].
Qed.

Lemma keeps_ret {A} (a : A) : keepsInsertOnce (ret a).
Proof. intros id w. apply insertOnce_refl. Qed.

Lemma keeps_throw {A} e : keepsInsertOnce (@throw A e).
Proof. intros id w. apply insertOnce_refl. Qed.

Lemma keeps_getLast : keepsInsertOnce getLastCheckedBlock.
Proof. intros id w. apply insertOnce_refl. Qed.

Lemma keeps_setLast b : keepsInsertOnce (setLastCheckedBlock b).
Proof. intros id w. apply insertOnce_quiet; [reflexivity | auto]. Qed.

Lemma inserted_other id a : isInsertOf id a = false -> inserted id [a] = 0%nat.
Proof.
  intros H. unfold inserted.
  rewrite filter_cons_False by (rewrite H; discriminate). reflexivity.
Qed.

Lemma keeps_emit a : (forall id, isInsertOf id a = false) -> keepsInsertOnce (emit a).
Proof.
  intros Ha id w. apply insertOnce_quiet; [| auto].
  apply inserted_other, Ha.
Qed.

Lemma keeps_rpc {A} a method (answer : nat -> option A) :
  (forall id, isInsertOf id a = false) -> keepsInsertOnce (rpc a method answer).
Proof.
  intros Ha id w. rewrite rpc_run. apply insertOnce_quiet; [| auto].
  apply inserted_other, Ha.
Qed.

Lemma keeps_bind {A B} (m : M A) (k : A -> M B) :
  keepsInsertOnce m -> (forall a, keepsInsertOnce (k a)) -> keepsInsertOnce (bind m k).
Proof.
  intros Hm Hk id w. unfold bind. cbn beta zeta.
  destruct (res (m w)) as [a|e]; cbn [world emitted].
  - eapply insertOnce_trans; [apply Hm | apply Hk].
  - apply Hm.
Qed.

Lemma keeps_tryCatch {A} (m : M A) (h : Err -> M A) :
  keepsInsertOnce m -> (forall e, keepsInsertOnce (h e)) -> keepsInsertOnce (tryCatch m h).
Proof.
  intros Hm Hh id w. unfold tryCatch. cbn beta zeta.
  destruct (res (m w)) as [a|e]; cbn [world emitted].
  - apply Hm.
  - eapply insertOnce_trans; [apply Hm | apply Hh].
Qed.

Lemma keeps_attempt {A} (m : M A) : keepsInsertOnce m -> keepsInsertOnce (attempt m).
Proof. intros Hm id w. apply Hm. Qed.

Lemma keeps_forEach {A} (body : A -> M unit) xs :
  (forall x, keepsInsertOnce (body x)) -> keepsInsertOnce (forEach body xs).
Proof.
  intros Hb. induction xs as [|x xs IH]; cbn.
  - apply keeps_ret.
  - apply keeps_bind; [apply Hb | intros _; exact IH].
Qed.

Lemma keeps_queryAll {E} (q : Z -> Z -> M (list E)) ranges ev :
  (forall a b, keepsInsertOnce (q a b)) -> keepsInsertOnce (queryAll q ranges ev).
Proof.
  intros Hq. revert ev. induction ranges as [|[a b] rest IH]; intros ev; cbn.
  - apply keeps_ret.
  - apply keeps_bind; [apply Hq | intros c; apply IH].
Qed.

Lemma keeps_queryLoop {E} (q : Z -> Z -> M (list E)) cur from ev :
  (forall a b, keepsInsertOnce (q a b)) -> keepsInsertOnce (queryLoop q cur from ev).
Proof.
  intros Hq id w. rewrite queryLoop_queryAll. apply keeps_queryAll, Hq.
Qed.

Lemma keeps_select env tid : keepsInsertOnce (supabase_select env tid).
Proof.
  intros id w. unfold supabase_select. cbn beta zeta.
  destruct (db_error env (clock w)); cbn [world emitted];
    (apply insertOnce_quiet; [reflexivity | apply arrive_is_Some]).
Qed.

Lemma keeps_update env p tid : keepsInsertOnce (supabase_update env p tid).
Proof.
  intros id w. unfold supabase_update. cbn beta zeta.
  destruct (db_error env (clock w)); cbn [world emitted store bump withStore].
  { apply insertOnce_quiet; [reflexivity | apply arrive_is_Some]. }
  apply insertOnce_quiet; [reflexivity |]. intros Hin.
  apply (arrive_is_Some env) in Hin.
  destruct (arrive env w !! tid) eqn:Ht; cbn [store bump withStore]; [| exact Hin].
  destruct (decide (tid = id)) as [Heq | Hne].
  - subst tid. rewrite lookup_insert_eq. eauto.
  - rewrite lookup_insert_ne by exact Hne. exact Hin.
Qed.

Lemma keeps_insert env r : keepsInsertOnce (supabase_insert env r).
Proof.
  intros id w. unfold supabase_insert. cbn beta zeta.
  destruct (db_error env (clock w)); cbn [world emitted store bump withStore].
  { apply insertOnce_quiet; [reflexivity | apply arrive_is_Some]. }
  destruct (arrive env w !! tx_id r) eqn:Hr; cbn [world emitted store bump withStore].
  { apply insertOnce_quiet; [reflexivity | apply arrive_is_Some]. }
  unfold insertOnce, inserted. cbn [world emitted store bump withStore].
  destruct (decide (tx_id r = id)) as [Heq | Hne].
  - rewrite filter_cons_True
      by (cbn; destruct (decide (tx_id r = id)); [reflexivity | contradiction]).
    cbn. subst id. split; [| split].
    + intros Hin. apply (arrive_is_Some env) in Hin. rewrite Hr in Hin.
      destruct Hin as [x Hx]. discriminate.
    + lia.
    + intros _. rewrite lookup_insert_eq. eauto.
  - rewrite filter_cons_False
      by (cbn; destruct (decide (tx_id r = id)); [contradiction | discriminate]).
    cbn. split; [| split; [lia | discriminate]].
    intros Hin. split; [| reflexivity].
    rewrite lookup_insert_ne by exact Hne. apply arrive_is_Some, Hin.
Qed.

Create HintDb keeps.
#[local] Hint Resolve keeps_ret keeps_throw keeps_getLast keeps_setLast keeps_attempt
  keeps_select keeps_insert keeps_update : keeps.

Ltac keeps_step :=
  first
    [ solve [eauto with keeps]
    | apply keeps_bind; [| intros ?]
    | apply keeps_tryCatch; [| intros ?]
    | apply keeps_forEach; intros ?
    | apply keeps_queryLoop; intros ? ?
    | apply keeps_emit; intros ?; reflexivity
    | apply keeps_rpc; intros ?; reflexivity
    | match goal with
      | |- keepsInsertOnce (match ?x with _ => _ end) => destruct x
      | |- keepsInsertOnce (if ?x then _ else _) => destruct x
      end ].

Ltac keeps := repeat keeps_step.

Lemma keeps_processRefund env ev : keepsInsertOnce (processRefund env ev).
Proof. unfold processRefund, consoleError. keeps. Qed.

Lemma keeps_processBridgeEventWith env onPending afterEvent ev :
  (forall e, keepsInsertOnce (onPending e)) -> keepsInsertOnce afterEvent ->
  keepsInsertOnce (processBridgeEventWith env onPending afterEvent ev).
Proof.
  intros Hp Ha. unfold processBridgeEventWith, getTransfer, consoleError. keeps.
Qed.

Lemma keeps_payoutOnce env ev : keepsInsertOnce (Minimal.payoutOnce env ev).
Proof. unfold Minimal.payoutOnce, consoleError. keeps. Qed.

Lemma keeps_payoutFailed n : keepsInsertOnce (Unified.payoutFailed n).
Proof. unfold Unified.payoutFailed, consoleError, sleep. keeps. Qed.

Lemma keeps_payoutLoop env event st : keepsInsertOnce (Unified.payoutLoop env event st).
Proof.
  remember (retryMeasure st) as n eqn:Hn.
  revert st Hn. induction n as [n IH] using lt_wf_ind. intros st ->.
  rewrite payoutLoop_step. fold (retrying st).
  destruct (retrying st) eqn:Hc; [| apply keeps_ret].
  apply keeps_bind; [keeps |]. intros [tx | e].
  - apply keeps_bind; [keeps |]. intros [b | e].
    + eapply IH; [apply retryMeasure_confirmed, Hc | reflexivity].
    + apply keeps_bind; [apply keeps_payoutFailed |]. intros _.
      eapply IH; [apply retryMeasure_failed, Hc | reflexivity].
  - apply keeps_bind; [apply keeps_payoutFailed |]. intros _.
    eapply IH; [apply retryMeasure_failed, Hc | reflexivity].
Qed.

Lemma keeps_processPayoutCompletion cfg env id user amount b :
  keepsInsertOnce (Unified.processPayoutCompletion cfg env id user amount b).
Proof.
  unfold Unified.processPayoutCompletion, Unified.signMessage, Unified.callCompleteOnL2,
    Unified.updateSupabaseComplete, getTransfer, consoleError.
  keeps.
Qed.

Lemma keeps_payoutAndComplete cfg env ev :
  keepsInsertOnce (Unified.payoutAndComplete cfg env ev).
Proof.
  unfold Unified.payoutAndComplete, consoleError.
  pose proof (keeps_payoutLoop env). pose proof (keeps_processPayoutCompletion cfg env).
  keeps.
Qed.

Lemma keeps_minimal_processBridgeEvent env ev :
  keepsInsertOnce (Minimal.processBridgeEvent env ev).
Proof.
  apply keeps_processBridgeEventWith; [apply keeps_payoutOnce | apply keeps_ret].
Qed.

Lemma keeps_unified_processBridgeEvent cfg env ev :
  keepsInsertOnce (Unified.processBridgeEvent cfg env ev).
Proof.
  apply keeps_processBridgeEventWith; [apply keeps_payoutAndComplete |].
  unfold sleep. keeps.
Qed.

Lemma keeps_minimal_tick env : keepsInsertOnce (Minimal.tick env).
Proof.
  unfold Minimal.tick, Minimal.tickBody, getBlockNumber, queryBridgeInitiated,
    queryRefunded, consoleError.
  pose proof (keeps_minimal_processBridgeEvent env).
  pose proof (keeps_processRefund env). keeps.
Qed.

Lemma keeps_unified_tick cfg env : keepsInsertOnce (Unified.tick cfg env).
Proof.
  unfold Unified.tick, Unified.tickBody, getBlockNumber, queryBridgeInitiated,
    queryRefunded, consoleError.
  pose proof (keeps_unified_processBridgeEvent cfg env).
  pose proof (keeps_processRefund env). keeps.
Qed.

(** ** The existence check *)

Lemma supabase_select_run env id w :
  supabase_select env id w =
  mkOut (Ok (match db_error env (clock w) with
             | Some e => {| data := None; error := Some e |}
             | None => {| data := Some (match arrive env w !! id with
                                        | Some r => [tx_id r]
                                        | None => []
                                        end);
                          error := None |}
             end))
        (bump (withStore (arrive env w) w)) [DbSelect id].
Proof.
  unfold supabase_select. cbn beta zeta. destruct (db_error env (clock w)); reflexivity.
Qed.

(** An event whose identifier is in the record store is skipped after the
    existence check. *)
Lemma present_event_skipped env onPending afterEvent ev w :
  is_Some (store w !! bi_transferId ev) ->
  processBridgeEventWith env onPending afterEvent ev w =
  mkOut (Ok tt) (bump (withStore (arrive env w) w))
        (DbSelect (bi_transferId ev)
           :: match db_error env (clock w) with
              | Some _ => [ConsoleError "Supabase select error:"]
              | None => []
              end).
Proof.
  intros Hin. apply (arrive_is_Some env) in Hin as [r Hr].
  unfold processBridgeEventWith. cbv zeta.
  erewrite bind_run_ok by apply supabase_select_run.
  destruct (db_error env (clock w)); cbn [error data]; [reflexivity |].
  rewrite Hr. reflexivity.
Qed.

(** C6.  However often a range is scanned, a row is created at most once
    per identifier: over two runs of the initiation loop on the same
    events, and over two consecutive ticks, in either variant, the trace
    holds at most one successful insert for any identifier (the events need
    not even have distinct identifiers).  An initiation event whose
    identifier is already in the record store is dismissed after the
    existence check: the body returns, having made that one read (and
    logged the store's error, if it answered with one), so no insert, no
    payout, no completion and no update; the row is left as it was. *)
Theorem rescan_is_idempotent :
  (forall cfg env evs w id,
      let o1 := forEach (Unified.processBridgeEvent cfg env) evs w in
      let o2 := forEach (Unified.processBridgeEvent cfg env) evs (world o1) in
      (inserted id (emitted o1 ++ emitted o2) <= 1)%nat) /\
  (forall env evs w id,
      let o1 := forEach (Minimal.processBridgeEvent env) evs w in
      let o2 := forEach (Minimal.processBridgeEvent env) evs (world o1) in
      (inserted id (emitted o1 ++ emitted o2) <= 1)%nat) /\
  (forall cfg env w id,
      let o1 := Unified.tick cfg env w in
      let o2 := Unified.tick cfg env (world o1) in
      (inserted id (emitted o1 ++ emitted o2) <= 1)%nat) /\
  (forall env w id,
      let o1 := Minimal.tick env w in
      let o2 := Minimal.tick env (world o1) in
      (inserted id (emitted o1 ++ emitted o2) <= 1)%nat) /\
  (forall cfg env ev w r,
      store w !! bi_transferId ev = Some r ->
      let o := Unified.processBridgeEvent cfg env ev w in
      res o = Ok tt /\
      (emitted o = [DbSelect (bi_transferId ev)] \/
       emitted o = [DbSelect (bi_transferId ev); ConsoleError "Supabase select error:"]) /\
      filter (fun a => isWrite a = true) (emitted o) = [] /\
      store (world o) !! bi_transferId ev = Some r) /\
  (forall env ev w r,
      store w !! bi_transferId ev = Some r ->
      let o := Minimal.processBridgeEvent env ev w in
      res o = Ok tt /\
      (emitted o = [DbSelect (bi_transferId ev)] \/
       emitted o = [DbSelect (bi_transferId ev); ConsoleError "Supabase select error:"]) /\
      filter (fun a => isWrite a = true) (emitted o) = [] /\
      store (world o) !! bi_transferId ev = Some r).
Proof.
  assert (Htwice : forall (m1 m2 : M unit) w id,
             keepsInsertOnce m1 -> keepsInsertOnce m2 ->
             (inserted id (emitted (m1 w) ++ emitted (m2 (world (m1 w)))) <= 1)%nat).
  { intros m1 m2 w id H1 H2.
    pose proof (insertOnce_trans id _ _ _ _ _ (H1 id w) (H2 id (world (m1 w)))) as H.
    apply H. }
  assert (Hskip : forall env onP after ev w r,
             store w !! bi_transferId ev = Some r ->
             let o := processBridgeEventWith env onP after ev w in
             res o = Ok tt /\
             (emitted o = [DbSelect (bi_transferId ev)] \/
              emitted o = [DbSelect (bi_transferId ev);
                           ConsoleError "Supabase select error:"]) /\
             filter (fun a => isWrite a = true) (emitted o) = [] /\
             store (world o) !! bi_transferId ev = Some r).
  { intros env onP after ev w r Hr o. subst o.
    rewrite present_event_skipped by (rewrite Hr; eauto).
    cbn [res world emitted store bump withStore].
    split; [reflexivity |].
    split; [destruct (db_error env (clock w)); [right | left]; reflexivity |].
    split; [destruct (db_error env (clock w)); reflexivity |].
    apply arrive_lookup_Some, Hr. }
  split; [intros cfg env evs w id; apply Htwice;
          apply keeps_forEach; intros ev; apply keeps_unified_processBridgeEvent |].
  split; [intros env evs w id; apply Htwice;
          apply keeps_forEach; intros ev; apply keeps_minimal_processBridgeEvent |].
  split; [intros cfg env w id; apply Htwice; apply keeps_unified_tick |].
  split; [intros env w id; apply Htwice; apply keeps_minimal_tick |].
  split; [intros cfg env ev w r Hr; apply (Hskip env _ _ ev w r Hr) |].
  intros env ev w r Hr; apply (Hskip env _ _ ev w r Hr).
Qed.

(** ** An event with no row *)

Lemma in_bind_ok {A B} (m : M A) (k : A -> M B) w a x :
  res (m w) = Ok a ->
  In x (emitted (k a (world (m w)))) -> In x (emitted (bind m k w)).
Proof.
  intros Hres Hin. rewrite (bind_ok _ _ w a Hres). cbn [emitted].
  apply in_or_app. right. exact Hin.
Qed.

Lemma in_bind_left {A B} (m : M A) (k : A -> M B) w x :
  In x (emitted (m w)) -> In x (emitted (bind m k w)).
Proof.
  intros Hin. unfold bind. cbn beta zeta.
  destruct (res (m w)); cbn [emitted]; [apply in_or_app; left |]; exact Hin.
Qed.

Lemma supabase_insert_returns env r w :
  exists resp, res (supabase_insert env r w) = Ok resp.
Proof.
  unfold supabase_insert. cbn beta zeta.
  destruct (db_error env (clock w)); [eexists; reflexivity |].
  destruct (arrive env w !! tx_id r); eexists; reflexivity.
Qed.

Lemma payoutOnce_submits env ev w :
  In (L1Payout (bi_transferId ev) (bi_user ev) (bi_bridgedAmount ev))
     (emitted (Minimal.payoutOnce env ev w)).
Proof.
  unfold Minimal.payoutOnce. rewrite tryCatch_emitted_cases.
  apply in_or_app. left.
  unfold bind at 1. cbn beta zeta. rewrite rpc_run. cbn [res world emitted].
  destruct (eth_payout env (clock w)); cbn [emitted app]; left; reflexivity.
Qed.

(** In the minimal variant an initiation event that has no row in the
    record store and is Pending on the source chain is paid out, whether or
    not the insert goes through. *)
Lemma absent_pending_event_paid env ev w t :
  db_error env (clock w) = None ->
  arrive env w !! bi_transferId ev = None ->
  eth_getTransfer env (S (clock w)) (bi_transferId ev) = Some t ->
  isStatus 0 (t_status t) = true ->
  In (L1Payout (bi_transferId ev) (bi_user ev) (bi_bridgedAmount ev))
     (emitted (Minimal.processBridgeEvent env ev w)).
Proof.
  intros Hdb Habs Ht Hst.
  unfold Minimal.processBridgeEvent, processBridgeEventWith. cbv zeta.
  erewrite bind_run_ok by apply supabase_select_run.
  rewrite Hdb, Habs. cbn [error data nonEmpty length Nat.eqb negb prepend emitted].
  apply in_or_app. right.
  eapply in_bind_ok.
  { rewrite getTransfer_run. cbn [clock bump withStore res]. rewrite Ht. reflexivity. }
  rewrite Hst. rewrite getTransfer_run. cbn [world].
  set (w2 := bump (bump (withStore (arrive env w) w))).
  destruct (supabase_insert_returns env (pendingRow ev (bi_blockNumber ev)) w2)
    as [resp Hresp].
  apply in_bind_left.
  eapply in_bind_ok; [exact Hresp |].
  set (w3 := world (supabase_insert env (pendingRow ev (bi_blockNumber ev)) w2)).
  assert (Hlog : exists u, res (match error resp with
                                | Some _ => consoleError "Supabase insert error:"
                                | None => ret tt
                                end w3) = Ok u /\
                           world (match error resp with
                                  | Some _ => consoleError "Supabase insert error:"
                                  | None => ret tt
                                  end w3) = w3).
  { destruct (error resp); exists tt; split; reflexivity. }
  destruct Hlog as [u [Hu Hw]].
  eapply in_bind_ok; [exact Hu |]. rewrite Hw.
  apply payoutOnce_submits.
Qed.

(** ** The minimal watcher never uses its cursor *)

(** C10.  In [src/watcher.js] a tick does the same whatever the value of
    [lastCheckedBlock] (it is never read) and leaves it as it found it (it
    is never advanced); when the head is read and the log queries answer,
    the tick scans the windows of [max(0, head - 1000) .. head], whatever
    the cursor, also when the head is at or below it; only [main]'s start-up
    assigns the cursor.  What a tick does with a re-observed event therefore
    depends on the record store and the chain alone: an event that has no
    row in the store and is Pending on the chain is paid out, however often
    it was observed before (an event that has a row is skipped, see C6). *)
Theorem minimal_tick_scans_fixed_window :
  (forall env w c,
      Minimal.tick env (setCursor c w) = mapWorld (setCursor c) (Minimal.tick env w)) /\
  (forall env w,
      lastCheckedBlock (world (Minimal.tick env w)) = lastCheckedBlock w) /\
  (forall env w head,
      eth_blockNumber env (clock w) = Some head ->
      (forall n a b, is_Some (eth_bridgeLogs env n a b)) ->
      (forall n a b, is_Some (eth_refundLogs env n a b)) ->
      let window := subRanges (Z.max 0 (head - 1000)) head in
      exists rest,
        emitted (Minimal.tick env w)
        = GetBlockNumber
            :: ((fun r => QueryFilter KBridgeInitiated r.1 r.2) <$> window)
            ++ ((fun r => QueryFilter KRefunded r.1 r.2) <$> window)
            ++ rest) /\
  (forall env w head,
      eth_blockNumber env (clock w) = Some head ->
      lastCheckedBlock (world (Minimal.startup env w)) = Z.max 0 (head - 1000)) /\
  (forall env ev w t,
      db_error env (clock w) = None ->
      arrive env w !! bi_transferId ev = None ->
      eth_getTransfer env (S (clock w)) (bi_transferId ev) = Some t ->
      isStatus 0 (t_status t) = true ->
      In (L1Payout (bi_transferId ev) (bi_user ev) (bi_bridgedAmount ev))
         (emitted (Minimal.processBridgeEvent env ev w))).
Proof.
  split; [intros env w c; apply blind_minimal_tick |].
  split; [intros env w; apply blind_frame, blind_minimal_tick |].
  split.
  { intros env w head Hhead Hb Hr window. subst window.
    set (from := Z.max 0 (head - 1000)).
    destruct (tryCatch_emitted (Minimal.tickBody env)
                (fun _ => consoleError "Error polling for events:") w) as [rest0 Hrest0].
    unfold Minimal.tick. rewrite Hrest0. clear Hrest0.
    unfold Minimal.tickBody.
    assert (Hh : getBlockNumber env w = mkOut (Ok head) (bump w) [GetBlockNumber])
      by (unfold getBlockNumber, rpc; rewrite Hhead; reflexivity).
    rewrite (bind_ok _ _ w head) by (rewrite Hh; reflexivity).
    rewrite Hh. cbn [res world emitted]. fold from.
    unfold queryBridgeInitiated, queryRefunded.
    set (qb := fun a b => rpc (QueryFilter KBridgeInitiated a b) "queryFilter"
                              (fun n => eth_bridgeLogs env n a b)).
    set (qr := fun a b => rpc (QueryFilter KRefunded a b) "queryFilter"
                              (fun n => eth_refundLogs env n a b)).
    destruct (queryAll_answers KBridgeInitiated (eth_bridgeLogs env) (subRanges from head) []
                (bump w) Hb)
      as [bev Hbev].
    fold qb in Hbev. rewrite <- queryLoop_queryAll in Hbev.
    rewrite (bind_ok _ _ (bump w) bev) by exact Hbev.
    cbn [res world emitted].
    set (w1 := world (queryLoop qb head from [] (bump w))).
    destruct (queryAll_answers KRefunded (eth_refundLogs env) (subRanges from head) [] w1 Hr)
      as [rev Hrev].
    fold qr in Hrev. rewrite <- queryLoop_queryAll in Hrev.
    rewrite (bind_ok _ _ w1 rev) by exact Hrev.
    cbn [res world emitted].
    rewrite !queryLoop_queryAll. subst qb qr.
    rewrite !queryAll_emitted by assumption.
    eexists. cbn. rewrite <- !app_assoc. reflexivity. }
  split; [| exact absent_pending_event_paid].
  intros env w head Hhead.
  unfold Minimal.startup, startupWith, getStartingBlockWith, tryCatch, bind,
    getBlockNumber, rpc. cbn. rewrite Hhead. reflexivity.
Qed.

(** ** An insert that fails does not stop the payout *)

(** C1, evaluated at the failing input.  The existence check finds no row
    for [idA], the source chain reports the transfer as Pending, another
    writer inserts the row of [idA], and this process's insert then comes
    back with a conflict: both variants log the error and go on to submit
    the payout for [idA].  An insert that fails for another reason is
    treated the same way, and in the minimal variant, which scans the same
    window at every tick, the next tick then finds no row and pays the same
    transfer again. *)
Theorem insert_conflict_still_pays :
  let o := Minimal.processBridgeEvent raceEnv evA w0 in
  let u := Unified.processBridgeEvent cfg0 raceEnv evA w0 in
  let t1 := Minimal.tick outageEnv w0 in
  let t2 := Minimal.tick outageEnv (world t1) in
  store w0 !! idA = None /\
  emitted o = [DbSelect idA; GetTransfer idA;
               DbInsert (pendingRow evA 1201) false;
               ConsoleError "Supabase insert error:";
               L1Payout idA alice 100; L1Wait "0xpayout"] /\
  store (world o) !! idA = Some foreignRow /\
  firstn 6 (emitted u) = emitted o /\
  filter (fun a => isPayout a = true) (emitted u) = [L1Payout idA alice 100] /\
  mentions idA (emitted t1)
  = [DbSelect idA; GetTransfer idA; DbInsert (pendingRow evA 1201) false;
     L1Payout idA alice 100] /\
  mentions idA (emitted t2)
  = [DbSelect idA; GetTransfer idA; DbInsert (pendingRow evA 1201) true;
     L1Payout idA alice 100].
Proof. vm_compute. repeat split; reflexivity. Qed.

(** ** A failed status read *)

(** The body of the initiation loop throws when [getTransfer] does: the
    existence check has found no row, the read is rejected, and nothing
    catches the rejection inside the body. *)
Lemma getTransfer_failure_thrown env onPending afterEvent ev w :
  db_error env (clock w) = None ->
  arrive env w !! bi_transferId ev = None ->
  eth_getTransfer env (S (clock w)) (bi_transferId ev) = None ->
  processBridgeEventWith env onPending afterEvent ev w =
  mkOut (Throw (RpcError "getTransfer")) (bump (bump (withStore (arrive env w) w)))
        [DbSelect (bi_transferId ev); GetTransfer (bi_transferId ev)].
Proof.
  intros Hdb Habsent Hfail. unfold processBridgeEventWith. cbv zeta.
  erewrite bind_run_ok by apply supabase_select_run.
  rewrite Hdb, Habsent. cbn [error data nonEmpty length Nat.eqb negb].
  erewrite bind_run_thrown; [reflexivity |].
  rewrite getTransfer_run. cbn [clock bump withStore]. rewrite Hfail. reflexivity.
Qed.

(** A loop whose body throws at some element stops there. *)
Lemma forEach_thrown {A} (body : A -> M unit) pre x post w e w' t :
  returned (forEach body pre w) ->
  body x (world (forEach body pre w)) = mkOut (Throw e) w' t ->
  forEach body (pre ++ x :: post) w
  = mkOut (Throw e) w' (emitted (forEach body pre w) ++ t).
Proof.
  intros Hpre Hx. rewrite forEach_app.
  apply returned_Ok in Hpre as [[] Hpre].
  rewrite (bind_ok _ _ w tt) by exact Hpre. cbn [forEach].
  rewrite (bind_run_thrown _ _ _ _ _ _ Hx). reflexivity.
Qed.

Lemma minimal_tickBody_run env w :
  Minimal.tickBody env w =
  match eth_blockNumber env (clock w) with
  | None => mkOut (Throw (RpcError "getBlockNumber")) (bump w) [GetBlockNumber]
  | Some head =>
      let from := Z.max 0 (head - 1000) in
      let s1 := queryLoop (queryBridgeInitiated env) head from [] (bump w) in
      match res s1 with
      | Throw e => mkOut (Throw e) (world s1) (GetBlockNumber :: emitted s1)
      | Ok bev =>
          let s2 := queryLoop (queryRefunded env) head from [] (world s1) in
          match res s2 with
          | Throw e => mkOut (Throw e) (world s2)
                             (GetBlockNumber :: emitted s1 ++ emitted s2)
          | Ok rev =>
              let p1 := forEach (Minimal.processBridgeEvent env) bev (world s2) in
              match res p1 with
              | Throw e => mkOut (Throw e) (world p1)
                                 (GetBlockNumber :: emitted s1 ++ emitted s2 ++ emitted p1)
              | Ok _ =>
                  let p2 := forEach (processRefund env) rev (world p1) in
                  mkOut (res p2) (world p2)
                        (GetBlockNumber :: emitted s1 ++ emitted s2
                                        ++ emitted p1 ++ emitted p2)
              end
          end
      end
  end.
Proof.
  unfold Minimal.tickBody.
  destruct (eth_blockNumber env (clock w)) as [head|] eqn:Hh.
  2:{ erewrite bind_run_thrown; [reflexivity |].
      unfold getBlockNumber. rewrite rpc_run, Hh. reflexivity. }
  erewrite bind_run_ok by (unfold getBlockNumber; rewrite rpc_run, Hh; reflexivity).
  cbv zeta.
  set (from := Z.max 0 (head - 1000)).
  set (s1 := queryLoop (queryBridgeInitiated env) head from [] (bump w)).
  destruct (res s1) as [bev|e] eqn:Hs1.
  2:{ rewrite (bind_thrown _ _ (bump w) e) by exact Hs1. reflexivity. }
  rewrite (bind_ok _ _ (bump w) bev) by exact Hs1. fold s1.
  set (s2 := queryLoop (queryRefunded env) head from [] (world s1)).
  destruct (res s2) as [rev|e] eqn:Hs2.
  2:{ rewrite (bind_thrown _ _ (world s1) e) by exact Hs2. fold s2.
      unfold prepend. cbn. reflexivity. }
  rewrite (bind_ok _ _ (world s1) rev) by exact Hs2. fold s2.
  set (p1 := forEach (Minimal.processBridgeEvent env) bev (world s2)).
  destruct (res p1) as [[]|e] eqn:Hp1.
  2:{ rewrite (bind_thrown _ _ (world s2) e) by exact Hp1. fold p1.
      unfold prepend. cbn. reflexivity. }
  rewrite (bind_ok _ _ (world s2) tt) by exact Hp1. fold p1.
  unfold prepend. cbn. reflexivity.
Qed.

(** C4, as the code has it.  When [getTransfer] throws for an initiation
    event (the existence check having found no row), the rejection leaves
    the loop and is caught by the handler of the whole tick: the tick ends
    with the message of that handler, having processed the events before
    the failing one and nothing after it, neither the later initiation
    events nor any refund event; in the unified variant the cursor is left
    where it was, so that the range is scanned again by the next tick. *)
Theorem status_read_failure_aborts_tick :
  (forall cfg env w head pre ev post rev,
      eth_blockNumber env (clock w) = Some head ->
      lastCheckedBlock w < head ->
      let cursor := lastCheckedBlock w in
      let s1 := queryLoop (queryBridgeInitiated env) head (cursor + 1) [] (bump w) in
      let s2 := queryLoop (queryRefunded env) head (cursor + 1) [] (world s1) in
      let p := forEach (Unified.processBridgeEvent cfg env) pre (world s2) in
      res s1 = Ok (pre ++ ev :: post) ->
      res s2 = Ok rev ->
      returned p ->
      db_error env (clock (world p)) = None ->
      arrive env (world p) !! bi_transferId ev = None ->
      eth_getTransfer env (S (clock (world p))) (bi_transferId ev) = None ->
      let o := Unified.tick cfg env w in
      res o = Ok tt /\
      lastCheckedBlock (world o) = cursor /\
      emitted o = GetBlockNumber :: emitted s1 ++ emitted s2 ++ emitted p
                    ++ [DbSelect (bi_transferId ev); GetTransfer (bi_transferId ev);
                        ConsoleError "Error polling for events:"]) /\
  (forall env w head pre ev post rev,
      eth_blockNumber env (clock w) = Some head ->
      let from := Z.max 0 (head - 1000) in
      let s1 := queryLoop (queryBridgeInitiated env) head from [] (bump w) in
      let s2 := queryLoop (queryRefunded env) head from [] (world s1) in
      let p := forEach (Minimal.processBridgeEvent env) pre (world s2) in
      res s1 = Ok (pre ++ ev :: post) ->
      res s2 = Ok rev ->
      returned p ->
      db_error env (clock (world p)) = None ->
      arrive env (world p) !! bi_transferId ev = None ->
      eth_getTransfer env (S (clock (world p))) (bi_transferId ev) = None ->
      let o := Minimal.tick env w in
      res o = Ok tt /\
      emitted o = GetBlockNumber :: emitted s1 ++ emitted s2 ++ emitted p
                    ++ [DbSelect (bi_transferId ev); GetTransfer (bi_transferId ev);
                        ConsoleError "Error polling for events:"]).
Proof.
  split.
  - intros cfg env w head pre ev post rev Hh Hlt cursor s1 s2 p Hs1 Hs2 Hp Hdb Habs Hfail o.
    pose proof (getTransfer_failure_thrown env (Unified.payoutAndComplete cfg env)
                  (sleep 1000) ev (world p) Hdb Habs Hfail) as Hev.
    pose proof (forEach_thrown (Unified.processBridgeEvent cfg env) pre ev post
                  (world s2) _ _ _ Hp Hev) as Hloop.
    fold p in Hloop.
    pose proof (scanAndProcess_run cfg env head (bump w)) as Hrun. cbv zeta in Hrun.
    change (lastCheckedBlock (bump w)) with cursor in Hrun.
    fold s1 in Hrun. rewrite Hs1 in Hrun. fold s2 in Hrun. rewrite Hs2 in Hrun.
    rewrite Hloop in Hrun. cbn [res world emitted] in Hrun.
    subst o. unfold Unified.tick.
    erewrite tryCatch_run_thrown.
    2:{ rewrite unified_tickBody_run, Hh.
        destruct (head <=? lastCheckedBlock w) eqn:Hle; [lia |].
        cbv zeta. rewrite Hrun. reflexivity. }
    unfold prepend, consoleError, emit. cbn [res world emitted].
    split; [reflexivity |]. split.
    + cbn [lastCheckedBlock bump withStore].
      unfold p. rewrite blind_frame by apply blind_bridgeLoop.
      unfold s2. rewrite blind_frame by apply blind_scanRefund.
      unfold s1. rewrite blind_frame by apply blind_scanBridge. reflexivity.
    + cbn. rewrite <- !app_assoc. reflexivity.
  - intros env w head pre ev post rev Hh from s1 s2 p Hs1 Hs2 Hp Hdb Habs Hfail o.
    pose proof (getTransfer_failure_thrown env (Minimal.payoutOnce env)
                  (ret tt) ev (world p) Hdb Habs Hfail) as Hev.
    pose proof (forEach_thrown (Minimal.processBridgeEvent env) pre ev post
                  (world s2) _ _ _ Hp Hev) as Hloop.
    fold p in Hloop.
    subst o. unfold Minimal.tick.
    erewrite tryCatch_run_thrown.
    2:{ rewrite minimal_tickBody_run, Hh. cbv zeta.
        fold from. fold s1. rewrite Hs1. fold s2. rewrite Hs2.
        rewrite Hloop. cbn [res world emitted]. reflexivity. }
    unfold prepend, consoleError, emit. cbn [res world emitted].
    split; [reflexivity |]. cbn. rewrite <- !app_assoc. reflexivity.
Qed.

(** C4 as stated fails at this input: the scan of blocks 1201..1700
    returns the initiation events of [idA] and [idB] and a refund,
    [getTransfer] throws for [idA] and would answer for [idB]; the tick
    then makes no call about [idB], updates no row, and leaves the cursor at
    1200 although the head is 1700. *)
Lemma status_read_failure_stops_later_events :
  let o := Unified.tick cfg0 flakyEnv w0 in
  let scan := queryLoop (queryBridgeInitiated flakyEnv) 1700 1201 [] (bump w0) in
  res scan = Ok [evA; evB] /\
  In (GetTransfer idA) (emitted o) /\
  eth_getTransfer flakyEnv 4 idA = None /\
  (forall n, eth_getTransfer flakyEnv n idB = Some (transferOf evB (BigInt 0))) /\
  mentions idB (emitted o) = [] /\
  filter (fun a => isWrite a = true) (emitted o) = [] /\
  eth_blockNumber flakyEnv 0 = Some 1700 /\
  lastCheckedBlock (world o) = 1200 /\
  mentions idB (emitted (Minimal.tick flakyEnv w0)) = [].
Proof.
  vm_compute. repeat split; try reflexivity. tauto.
Qed.

(** C5 as stated fails at this input: the source and destination contracts
    have different addresses; the completion of [idA] signs the hash of the
    packing that ends with [L2_ADDRESS], and not the hash of the packing
    that ends with the address of the destination-chain payout contract
    [L1_ADDRESS]: the two packings differ. *)
Lemma digest_is_not_over_payout_contract :
  let o := Unified.processPayoutCompletion cfg0 calmEnv idA alice 100 (Some 77) w0 in
  exists overL1 overL2,
    solidityPacked idA alice 100 (L1_ADDRESS cfg0) = Some overL1 /\
    solidityPacked idA alice 100 (L2_ADDRESS cfg0) = Some overL2 /\
    overL1 <> overL2 /\
    In (SignMessage (keccak256 cfg0 overL2)) (emitted o) /\
    ~ In (SignMessage (keccak256 cfg0 overL1)) (emitted o) /\
    In (L2Complete idA [wallet_signMessage cfg0 (SIGNER_KEY cfg0) (keccak256 cfg0 overL2)]
                   [AUTHORIZED_SIGNER]) (emitted o).
Proof.
  do 2 eexists.
  split; [vm_compute; reflexivity |]. split; [vm_compute; reflexivity |].
  split; [vm_compute; discriminate |].
  split; [vm_compute; tauto |].
  split; [| vm_compute; tauto].
  vm_compute. intros H.
  repeat (destruct H as [H | H]; [discriminate H |]). exact H.
Qed.

(** ** Runs of the scenarios *)

(** The range 1201..2201 (1001 blocks): its second window is 1701..2200,
    500 blocks long, and is followed by the window of the last block. *)
Lemma scan_in_500_block_windows_witness :
  subRanges 1201 2201 !! 1%nat = Some (1701, 2200) /\
  1701 = 1201 + 500 * Z.of_nat 1 /\ 1701 <= 2200 <= 2201 /\ 2200 - 1701 + 1 <= 500 /\
  (2200 < 2201 -> 2200 - 1701 + 1 = 500 /\
                  subRanges 1201 2201 !! 2%nat = Some (2200 + 1, Z.min (2200 + 500) 2201)).
Proof.
  split; [vm_compute; reflexivity |].
  apply (proj1 (proj2 (proj2 scan_in_500_block_windows)) 1201 2201 1%nat 1701 2200).
  vm_compute; reflexivity.
Defined.

(** The minimal variant with the cursor at 5000 and the head at 1700: the
    tick still scans the windows of 700..1700. *)
Lemma minimal_tick_scans_fixed_window_witness :
  let w := setCursor 5000 w0 in
  eth_blockNumber calmEnv (clock w) = Some 1700 /\
  exists rest,
    emitted (Minimal.tick calmEnv w)
    = GetBlockNumber
        :: ((fun r => QueryFilter KBridgeInitiated r.1 r.2) <$> subRanges 700 1700)
        ++ ((fun r => QueryFilter KRefunded r.1 r.2) <$> subRanges 700 1700)
        ++ rest.
Proof.
  split; [reflexivity |].
  apply (proj1 (proj2 (proj2 minimal_tick_scans_fixed_window))
           calmEnv (setCursor 5000 w0) 1700).
  - reflexivity.
  - intros n a b. eexists. reflexivity.
  - intros n a b. eexists. reflexivity.
Defined.

(** A refund of [idA] when the record store holds a completed row for it:
    the row ends as refunded. *)
Lemma refund_is_unconditional_witness :
  store w1 !! idA = Some completedRow /\
  status completedRow = "Completed" /\
  option_map status (store (world (processRefund calmEnv refundA w1)) !! idA)
  = Some "refunded".
Proof.
  split; [vm_compute; reflexivity |]. split; [reflexivity |].
  assert (Hrow : store w1 !! rf_transferId refundA = Some completedRow)
    by (vm_compute; reflexivity).
  pose proof (proj2 (proj2 (proj2 (refund_is_unconditional calmEnv refundA w1)))
                eq_refl completedRow Hrow) as Hafter.
  change (rf_transferId refundA) with idA in Hafter.
  rewrite Hafter. reflexivity.
Defined.

(** The completion of [idA] when the source chain reports it as Completed
    at both reads. *)
Lemma completion_guard_skips_witness :
  exists packed,
    Unified.digestInput idA alice 100 (L2_ADDRESS cfg0) = Some packed /\
    let o := Unified.processPayoutCompletion cfg0 completedEnv idA alice 100 (Some 77) w1 in
    res o = Ok tt /\
    emitted o = [GetTransfer idA; SignMessage (keccak256 cfg0 packed); GetTransfer idA] /\
    filter (fun a => isWrite a = true) (emitted o) = [] /\
    filter (fun a => isConsoleError a = true) (emitted o) = [] /\
    store (world o) = store w1.
Proof.
  eexists. split; [vm_compute; reflexivity |].
  apply (completion_guard_skips cfg0 completedEnv idA alice 100 (Some 77) w1
           (chainTransfer idA (BigInt 1)) _ (chainTransfer idA (BigInt 1)));
    vm_compute; reflexivity.
Defined.

(** The completion of [idA] on a quiet chain: what is signed is the hash
    of a packing that ends with the bytes of [L2_ADDRESS]. *)
Lemma digest_binds_source_contract_witness :
  exists contractBytes,
    fixedBytes 20 (L2_ADDRESS cfg0) = Some contractBytes /\
    forall d,
      In (SignMessage d)
         (emitted (Unified.processPayoutCompletion cfg0 calmEnv idA alice 100 (Some 77) w0)) ->
      exists idBytes userBytes,
        d = keccak256 cfg0 (idBytes ++ userBytes ++ bigEndian 32 100 ++ contractBytes).
Proof.
  destruct (digest_binds_source_contract cfg0 calmEnv idA alice 100 (Some 77) w0)
    as (t & idB & uB & cB & Ht & Hid & Hu & Hc & Hamt & Hd & Hcall).
  { eexists. split; [vm_compute; right; left; reflexivity | left; reflexivity]. }
  exists cB. split; [exact Hc |].
  intros d Hin. exists idB, uB. rewrite (Hd d Hin).
  assert (Hamount : t_bridgedAmount t = 100).
  { vm_compute in Ht. apply Some_inj in Ht. rewrite <- Ht. reflexivity. }
  rewrite Hamount. reflexivity.
Defined.

(** The initiation event of [idA] observed when its row is in the record
    store. *)
Lemma rescan_is_idempotent_witness :
  store w1 !! bi_transferId evA = Some completedRow /\
  let o := Unified.processBridgeEvent cfg0 calmEnv evA w1 in
  res o = Ok tt /\
  (emitted o = [DbSelect (bi_transferId evA)] \/
   emitted o = [DbSelect (bi_transferId evA); ConsoleError "Supabase select error:"]) /\
  filter (fun a => isWrite a = true) (emitted o) = [] /\
  store (world o) !! bi_transferId evA = Some completedRow.
Proof.
  split; [vm_compute; reflexivity |].
  apply (proj1 (proj2 (proj2 (proj2 (proj2 rescan_is_idempotent))))
           cfg0 calmEnv evA w1 completedRow).
  vm_compute; reflexivity.
Defined.

(** The tick of the unified variant in which [getTransfer] throws for the
    first scanned event. *)
Lemma status_read_failure_aborts_tick_witness :
  let o := Unified.tick cfg0 flakyEnv w0 in
  eth_getTransfer flakyEnv 4 idA = None /\
  res o = Ok tt /\
  lastCheckedBlock (world o) = 1200 /\
  emitted o = [GetBlockNumber; QueryFilter KBridgeInitiated 1201 1700;
               QueryFilter KRefunded 1201 1700; DbSelect idA; GetTransfer idA;
               ConsoleError "Error polling for events:"].
Proof.
  split; [reflexivity |].
  destruct (proj1 status_read_failure_aborts_tick cfg0 flakyEnv w0 1700
              [] evA [evB] [refundA]) as (Hres & Hcur & Hem);
    try (vm_compute; first [reflexivity | exact I]).
  split; [exact Hres |]. split; [exact Hcur |]. rewrite Hem. vm_compute. reflexivity.
Defined.

(** A destination chain that rejects every payout: three attempts, waits of
    2000 ms and 4000 ms between them, none after the third. *)
Example payout_gives_up_after_three :
  emitted (Unified.payoutLoop noPayoutEnv evA st0 w0)
  = [payAction evA; failLog; SetTimeout 2000;
     payAction evA; failLog; SetTimeout 4000;
     payAction evA; failLog; allFailedLog].
Proof. vm_compute. reflexivity. Qed.

(** A quiet tick of the unified variant: both events are recorded, paid
    out and completed, and the cursor moves from 1200 to the head. *)
Example quiet_tick_advances :
  let o := Unified.tick cfg0 calmEnv w0 in
  lastCheckedBlock (world o) = 1700 /\
  option_map status (store (world o) !! idA) = Some "Completed" /\
  option_map l1_block_number (store (world o) !! idA) = Some (Some 77) /\
  filter (fun a => isPayout a = true) (emitted o)
  = [L1Payout idA alice 100; L1Payout idB bob 200].
Proof. vm_compute. repeat split; reflexivity. Qed.

(** The same tick of the minimal variant leaves the cursor where it was. *)
Example minimal_tick_keeps_cursor :
  lastCheckedBlock (world (Minimal.tick calmEnv w0)) = 1200.
Proof. vm_compute. reflexivity. Qed.

(** * Further properties *)

(** ** What never throws *)

Lemma nt_ret {A} (a : A) : neverThrows (ret a).
Proof. intros w. exact I. Qed.

Lemma nt_emit a : neverThrows (emit a).
Proof. intros w. exact I. Qed.

Lemma nt_attempt {A} (m : M A) : neverThrows (attempt m).
Proof. intros w. exact I. Qed.

Lemma nt_bind {A B} (m : M A) (k : A -> M B) :
  neverThrows m -> (forall a, neverThrows (k a)) -> neverThrows (bind m k).
Proof.
  intros Hm Hk w. specialize (Hm w). unfold returned, bind in *. cbn beta zeta.
  destruct (res (m w)) as [a|e]; [| destruct Hm]. cbn [res]. apply (Hk a).
Qed.

Lemma nt_tryCatch {A} (m : M A) (h : Err -> M A) :
  (forall e, neverThrows (h e)) -> neverThrows (tryCatch m h).
Proof.
  intros Hh w. unfold returned, tryCatch. cbn beta zeta.
  destruct (res (m w)) as [a|e] eqn:Hr; [rewrite Hr; exact I |]. cbn [res]. apply (Hh e).
Qed.

Lemma nt_select env id : neverThrows (supabase_select env id).
Proof. intros w. rewrite supabase_select_run. exact I. Qed.

Lemma nt_insert env r : neverThrows (supabase_insert env r).
Proof.
  intros w. destruct (supabase_insert_returns env r w) as [resp H].
  unfold returned. rewrite H. exact I.
Qed.

Lemma nt_update env p id : neverThrows (supabase_update env p id).
Proof.
  intros w. unfold supabase_update, returned. cbn beta zeta.
  destruct (db_error env (clock w)); exact I.
Qed.

Lemma nt_processRefund env ev : neverThrows (processRefund env ev).
Proof. intros w. rewrite processRefund_run. destruct (db_error env (clock w)); exact I. Qed.

Lemma nt_payoutFailed n : neverThrows (Unified.payoutFailed n).
Proof. intros w. rewrite payoutFailed_run. exact I. Qed.

Lemma nt_payoutLoop env event st : neverThrows (Unified.payoutLoop env event st).
Proof.
  remember (retryMeasure st) as n eqn:Hn.
  revert st Hn. induction n as [n IH] using lt_wf_ind. intros st ->.
  rewrite payoutLoop_step. fold (retrying st).
  destruct (retrying st) eqn:Hc; [| apply nt_ret].
  apply nt_bind; [apply nt_attempt |]. intros [tx | e].
  - apply nt_bind; [apply nt_attempt |]. intros [b | e].
    + eapply IH; [apply retryMeasure_confirmed, Hc | reflexivity].
    + apply nt_bind; [apply nt_payoutFailed |]. intros _.
      eapply IH; [apply retryMeasure_failed, Hc | reflexivity].
  - apply nt_bind; [apply nt_payoutFailed |]. intros _.
    eapply IH; [apply retryMeasure_failed, Hc | reflexivity].
Qed.

Lemma nt_completionHandler e : neverThrows (completionHandler e).
Proof. intros w. rewrite completionHandler_run. exact I. Qed.

Lemma nt_processPayoutCompletion cfg env id user amount blk :
  neverThrows (Unified.processPayoutCompletion cfg env id user amount blk).
Proof.
  rewrite processPayoutCompletion_parts. apply nt_tryCatch, nt_completionHandler.
Qed.

Lemma nt_payoutAndComplete cfg env ev : neverThrows (Unified.payoutAndComplete cfg env ev).
Proof.
  unfold Unified.payoutAndComplete. apply nt_bind; [apply nt_payoutLoop |].
  intros st. destruct (Unified.payoutSuccess st); [| apply nt_ret].
  destruct (Unified.payoutTx st); [| apply nt_ret].
  apply nt_tryCatch. intros e. apply nt_emit.
Qed.

Lemma nt_payoutOnce env ev : neverThrows (Minimal.payoutOnce env ev).
Proof. unfold Minimal.payoutOnce. apply nt_tryCatch. intros e. apply nt_emit. Qed.

Lemma nt_storeAndPay env onPending afterEvent ev :
  (forall e, neverThrows (onPending e)) -> neverThrows afterEvent ->
  neverThrows (storeAndPay env onPending afterEvent ev).
Proof.
  intros Hp Ha. unfold storeAndPay.
  apply nt_bind; [| intros _; exact Ha].
  apply nt_bind; [apply nt_insert |]. intros ins.
  apply nt_bind; [| intros _; apply Hp].
  destruct (error ins); [apply nt_emit | apply nt_ret].
Qed.

(** X4.  The payout step and the completion step never throw: whatever
    the chains and the record store answer, [payoutOnce], [payoutLoop],
    [processPayoutCompletion], [payoutAndComplete] and the refund body
    return, so no failure of a payout, of a completion or of a refund update
    can abort a tick. *)
Theorem payout_and_completion_never_throw :
  (forall env ev w, returned (Minimal.payoutOnce env ev w)) /\
  (forall env ev st w, returned (Unified.payoutLoop env ev st w)) /\
  (forall cfg env id user amount blk w,
      res (Unified.processPayoutCompletion cfg env id user amount blk w) = Ok tt) /\
  (forall cfg env ev w, res (Unified.payoutAndComplete cfg env ev w) = Ok tt) /\
  (forall env ev w, res (processRefund env ev w) = Ok tt) /\
  (forall env evs w, res (forEach (processRefund env) evs w) = Ok tt).
Proof.
  assert (Hunit : forall (o : Out unit), returned o -> res o = Ok tt).
  { intros o. unfold returned. destruct (res o) as [[]|]; [reflexivity | intros []]. }
  split; [intros; apply nt_payoutOnce |].
  split; [intros; apply nt_payoutLoop |].
  split; [intros; apply Hunit, nt_processPayoutCompletion |].
  split; [intros; apply Hunit, nt_payoutAndComplete |].
  split; [intros; apply Hunit, nt_processRefund |].
  intros env evs w. apply Hunit. revert w.
  induction evs as [|ev evs IH]; intros w; [exact I |].
  cbn [forEach]. apply nt_bind; [apply nt_processRefund | intros _ w'; apply IH].
Qed.

(** ** The body of the initiation loop, case by case *)

Lemma processBridgeEventWith_run env onPending afterEvent ev w :
  let id := bi_transferId ev in
  let w1 := bump (withStore (arrive env w) w) in
  processBridgeEventWith env onPending afterEvent ev w =
  match db_error env (clock w) with
  | Some _ => mkOut (Ok tt) w1 [DbSelect id; ConsoleError "Supabase select error:"]
  | None =>
      match arrive env w !! id with
      | Some _ => mkOut (Ok tt) w1 [DbSelect id]
      | None =>
          match eth_getTransfer env (S (clock w)) id with
          | None => mkOut (Throw (RpcError "getTransfer")) (bump w1)
                          [DbSelect id; GetTransfer id]
          | Some t =>
              if isStatus 0 (t_status t)
              then prepend [DbSelect id; GetTransfer id]
                           (storeAndPay env onPending afterEvent ev (bump w1))
              else prepend [DbSelect id; GetTransfer id]
                           (bind (ret tt) (fun _ => afterEvent) (bump w1))
          end
      end
  end.
Proof.
  intros id w1. unfold processBridgeEventWith. cbv zeta. fold id.
  erewrite bind_run_ok by apply supabase_select_run. fold w1.
  destruct (db_error env (clock w)) as [e|]; cbn [error data]; [reflexivity |].
  destruct (arrive env w !! id) as [r|]; cbn [nonEmpty length Nat.eqb negb];
    [reflexivity |].
  destruct (eth_getTransfer env (S (clock w)) id) as [t|] eqn:Ht.
  - erewrite bind_run_ok
      by (rewrite getTransfer_run; cbn [clock bump withStore w1]; rewrite Ht; reflexivity).
    rewrite prepend_prepend. cbn [app].
    destruct (isStatus 0 (t_status t)); reflexivity.
  - erewrite bind_run_thrown; [reflexivity |].
    rewrite getTransfer_run. cbn [clock bump withStore w1]. rewrite Ht. reflexivity.
Qed.

(** X1.  An initiation event that has no row and whose transfer is not
    Pending on the source chain is left alone: after the existence check
    and the status read the body returns, with no insert and no payout (the
    unified variant then waits its second); the record store is as the
    existence check found it. *)
Theorem non_pending_event_is_skipped :
  (forall env ev w t,
      db_error env (clock w) = None ->
      arrive env w !! bi_transferId ev = None ->
      eth_getTransfer env (S (clock w)) (bi_transferId ev) = Some t ->
      isStatus 0 (t_status t) = false ->
      Minimal.processBridgeEvent env ev w
      = mkOut (Ok tt) (bump (bump (withStore (arrive env w) w)))
              [DbSelect (bi_transferId ev); GetTransfer (bi_transferId ev)]) /\
  (forall cfg env ev w t,
      db_error env (clock w) = None ->
      arrive env w !! bi_transferId ev = None ->
      eth_getTransfer env (S (clock w)) (bi_transferId ev) = Some t ->
      isStatus 0 (t_status t) = false ->
      Unified.processBridgeEvent cfg env ev w
      = mkOut (Ok tt) (bump (bump (withStore (arrive env w) w)))
              [DbSelect (bi_transferId ev); GetTransfer (bi_transferId ev);
               SetTimeout 1000]).
Proof.
  split.
  - intros env ev w t Hdb Habs Ht Hst. unfold Minimal.processBridgeEvent.
    rewrite processBridgeEventWith_run. cbv zeta. rewrite Hdb, Habs, Ht, Hst. reflexivity.
  - intros cfg env ev w t Hdb Habs Ht Hst. unfold Unified.processBridgeEvent.
    rewrite processBridgeEventWith_run. cbv zeta. rewrite Hdb, Habs, Ht, Hst. reflexivity.
Qed.

Lemma body_throws_only_at_getTransfer env onPending afterEvent ev w e :
  (forall x, neverThrows (onPending x)) -> neverThrows afterEvent ->
  res (processBridgeEventWith env onPending afterEvent ev w) = Throw e <->
  e = RpcError "getTransfer" /\
  db_error env (clock w) = None /\
  arrive env w !! bi_transferId ev = None /\
  eth_getTransfer env (S (clock w)) (bi_transferId ev) = None.
Proof.
  intros Hp Ha. rewrite processBridgeEventWith_run. cbv zeta.
  destruct (db_error env (clock w)) as [x|];
    [split; [discriminate | intros (_ & H & _); discriminate] |].
  destruct (arrive env w !! bi_transferId ev) as [r|];
    [split; [discriminate | intros (_ & _ & H & _); discriminate] |].
  destruct (eth_getTransfer env (S (clock w)) (bi_transferId ev)) as [t|].
  - split; [| intros (_ & _ & _ & H); discriminate].
    intros Hthrow. exfalso.
    destruct (isStatus 0 (t_status t)); cbn [prepend res] in Hthrow.
    + pose proof (nt_storeAndPay env onPending afterEvent ev Hp Ha
                    (bump (bump (withStore (arrive env w) w)))) as Hr.
      unfold returned in Hr. rewrite Hthrow in Hr. exact Hr.
    + pose proof (nt_bind (ret tt) (fun _ => afterEvent) (nt_ret tt) (fun _ => Ha)
                    (bump (bump (withStore (arrive env w) w)))) as Hr.
      unfold returned in Hr. rewrite Hthrow in Hr. exact Hr.
  - cbn [res]. split.
    + intros H. apply (f_equal (fun r => match r with Throw x => x | Ok _ => e end)) in H.
      cbn in H. subst e. repeat split; reflexivity.
    + intros (-> & _). reflexivity.
Qed.

(** X3.  The body of the initiation loop throws in one case only, in
    either variant: the existence check answered without error and found no
    row, and [getTransfer] was rejected.  The error is then the rejection of
    [getTransfer]; no other call of the body can abort a tick. *)
Theorem event_body_throws_only_at_status_read :
  (forall env ev w e,
      res (Minimal.processBridgeEvent env ev w) = Throw e <->
      e = RpcError "getTransfer" /\
      db_error env (clock w) = None /\
      arrive env w !! bi_transferId ev = None /\
      eth_getTransfer env (S (clock w)) (bi_transferId ev) = None) /\
  (forall cfg env ev w e,
      res (Unified.processBridgeEvent cfg env ev w) = Throw e <->
      e = RpcError "getTransfer" /\
      db_error env (clock w) = None /\
      arrive env w !! bi_transferId ev = None /\
      eth_getTransfer env (S (clock w)) (bi_transferId ev) = None).
Proof.
  split.
  - intros env ev w e. apply body_throws_only_at_getTransfer.
    + intros x. apply nt_payoutOnce.
    + apply nt_ret.
  - intros cfg env ev w e. apply body_throws_only_at_getTransfer.
    + intros x. apply nt_payoutAndComplete.
    + apply nt_emit.
Qed.



(** ** The completion step, case by case *)

Lemma pending_excludes_others x :
  isStatus 0 x = true ->
  isStatus 1 x = false /\ isStatus 2 x = false /\
  negb (strictEq x (BigInt 0)) && negb (strictEq x (Number 0)) = false.
Proof.
  unfold isStatus. destruct x as [z | z]; cbn; rewrite ?orb_false_r;
    intros H; apply Z.eqb_eq in H; subst z; repeat split; reflexivity.
Qed.

Lemma not_pending_skips x :
  isStatus 0 x = false ->
  (if isStatus 1 x then true
   else if isStatus 2 x then true
        else negb (strictEq x (BigInt 0)) && negb (strictEq x (Number 0))) = true.
Proof.
  unfold isStatus. intros H. apply orb_false_elim in H as [Hb Hn]. rewrite Hb, Hn.
  destruct (strictEq x (BigInt 1) || strictEq x (Number 1)); [reflexivity |].
  destruct (strictEq x (BigInt 2) || strictEq x (Number 2)); reflexivity.
Qed.

Lemma completionGuarded_run env id user amount blk signature w :
  completionGuarded env id user amount blk signature w =
  let call := L2Complete id [signature] [AUTHORIZED_SIGNER] in
  let p := Unified.completedPatch blk signature in
  match eth_getTransfer env (clock w) id with
  | None => mkOut (Throw (RpcError "getTransfer")) (bump w) [GetTransfer id]
  | Some t2 =>
      if isStatus 0 (t_status t2) then
        match eth_complete env (S (clock w)) with
        | None => mkOut (Throw (RpcError "complete")) (bump (bump w))
                        [GetTransfer id; call; ConsoleError "Error calling complete on L2:"]
        | Some tx =>
            match eth_completeWait env (S (S (clock w))) with
            | None => mkOut (Throw (RpcError "wait")) (bump (bump (bump w)))
                            [GetTransfer id; call; L2Wait tx;
                             ConsoleError "Error calling complete on L2:"]
            | Some _ =>
                let w3 := bump (bump (bump w)) in
                match db_error env (S (S (S (clock w)))) with
                | Some e =>
                    mkOut (Throw (DbError e)) (bump (withStore (arrive env w3) w3))
                          [GetTransfer id; call; L2Wait tx; DbUpdate id p false;
                           ConsoleError "Error updating Supabase completion data:";
                           ConsoleError "Error updating Supabase completion data:"]
                | None =>
                    mkOut (Ok tt)
                          (bump (withStore
                                   (match arrive env w3 !! id with
                                    | Some r => <[id := applyPatch p r]> (arrive env w3)
                                    | None => arrive env w3
                                    end) w3))
                          [GetTransfer id; call; L2Wait tx; DbUpdate id p true]
                end
            end
        end
      else mkOut (Ok tt) (bump w) [GetTransfer id]
  end.
Proof.
  cbv zeta. unfold completionGuarded.
  destruct (eth_getTransfer env (clock w) id) as [t2|] eqn:Ht.
  2:{ erewrite bind_run_thrown; [reflexivity |]. rewrite getTransfer_run, Ht. reflexivity. }
  erewrite bind_run_ok by (rewrite getTransfer_run, Ht; reflexivity).
  destruct (isStatus 0 (t_status t2)) eqn:Hst.
  2:{ pose proof (not_pending_skips _ Hst) as Hskip.
      destruct (isStatus 1 (t_status t2)); [reflexivity |].
      destruct (isStatus 2 (t_status t2)); [reflexivity |].
      rewrite Hskip. reflexivity. }
  destruct (pending_excludes_others _ Hst) as (H1 & H2 & H3). rewrite H1, H2, H3.
  destruct (eth_complete env (S (clock w))) as [tx|] eqn:Hc.
  2:{ erewrite bind_run_thrown; [reflexivity |].
      rewrite callCompleteOnL2_run. cbv zeta. cbn [clock bump]. rewrite Hc. reflexivity. }
  destruct (eth_completeWait env (S (S (clock w)))) as [[]|] eqn:Hw.
  2:{ erewrite bind_run_thrown; [reflexivity |].
      rewrite callCompleteOnL2_run. cbv zeta. cbn [clock bump]. rewrite Hc, Hw.
      reflexivity. }
  erewrite bind_run_ok
    by (rewrite callCompleteOnL2_run; cbv zeta; cbn [clock bump]; rewrite Hc, Hw;
        reflexivity).
  rewrite updateSupabaseComplete_run. cbv zeta. cbn [clock bump].
  destruct (db_error env (S (S (S (clock w))))); reflexivity.
Qed.

Lemma processPayoutCompletion_run cfg env id user amount blk w :
  Unified.processPayoutCompletion cfg env id user amount blk w =
  match eth_getTransfer env (clock w) id with
  | None => mkOut (Ok tt) (bump w) (GetTransfer id :: completionLogs)
  | Some t1 =>
      match Unified.digestInput id (t_user t1) (t_bridgedAmount t1) (L2_ADDRESS cfg) with
      | None => mkOut (Ok tt) (bump w)
                      (GetTransfer id :: ConsoleError "Error signing message:"
                                      :: completionLogs)
      | Some packed =>
          let signature := wallet_signMessage cfg (SIGNER_KEY cfg) (keccak256 cfg packed) in
          let g := completionGuarded env id user amount blk signature (bump w) in
          mkOut (Ok tt) (world g)
                (GetTransfer id :: SignMessage (keccak256 cfg packed)
                   :: emitted g ++ match res g with
                                   | Ok _ => []
                                   | Throw _ => completionLogs
                                   end)
      end
  end.
Proof.
  rewrite processPayoutCompletion_parts.
  destruct (eth_getTransfer env (clock w) id) as [t1|] eqn:Ht.
  2:{ erewrite tryCatch_run_thrown
        by (erewrite bind_run_thrown by (rewrite getTransfer_run, Ht; reflexivity);
            reflexivity).
      reflexivity. }
  destruct (Unified.digestInput id (t_user t1) (t_bridgedAmount t1) (L2_ADDRESS cfg))
    as [packed|] eqn:Hp.
  2:{ erewrite tryCatch_run_thrown.
      2:{ erewrite bind_run_ok by (rewrite getTransfer_run, Ht; reflexivity).
          erewrite bind_run_thrown by (rewrite signMessage_run, Hp; reflexivity).
          reflexivity. }
      reflexivity. }
  cbv zeta.
  set (signature := wallet_signMessage cfg (SIGNER_KEY cfg) (keccak256 cfg packed)).
  set (g := completionGuarded env id user amount blk signature (bump w)).
  assert (Hbody : (transfer <- getTransfer env id;;
                   signature0 <- Unified.signMessage cfg id (t_user transfer)
                                   (t_bridgedAmount transfer) (L2_ADDRESS cfg);;
                   completionGuarded env id user amount blk signature0) w
                  = prepend [GetTransfer id; SignMessage (keccak256 cfg packed)] g).
  { erewrite bind_run_ok by (rewrite getTransfer_run, Ht; reflexivity).
    erewrite bind_run_ok by (rewrite signMessage_run, Hp; reflexivity).
    rewrite prepend_prepend. reflexivity. }
  unfold tryCatch. cbn beta zeta. rewrite Hbody. unfold prepend.
  cbn [res world emitted app].
  destruct (res g) as [[]|e] eqn:Hg.
  - rewrite app_nil_r. reflexivity.
  - rewrite completionHandler_run. cbn [res world emitted app]. reflexivity.
Qed.

(** X5.  The completion step writes to the record store only after the
    [complete] transaction was sent and its confirmation awaited: an update
    in its trace is for the transfer in hand, carries status [Completed],
    the payout's block number and the signature that was sent, and comes
    directly after the [complete] call and its wait, which both answered. *)
Theorem completion_updates_after_confirmed_complete cfg env id user amount blk w i p ok :
  let o := Unified.processPayoutCompletion cfg env id user amount blk w in
  In (DbUpdate i p ok) (emitted o) ->
  exists t1 packed tx post,
    eth_getTransfer env (clock w) id = Some t1 /\
    Unified.digestInput id (t_user t1) (t_bridgedAmount t1) (L2_ADDRESS cfg) = Some packed /\
    let signature := wallet_signMessage cfg (SIGNER_KEY cfg) (keccak256 cfg packed) in
    i = id /\
    p = {| p_status := Some "Completed"; p_l1_block_number := blk;
           p_signature1 := Some signature |} /\
    eth_complete env (S (S (clock w))) = Some tx /\
    eth_completeWait env (S (S (S (clock w)))) = Some tt /\
    emitted o = [GetTransfer id; SignMessage (keccak256 cfg packed); GetTransfer id;
                 L2Complete id [signature] [AUTHORIZED_SIGNER]; L2Wait tx;
                 DbUpdate id p ok] ++ post.
Proof.
  intros o. subst o. rewrite processPayoutCompletion_run.
  destruct (eth_getTransfer env (clock w) id) as [t1|] eqn:Ht.
  2:{ cbn. intros H. repeat (destruct H as [H | H]; [discriminate H |]). destruct H. }
  destruct (Unified.digestInput id (t_user t1) (t_bridgedAmount t1) (L2_ADDRESS cfg))
    as [packed|] eqn:Hp.
  2:{ cbn. intros H. repeat (destruct H as [H | H]; [discriminate H |]). destruct H. }
  cbv zeta. rewrite completionGuarded_run. cbv zeta. cbn [clock bump].
  set (signature := wallet_signMessage cfg (SIGNER_KEY cfg) (keccak256 cfg packed)).
  destruct (eth_getTransfer env (S (clock w)) id) as [t2|].
  2:{ cbn. intros H. repeat (destruct H as [H | H]; [discriminate H |]). destruct H. }
  destruct (isStatus 0 (t_status t2)).
  2:{ cbn. intros H. repeat (destruct H as [H | H]; [discriminate H |]). destruct H. }
  destruct (eth_complete env (S (S (clock w)))) as [tx|].
  2:{ cbn. intros H. repeat (destruct H as [H | H]; [discriminate H |]). destruct H. }
  destruct (eth_completeWait env (S (S (S (clock w))))) as [[]|].
  2:{ cbn. intros H. repeat (destruct H as [H | H]; [discriminate H |]). destruct H. }
  destruct (db_error env (S (S (S (S (clock w)))))) as [e|]; cbn [res world emitted app];
    intros H; cbn in H;
    repeat (destruct H as [H | H]; [first [discriminate H | idtac] |]);
    try (destruct H; fail).
  - inversion H; subst. exists t1, packed, tx. eexists.
    cbv zeta. repeat split; first [assumption | reflexivity].
  - inversion H; subst. exists t1, packed, tx. eexists.
    cbv zeta. repeat split; first [assumption | reflexivity].
Qed.


(** ** The payout loop and the completion it starts *)

Lemma tryCatch_returned {A} (m : M A) h w : returned (m w) -> tryCatch m h w = m w.
Proof.
  unfold returned, tryCatch. cbn beta zeta. destruct (res (m w)); [reflexivity | intros []].
Qed.



(** X7.  A payout that was sent but whose confirmation wait failed is
    submitted again: the unified variant logs the failure, waits 2000 ms and
    calls [payout] for the same transfer a second time, although the first
    transaction may still be mined.  The minimal variant makes one
    submission and none after a failed wait. *)
Theorem unconfirmed_payout_is_resubmitted :
  (forall env ev w tx,
      eth_payout env (clock w) = Some tx ->
      eth_payoutWait env (S (clock w)) = None ->
      exists rest,
        emitted (Unified.payoutLoop env ev st0 w)
        = payAction ev :: L1Wait tx :: failLog :: SetTimeout 2000 :: payAction ev :: rest) /\
  (forall env ev w tx,
      eth_payout env (clock w) = Some tx ->
      eth_payoutWait env (S (clock w)) = None ->
      Minimal.payoutOnce env ev w
      = mkOut (Ok tt) (bump (bump w))
              [payAction ev; L1Wait tx; ConsoleError "Error processing payout:"]).
Proof.
  split.
  - intros env ev w tx Hp Hw.
    rewrite payoutLoop_iter by reflexivity. rewrite Hp, Hw.
    rewrite payoutLoop_iter by reflexivity.
    destruct (eth_payout env (clock (bump (bump w)))) as [tx'|];
      [destruct (eth_payoutWait env (S (clock (bump (bump w))))) as [b|] |];
      eexists; reflexivity.
  - intros env ev w tx Hp Hw. unfold Minimal.payoutOnce.
    erewrite tryCatch_run_thrown.
    2:{ erewrite bind_run_ok by (rewrite rpc_run, Hp; reflexivity).
        erewrite bind_run_thrown by (rewrite rpc_run; cbn [clock bump]; rewrite Hw;
                                     reflexivity).
        reflexivity. }
    reflexivity.
Qed.

(** ** A new transfer, end to end *)

Lemma arrive_quiet env w : db_concurrent env (clock w) = None -> arrive env w = store w.
Proof. intros H. unfold arrive. rewrite H. reflexivity. Qed.

(** The row of a transfer once it was inserted, paid out at block [b] and
    completed with [signature]. *)
Lemma completed_pendingRow ev b signature :
  applyPatch (Unified.completedPatch (Some b) signature)
             (pendingRow ev (bi_blockNumber ev))
  = {| tx_id := bi_transferId ev; address := bi_user ev;
       bridged_amount := toString (bi_bridgedAmount ev); status := "Completed";
       block_number := bi_blockNumber ev; timestamp := toString (bi_timestamp ev);
       l1_block_number := Some b; signature1 := Some signature |}.
Proof. reflexivity. Qed.

(** X8.  A new Pending transfer on a day when every call answers: the
    body makes, in this order, the existence check, the status read, the
    insert of the pending row, one payout and its wait, the two reads and
    the signature of the completion, the [complete] call and its wait, and
    the update of the row, then waits one second.  The record store ends
    with the event's row, status [Completed], the block number of the payout
    receipt and the signature that was sent; no other row is touched. *)
Theorem new_transfer_end_to_end cfg env ev w t0 ptx b t1 packed t2 ctx :
  let id := bi_transferId ev in
  let c := clock w in
  (forall n, db_error env n = None) ->
  (forall n, db_concurrent env n = None) ->
  store w !! id = None ->
  eth_getTransfer env (S c) id = Some t0 ->
  isStatus 0 (t_status t0) = true ->
  eth_payout env (S (S (S c))) = Some ptx ->
  eth_payoutWait env (S (S (S (S c)))) = Some b ->
  eth_getTransfer env (S (S (S (S (S c))))) id = Some t1 ->
  Unified.digestInput id (t_user t1) (t_bridgedAmount t1) (L2_ADDRESS cfg) = Some packed ->
  eth_getTransfer env (S (S (S (S (S (S c)))))) id = Some t2 ->
  isStatus 0 (t_status t2) = true ->
  eth_complete env (S (S (S (S (S (S (S c))))))) = Some ctx ->
  eth_completeWait env (S (S (S (S (S (S (S (S c)))))))) = Some tt ->
  let signature := wallet_signMessage cfg (SIGNER_KEY cfg) (keccak256 cfg packed) in
  let o := Unified.processBridgeEvent cfg env ev w in
  res o = Ok tt /\
  emitted o
  = [DbSelect id; GetTransfer id; DbInsert (pendingRow ev (bi_blockNumber ev)) true;
     L1Payout id (bi_user ev) (bi_bridgedAmount ev); L1Wait ptx;
     GetTransfer id; SignMessage (keccak256 cfg packed); GetTransfer id;
     L2Complete id [signature] [AUTHORIZED_SIGNER]; L2Wait ctx;
     DbUpdate id (Unified.completedPatch (Some b) signature) true;
     SetTimeout 1000] /\
  store (world o)
  = <[id := {| tx_id := id; address := bi_user ev;
               bridged_amount := toString (bi_bridgedAmount ev); status := "Completed";
               block_number := bi_blockNumber ev;
               timestamp := toString (bi_timestamp ev);
               l1_block_number := Some b; signature1 := Some signature |}]> (store w).
Proof.
  intros id c Hdb Hconc Habs Ht0 Hst0 Hpay Hwait Ht1 Hpacked Ht2 Hst2 Hcomplete Hcwait
         signature o.
  subst o. unfold Unified.processBridgeEvent.
  rewrite processBridgeEventWith_run. cbv zeta. fold id. fold c.
  rewrite Hdb, (arrive_quiet env w (Hconc _)), Habs, Ht0, Hst0.
  set (w2 := bump (bump (withStore (store w) w))).
  (* the insert *)
  set (row := pendingRow ev (bi_blockNumber ev)).
  assert (Hins : supabase_insert env row w2
                 = mkOut (Ok {| data := None; error := None |})
                         (bump (withStore (<[id := row]> (store w)) w2))
                         [DbInsert row true]).
  { unfold supabase_insert. cbn beta zeta.
    rewrite Hdb, (arrive_quiet env w2 (Hconc _)).
    change (tx_id row) with id. change (store w2) with (store w). rewrite Habs.
    reflexivity. }
  set (w3 := bump (withStore (<[id := row]> (store w)) w2)) in *.
  (* the payout loop: one attempt, confirmed *)
  assert (Hloop : Unified.payoutLoop env ev st0 w3
                  = mkOut (Ok (confirmedState st0 ptx b)) (bump (bump w3))
                          [payAction ev; L1Wait ptx]).
  { rewrite payoutLoop_iter by reflexivity.
    change (clock w3) with (S (S (S c))). rewrite Hpay, Hwait.
    rewrite payoutLoop_done by reflexivity. reflexivity. }
  set (w5 := bump (bump w3)) in *.
  (* the completion *)
  assert (Hcompl : Unified.processPayoutCompletion cfg env id (bi_user ev)
                     (bi_bridgedAmount ev) (Some b) w5
                   = mkOut (Ok tt)
                       (bump (withStore
                                (<[id := applyPatch (Unified.completedPatch (Some b) signature)
                                                    row]> (<[id := row]> (store w)))
                                (bump (bump (bump (bump w5))))))
                       [GetTransfer id; SignMessage (keccak256 cfg packed); GetTransfer id;
                        L2Complete id [signature] [AUTHORIZED_SIGNER]; L2Wait ctx;
                        DbUpdate id (Unified.completedPatch (Some b) signature) true]).
  { rewrite processPayoutCompletion_run.
    change (clock w5) with (S (S (S (S (S c))))). rewrite Ht1, Hpacked. cbv zeta.
    fold signature. rewrite completionGuarded_run. cbv zeta.
    change (clock (bump w5)) with (S (S (S (S (S (S c)))))).
    rewrite Ht2, Hst2, Hcomplete, Hcwait, Hdb.
    rewrite (arrive_quiet env _ (Hconc _)).
    change (store (bump (bump (bump (bump w5))))) with (<[id := row]> (store w)).
    rewrite lookup_insert_eq. cbn [res world emitted app]. reflexivity. }
  assert (Hpc : Unified.payoutAndComplete cfg env ev w3
                = prepend [payAction ev; L1Wait ptx]
                    (Unified.processPayoutCompletion cfg env id (bi_user ev)
                       (bi_bridgedAmount ev) (Some b) w5)).
  { unfold Unified.payoutAndComplete. fold st0.
    erewrite bind_run_ok by exact Hloop.
    cbn [confirmedState Unified.payoutSuccess Unified.payoutTx Unified.blockNumber].
    rewrite tryCatch_returned by apply nt_processPayoutCompletion. reflexivity. }
  unfold storeAndPay. fold row.
  erewrite (bind_run_ok (bind (supabase_insert env row) _)).
  2:{ erewrite bind_run_ok by exact Hins. cbn [error].
      erewrite (bind_run_ok (ret tt)) by reflexivity.
      rewrite Hpc, Hcompl. unfold prepend. cbn [res world emitted app]. reflexivity. }
  unfold prepend, sleep, emit. cbn [res world emitted app store bump withStore].
  split; [reflexivity |]. split; [reflexivity |].
  rewrite insert_insert_eq. reflexivity.
Qed.


(** ** Relations that every step keeps *)

Section Obeys.

Variable R : World -> list Action -> World -> Prop.
Hypothesis R_refl : forall w, R w [] w.
Hypothesis R_trans :
  forall w1 t1 w2 t2 w3, R w1 t1 w2 -> R w2 t2 w3 -> R w1 (t1 ++ t2) w3.

Lemma ob_ret {A} (a : A) : obeys R (ret a).
Proof. intros w. apply R_refl. Qed.

Lemma ob_throw {A} e : obeys R (@throw A e).
Proof. intros w. apply R_refl. Qed.

Lemma ob_getLast : obeys R getLastCheckedBlock.
Proof. intros w. apply R_refl. Qed.

Lemma ob_bind {A B} (m : M A) (k : A -> M B) :
  obeys R m -> (forall a, obeys R (k a)) -> obeys R (bind m k).
Proof.
  intros Hm Hk w. unfold bind. cbn beta zeta.
  destruct (res (m w)) as [a|e]; cbn [world emitted].
  - eapply R_trans; [apply Hm | apply Hk].
  - apply Hm.
Qed.

Lemma ob_tryCatch {A} (m : M A) (h : Err -> M A) :
  obeys R m -> (forall e, obeys R (h e)) -> obeys R (tryCatch m h).
Proof.
  intros Hm Hh w. unfold tryCatch. cbn beta zeta.
  destruct (res (m w)) as [a|e]; cbn [world emitted].
  - apply Hm.
  - eapply R_trans; [apply Hm | apply Hh].
Qed.

Lemma ob_attempt {A} (m : M A) : obeys R m -> obeys R (attempt m).
Proof. intros Hm w. apply Hm. Qed.

Lemma ob_forEach {A} (body : A -> M unit) xs :
  (forall x, obeys R (body x)) -> obeys R (forEach body xs).
Proof.
  intros Hb. induction xs as [|x xs IH]; cbn.
  - apply ob_ret.
  - apply ob_bind; [apply Hb | intros _; exact IH].
Qed.

Lemma ob_queryAll {E} (q : Z -> Z -> M (list E)) ranges ev :
  (forall a b, obeys R (q a b)) -> obeys R (queryAll q ranges ev).
Proof.
  intros Hq. revert ev. induction ranges as [|[a b] rest IH]; intros ev; cbn.
  - apply ob_ret.
  - apply ob_bind; [apply Hq | intros c; apply IH].
Qed.

Lemma ob_queryLoop {E} (q : Z -> Z -> M (list E)) cur from ev :
  (forall a b, obeys R (q a b)) -> obeys R (queryLoop q cur from ev).
Proof. intros Hq w. rewrite queryLoop_queryAll. apply ob_queryAll, Hq. Qed.

Lemma ob_payoutLoop env event st :
  obeys R (rpc (payAction event) "payout" (eth_payout env)) ->
  (forall tx, obeys R (rpc (L1Wait tx) "wait" (eth_payoutWait env))) ->
  (forall n, obeys R (Unified.payoutFailed n)) ->
  obeys R (Unified.payoutLoop env event st).
Proof.
  intros Hpay Hwait Hfail.
  remember (retryMeasure st) as n eqn:Hn.
  revert st Hn. induction n as [n IH] using lt_wf_ind. intros st ->.
  rewrite payoutLoop_step. fold (retrying st).
  destruct (retrying st) eqn:Hc; [| apply ob_ret].
  apply ob_bind; [apply ob_attempt, Hpay |]. intros [tx | e].
  - apply ob_bind; [apply ob_attempt, Hwait |]. intros [b | e].
    + eapply IH; [apply retryMeasure_confirmed, Hc | reflexivity].
    + apply ob_bind; [apply Hfail |]. intros _.
      eapply IH; [apply retryMeasure_failed, Hc | reflexivity].
  - apply ob_bind; [apply Hfail |]. intros _.
    eapply IH; [apply retryMeasure_failed, Hc | reflexivity].
Qed.

End Obeys.

(** ** Rows are kept *)

Lemma evolves_refl r : evolves r r.
Proof. unfold evolves. repeat split; auto. Qed.

Lemma evolves_trans r1 r2 r3 : evolves r1 r2 -> evolves r2 r3 -> evolves r1 r3.
Proof.
  unfold evolves. intros (A1 & B1 & C1 & D1 & E1 & S1) (A2 & B2 & C2 & D2 & E2 & S2).
  repeat split; try congruence.
  destruct S2 as [S2 | S2]; [rewrite S2; exact S1 | right; exact S2].
Qed.

Lemma rowsKept_refl w : rowsKept w [] w.
Proof. intros k r Hr. exists r. split; [exact Hr | apply evolves_refl]. Qed.

Lemma rowsKept_trans w1 t1 w2 t2 w3 :
  rowsKept w1 t1 w2 -> rowsKept w2 t2 w3 -> rowsKept w1 (t1 ++ t2) w3.
Proof.
  intros H1 H2 k r Hr. destruct (H1 k r Hr) as (r2 & Hr2 & E1).
  destruct (H2 k r2 Hr2) as (r3 & Hr3 & E2).
  exists r3. split; [exact Hr3 | eapply evolves_trans; eassumption].
Qed.

Lemma rowsKept_same_store w t w' : store w' = store w -> rowsKept w t w'.
Proof.
  intros Hs k r Hr. exists r. rewrite Hs. split; [exact Hr | apply evolves_refl].
Qed.

Lemma rows_emit a : obeys rowsKept (emit a).
Proof. intros w. apply rowsKept_same_store. reflexivity. Qed.

Lemma rows_rpc {A} a method (answer : nat -> option A) : obeys rowsKept (rpc a method answer).
Proof. intros w. rewrite rpc_run. apply rowsKept_same_store. reflexivity. Qed.

Lemma rows_setLast b : obeys rowsKept (setLastCheckedBlock b).
Proof. intros w. apply rowsKept_same_store. reflexivity. Qed.

Lemma rowsKept_arrive env w t :
  rowsKept w t (bump (withStore (arrive env w) w)).
Proof.
  intros k r Hr. exists r. split; [| apply evolves_refl].
  cbn. apply arrive_lookup_Some, Hr.
Qed.

Lemma rows_select env id : obeys rowsKept (supabase_select env id).
Proof. intros w. rewrite supabase_select_run. apply rowsKept_arrive. Qed.

Lemma rows_insert env r : obeys rowsKept (supabase_insert env r).
Proof.
  intros w. unfold supabase_insert. cbn beta zeta.
  destruct (db_error env (clock w)); [apply rowsKept_arrive |].
  destruct (arrive env w !! tx_id r) eqn:Hr; [apply rowsKept_arrive |].
  intros k r0 Hk. exists r0. split; [| apply evolves_refl]. cbn.
  apply (arrive_lookup_Some env) in Hk.
  rewrite lookup_insert_ne; [exact Hk |]. intros Heq. rewrite Heq in Hr. congruence.
Qed.

Lemma evolves_patch p r :
  (p_status p = Some "Completed" \/ p_status p = Some "refunded") ->
  evolves r (applyPatch p r).
Proof.
  intros Hp. unfold evolves, applyPatch. cbn.
  repeat split; try reflexivity.
  destruct Hp as [-> | ->]; cbn; auto.
Qed.

Lemma rows_update env p id :
  (p_status p = Some "Completed" \/ p_status p = Some "refunded") ->
  obeys rowsKept (supabase_update env p id).
Proof.
  intros Hp w. unfold supabase_update. cbn beta zeta.
  destruct (db_error env (clock w)); [apply rowsKept_arrive |].
  intros k r Hk. apply (arrive_lookup_Some env) in Hk. cbn.
  destruct (arrive env w !! id) as [r0|] eqn:Hid;
    [| exists r; split; [exact Hk | apply evolves_refl]].
  destruct (decide (id = k)) as [-> | Hne].
  - exists (applyPatch p r0). rewrite lookup_insert_eq. split; [reflexivity |].
    assert (r0 = r) by congruence. subst r0. apply evolves_patch, Hp.
  - exists r. rewrite lookup_insert_ne by exact Hne.
    split; [exact Hk | apply evolves_refl].
Qed.

Create HintDb rows.
#[local] Hint Resolve rows_emit rows_rpc rows_setLast rows_select rows_insert : rows.

Ltac rows_step :=
  first
    [ solve [eauto with rows]
    | lazymatch goal with
      | |- obeys _ (ret _) => apply (ob_ret rowsKept rowsKept_refl)
      | |- obeys _ (throw _) => apply (ob_throw rowsKept rowsKept_refl)
      | |- obeys _ getLastCheckedBlock => apply (ob_getLast rowsKept rowsKept_refl)
      | |- obeys _ (attempt _) => apply (ob_attempt rowsKept)
      | |- obeys _ (bind _ _) => apply (ob_bind rowsKept rowsKept_trans); [| intros ?]
      | |- obeys _ (tryCatch _ _) =>
          apply (ob_tryCatch rowsKept rowsKept_trans); [| intros ?]
      | |- obeys _ (forEach _ _) =>
          apply (ob_forEach rowsKept rowsKept_refl rowsKept_trans); intros ?
      | |- obeys _ (queryLoop _ _ _ _) =>
          apply (ob_queryLoop rowsKept rowsKept_refl rowsKept_trans); intros ? ?
      | |- obeys _ (supabase_update _ _ _) =>
          apply rows_update; first [left; reflexivity | right; reflexivity]
      | |- obeys _ (match ?x with _ => _ end) => destruct x
      | |- obeys _ (if ?x then _ else _) => destruct x
      end ].

Ltac rows := repeat rows_step.

Lemma rows_processRefund env ev : obeys rowsKept (processRefund env ev).
Proof. unfold processRefund, consoleError. rows. Qed.

Lemma rows_processBridgeEventWith env onPending afterEvent ev :
  (forall e, obeys rowsKept (onPending e)) -> obeys rowsKept afterEvent ->
  obeys rowsKept (processBridgeEventWith env onPending afterEvent ev).
Proof.
  intros Hp Ha. unfold processBridgeEventWith, getTransfer, consoleError. rows.
Qed.

Lemma rows_payoutOnce env ev : obeys rowsKept (Minimal.payoutOnce env ev).
Proof. unfold Minimal.payoutOnce, consoleError. rows. Qed.

Lemma rows_payoutFailed n : obeys rowsKept (Unified.payoutFailed n).
Proof. unfold Unified.payoutFailed, consoleError, sleep. rows. Qed.

Lemma rows_payoutLoop env ev st : obeys rowsKept (Unified.payoutLoop env ev st).
Proof.
  apply (ob_payoutLoop rowsKept rowsKept_refl rowsKept_trans).
  - apply rows_rpc.
  - intros tx. apply rows_rpc.
  - apply rows_payoutFailed.
Qed.

Lemma rows_processPayoutCompletion cfg env id user amount b :
  obeys rowsKept (Unified.processPayoutCompletion cfg env id user amount b).
Proof.
  unfold Unified.processPayoutCompletion, Unified.signMessage, Unified.callCompleteOnL2,
    Unified.updateSupabaseComplete, getTransfer, consoleError.
  rows.
Qed.

Lemma rows_payoutAndComplete cfg env ev : obeys rowsKept (Unified.payoutAndComplete cfg env ev).
Proof.
  unfold Unified.payoutAndComplete, consoleError.
  pose proof (rows_payoutLoop env). pose proof (rows_processPayoutCompletion cfg env).
  rows.
Qed.

Lemma rows_minimal_tick env : obeys rowsKept (Minimal.tick env).
Proof.
  assert (Hb : forall ev, obeys rowsKept (Minimal.processBridgeEvent env ev)).
  { intros ev. apply rows_processBridgeEventWith;
      [apply rows_payoutOnce | apply (ob_ret rowsKept rowsKept_refl)]. }
  pose proof (rows_processRefund env).
  unfold Minimal.tick, Minimal.tickBody, getBlockNumber, queryBridgeInitiated,
    queryRefunded, consoleError.
  rows.
Qed.

Lemma rows_unified_tick cfg env : obeys rowsKept (Unified.tick cfg env).
Proof.
  assert (Hb : forall ev, obeys rowsKept (Unified.processBridgeEvent cfg env ev)).
  { intros ev. apply rows_processBridgeEventWith;
      [apply rows_payoutAndComplete | apply rows_emit]. }
  pose proof (rows_processRefund env).
  unfold Unified.tick, Unified.tickBody, getBlockNumber, queryBridgeInitiated,
    queryRefunded, consoleError.
  rows.
Qed.

(** X9.  Neither variant ever deletes a row or rewrites what identifies
    it: a row that is in the record store before a tick is there after it,
    under the same key, with the same identifier, address, bridged amount,
    source block number and timestamp; its status is what it was, or
    [Completed], or [refunded] (so a row never goes back to [pending]). *)
Theorem ticks_keep_rows :
  (forall cfg env w k r,
      store w !! k = Some r ->
      exists r', store (world (Unified.tick cfg env w)) !! k = Some r' /\ evolves r r') /\
  (forall env w k r,
      store w !! k = Some r ->
      exists r', store (world (Minimal.tick env w)) !! k = Some r' /\ evolves r r').
Proof.
  split.
  - intros cfg env w. apply (rows_unified_tick cfg env w).
  - intros env w. apply (rows_minimal_tick env w).
Qed.


(** ** What the processing of an event may call *)

Lemma all_refl P w : traceAll P w [] w.
Proof. apply List.Forall_nil. Qed.

Lemma all_trans P w1 t1 w2 t2 w3 :
  traceAll P w1 t1 w2 -> traceAll P w2 t2 w3 -> traceAll P w1 (t1 ++ t2) w3.
Proof. unfold traceAll. intros H1 H2. apply Forall_app. split; assumption. Qed.

Lemma all_single (P : Action -> Prop) a : P a -> Forall P [a].
Proof. intros H. apply List.Forall_cons; [exact H | apply List.Forall_nil]. Qed.

Lemma all_emit P a : P a -> obeys (traceAll P) (emit a).
Proof. intros H w. apply all_single, H. Qed.

Lemma all_rpc {A} P a method (answer : nat -> option A) :
  P a -> obeys (traceAll P) (rpc a method answer).
Proof. intros H w. rewrite rpc_run. apply all_single, H. Qed.

Lemma all_select P env id : P (DbSelect id) -> obeys (traceAll P) (supabase_select env id).
Proof. intros H w. rewrite supabase_select_run. apply all_single, H. Qed.

Lemma all_insert P env r :
  (forall ok, P (DbInsert r ok)) -> obeys (traceAll P) (supabase_insert env r).
Proof.
  intros H w. unfold supabase_insert. cbn beta zeta.
  destruct (db_error env (clock w)); [apply all_single, H |].
  destruct (arrive env w !! tx_id r); apply all_single, H.
Qed.

Lemma all_update P env p id :
  (forall ok, P (DbUpdate id p ok)) -> obeys (traceAll P) (supabase_update env p id).
Proof.
  intros H w. unfold supabase_update. cbn beta zeta.
  destruct (db_error env (clock w)); apply all_single, H.
Qed.

Ltac all_side := solve [intros; cbn; repeat split; reflexivity].

Ltac all_step :=
  first
    [ assumption
    | lazymatch goal with
      | |- obeys (traceAll ?P) (ret _) => apply (ob_ret _ (all_refl P))
      | |- obeys (traceAll ?P) (throw _) => apply (ob_throw _ (all_refl P))
      | |- obeys (traceAll ?P) (attempt _) => apply ob_attempt
      | |- obeys (traceAll ?P) (bind _ _) => apply (ob_bind _ (all_trans P)); [| intros ?]
      | |- obeys (traceAll ?P) (tryCatch _ _) =>
          apply (ob_tryCatch _ (all_trans P)); [| intros ?]
      | |- obeys (traceAll ?P) (emit _) => apply all_emit; all_side
      | |- obeys (traceAll ?P) (rpc _ _ _) => apply all_rpc; all_side
      | |- obeys (traceAll ?P) (supabase_select _ _) => apply all_select; all_side
      | |- obeys (traceAll ?P) (supabase_insert _ _) => apply all_insert; all_side
      | |- obeys (traceAll ?P) (supabase_update _ _ _) => apply all_update; all_side
      | |- obeys (traceAll ?P) (Unified.payoutLoop _ _ _) =>
          apply (ob_payoutLoop _ (all_refl P) (all_trans P)); [| intros ? | intros ?]
      | |- obeys _ (match ?x with _ => _ end) => destruct x
      | |- obeys _ (if ?x then _ else _) => destruct x
      end ].

Ltac all_about := repeat all_step.

Lemma about_processBridgeEventWith P env onPending afterEvent ev :
  P (DbSelect (bi_transferId ev)) -> P (GetTransfer (bi_transferId ev)) ->
  (forall ok, P (DbInsert (pendingRow ev (bi_blockNumber ev)) ok)) ->
  (forall msg, P (ConsoleError msg)) ->
  obeys (traceAll P) (onPending ev) -> obeys (traceAll P) afterEvent ->
  obeys (traceAll P) (processBridgeEventWith env onPending afterEvent ev).
Proof.
  intros Hs Hg Hi Hc Hp Ha.
  unfold processBridgeEventWith, getTransfer, consoleError. cbn zeta.
  repeat first
    [ assumption
    | apply all_emit, Hc | apply all_rpc, Hg | apply all_select, Hs | apply all_insert, Hi
    | all_step ].
Qed.

Lemma about_payoutAndComplete cfg env ev :
  obeys (traceAll (aboutEvent ev)) (Unified.payoutAndComplete cfg env ev).
Proof.
  unfold Unified.payoutAndComplete, Unified.processPayoutCompletion, Unified.signMessage,
    Unified.callCompleteOnL2, Unified.updateSupabaseComplete, Unified.payoutFailed,
    getTransfer, consoleError, payAction.
  all_about.
  unfold Unified.payoutFailed, consoleError, sleep. all_about.
Qed.

Lemma about_payoutOnce env ev :
  obeys (traceAll (watcherAction ev)) (Minimal.payoutOnce env ev).
Proof. unfold Minimal.payoutOnce, consoleError. all_about. Qed.


(** ** Payouts are only made for cleared events *)






Lemma unified_body_about cfg env ev w :
  Forall (aboutEvent ev) (emitted (Unified.processBridgeEvent cfg env ev w)).
Proof.
  apply (about_processBridgeEventWith (aboutEvent ev) env
           (Unified.payoutAndComplete cfg env) (sleep 1000) ev);
    try all_side.
  - apply about_payoutAndComplete.
  - apply all_emit. exact I.
Qed.

Lemma minimal_body_about env ev w :
  Forall (watcherAction ev) (emitted (Minimal.processBridgeEvent env ev w)).
Proof.
  apply (about_processBridgeEventWith (watcherAction ev) env
           (Minimal.payoutOnce env) (ret tt) ev);
    try all_side.
  - apply about_payoutOnce.
  - apply (ob_ret _ (all_refl _)).
Qed.

(** X10.  Whatever the chain and the record store answer, every call made
    while one [BridgeInitiated] event is processed is about that event: the
    store is read under the event's transfer identifier, the only row
    written is the event's pending row, the payout is submitted with the
    event's identifier, user and amount, the destination status is read for
    that identifier, the completion is submitted for it with one signature
    and the authorised signer, and the only update sets [Completed] on that
    identifier.  No block number is read and no logs are queried.  The
    minimal variant issues, besides, no signature, no completion, no update
    and no delay. *)
Theorem event_processing_is_about_the_event :
  (forall cfg env ev w,
      Forall (aboutEvent ev) (emitted (Unified.processBridgeEvent cfg env ev w))) /\
  (forall env ev w,
      Forall (fun a => aboutEvent ev a /\ isExecutorAction a = false)
             (emitted (Minimal.processBridgeEvent env ev w))).
Proof.
  split.
  - intros cfg env ev w. apply unified_body_about.
  - intros env ev w. apply minimal_body_about.
Qed.



(** ** The refund loop *)

Lemma refundedPatch_idem r :
  applyPatch refundedPatch (applyPatch refundedPatch r) = applyPatch refundedPatch r.
Proof. reflexivity. Qed.

(** X12.  The refund loop over the events of a scan, while the record store
    answers without error and no other writer inserts: it returns, having
    issued one accepted update per event, in the order of the events, and
    nothing else.  In the store it leaves, exactly the rows whose identifier
    is that of one of the events have changed, to status [refunded] with
    their other columns kept; every other row is as it was, and a refund
    event whose identifier has no row creates none. *)
Theorem refund_loop_marks_named_rows env rev w :
  (forall n, db_error env n = None) ->
  (forall n, db_concurrent env n = None) ->
  let o := forEach (processRefund env) rev w in
  res o = Ok tt /\
  emitted o = (fun ev => DbUpdate (rf_transferId ev) refundedPatch true) <$> rev /\
  forall k,
    store (world o) !! k
    = if bool_decide (k ∈ rf_transferId <$> rev)
      then applyPatch refundedPatch <$> store w !! k
      else store w !! k.
Proof.
  intros Herr Hquiet. cbv zeta. revert w.
  induction rev as [|ev rev IH]; intros w.
  - cbn. repeat split.
  - cbn [forEach].
    pose proof (processRefund_run env ev w) as Hrun.
    rewrite Herr, (arrive_quiet env w (Hquiet _)) in Hrun.
    erewrite bind_run_ok by exact Hrun.
    unfold prepend. cbn [res world emitted].
    match goal with
    | |- context [forEach _ rev ?w1] => destruct (IH w1) as (Hres & Hem & Hst); set (w' := w1) in *
    end.
    split; [exact Hres |]. split; [rewrite Hem; reflexivity |].
    intros k. rewrite Hst. rewrite fmap_cons.
    assert (Hfirst : store w' !! rf_transferId ev
                     = applyPatch refundedPatch <$> store w !! rf_transferId ev).
    { subst w'. cbn [store bump withStore].
      destruct (store w !! rf_transferId ev) as [r|] eqn:Hr.
      - rewrite lookup_insert_eq. reflexivity.
      - rewrite Hr. reflexivity. }
    assert (Hother : k <> rf_transferId ev -> store w' !! k = store w !! k).
    { intros Hne. subst w'. cbn [store bump withStore].
      destruct (store w !! rf_transferId ev) as [r|]; [| reflexivity].
      rewrite lookup_insert_ne by congruence. reflexivity. }
    destruct (decide (k = rf_transferId ev)) as [-> | Hne].
    + rewrite (bool_decide_eq_true_2 (_ ∈ _ :: _)) by (apply elem_of_cons; left; reflexivity).
      rewrite Hfirst.
      destruct (bool_decide _); [| reflexivity].
      destruct (store w !! rf_transferId ev); reflexivity.
    + rewrite (Hother Hne).
      destruct (bool_decide (k ∈ rf_transferId <$> rev)) eqn:Hb.
      * apply bool_decide_eq_true_1 in Hb.
        rewrite bool_decide_eq_true_2 by (apply elem_of_cons; right; exact Hb).
        reflexivity.
      * apply bool_decide_eq_false_1 in Hb.
        rewrite bool_decide_eq_false_2; [reflexivity |].
        intros Hin. apply elem_of_cons in Hin as [Heq | Hin]; [exact (Hne Heq) | exact (Hb Hin)].
Qed.


(** ** The signed bytes *)

Lemma byteOfN_value n : (n < 256)%N -> N_of_ascii (ascii_of_byte (byteOfN n)) = n.
Proof.
  intros Hn. unfold byteOfN. rewrite ascii_of_byte_of_ascii.
  apply N_ascii_embedding. exact Hn.
Qed.

Lemma fromBigEndian_snoc bs b :
  fromBigEndian (bs ++ [b])
  = fromBigEndian bs * 256 + Z.of_N (N_of_ascii (ascii_of_byte b)).
Proof. unfold fromBigEndian. rewrite fold_left_app. reflexivity. Qed.

Lemma fromBigEndian_bigEndian n v :
  0 <= v -> fromBigEndian (bigEndian n v) = v mod 256 ^ Z.of_nat n.
Proof.
  revert v. induction n as [|n IH]; intros v Hv.
  - cbn. rewrite Z.mod_1_r. reflexivity.
  - cbn [bigEndian]. rewrite fromBigEndian_snoc.
    rewrite IH by (apply Z.div_pos; lia).
    rewrite byteOfN_value.
    2:{ assert (0 <= v mod 256 < 256) by (apply Z.mod_pos_bound; lia). lia. }
    rewrite Z2N.id by (apply Z.mod_pos_bound; lia).
    rewrite Nat2Z.inj_succ, Z.pow_succ_r by lia.
    rewrite (Z.rem_mul_r v 256 (256 ^ Z.of_nat n)) by lia. lia.
Qed.

Lemma bigEndian_length n v : length (bigEndian n v) = n.
Proof.
  revert v. induction n as [|n IH]; intros v; cbn [bigEndian]; [reflexivity |].
  rewrite length_app, IH. cbn. lia.
Qed.

Lemma uint256_Some v bs :
  uint256 v = Some bs -> 0 <= v < 2 ^ 256 /\ bs = bigEndian 32 v.
Proof.
  unfold uint256. destruct ((0 <=? v) && (v <? 2 ^ 256)) eqn:Hr; [| discriminate].
  intros H. apply Some_inj in H. apply andb_prop in Hr as [H0 H1].
  apply Z.leb_le in H0. apply Z.ltb_lt in H1. split; [lia | congruence].
Qed.

Lemma uint256_inj v v' bs : uint256 v = Some bs -> uint256 v' = Some bs -> v = v'.
Proof.
  intros H H'. apply uint256_Some in H as [Hv ->]. apply uint256_Some in H' as [Hv' Heq].
  apply (f_equal fromBigEndian) in Heq.
  rewrite !fromBigEndian_bigEndian in Heq by lia.
  assert (Hp : 256 ^ Z.of_nat 32 = 2 ^ 256) by reflexivity.
  rewrite Hp in Heq. rewrite !Z.mod_small in Heq by lia. exact Heq.
Qed.

Lemma fixedBytes_length n s bs : fixedBytes n s = Some bs -> length bs = n.
Proof.
  unfold fixedBytes. destruct (getBytes s) as [l|]; [| discriminate].
  destruct (Nat.eqb (length l) n) eqn:Hl; [| discriminate].
  intros H. apply Some_inj in H. subst l. apply Nat.eqb_eq, Hl.
Qed.

Lemma solidityPacked_parts a b c d p :
  solidityPacked a b c d = Some p ->
  exists ab bb cb db,
    fixedBytes 32 a = Some ab /\ fixedBytes 20 b = Some bb /\ uint256 c = Some cb /\
    fixedBytes 20 d = Some db /\ p = ab ++ bb ++ cb ++ db.
Proof.
  unfold solidityPacked.
  destruct (fixedBytes 32 a) as [ab|]; [| discriminate].
  destruct (fixedBytes 20 b) as [bb|]; [| discriminate].
  destruct (uint256 c) as [cb|]; [| discriminate].
  destruct (fixedBytes 20 d) as [db|]; [| discriminate].
  intros H. apply Some_inj in H. exists ab, bb, cb, db. repeat split. symmetry. exact H.
Qed.

(** X13.  The bytes that [signMessage] hashes.  A transfer identifier is
    taken with or without its [0x] prefix.  When the packing succeeds it is
    104 bytes long (32 + 20 + 32 + 20), and it determines what was packed:
    two calls that hash the same bytes were given the same identifier bytes,
    the same user bytes, the same amount and the same contract bytes, so a
    signature for one transfer, amount or contract is not one for
    another. *)
Theorem signed_bytes_determine_the_transfer :
  (forall id user amount contract,
      startsWith0x id = false ->
      Unified.digestInput ("0x" ++ id) user amount contract
      = Unified.digestInput id user amount contract) /\
  (forall id user amount contract packed,
      Unified.digestInput id user amount contract = Some packed ->
      length packed = 104%nat) /\
  (forall id user amount contract id' user' amount' contract' packed,
      Unified.digestInput id user amount contract = Some packed ->
      Unified.digestInput id' user' amount' contract' = Some packed ->
      fixedBytes 32 (transferIdBytes id) = fixedBytes 32 (transferIdBytes id') /\
      fixedBytes 20 user = fixedBytes 20 user' /\
      amount = amount' /\
      fixedBytes 20 contract = fixedBytes 20 contract').
Proof.
  split; [| split].
  - intros id user amount contract H0x. unfold Unified.digestInput.
    rewrite H0x. reflexivity.
  - intros id user amount contract packed H.
    apply solidityPacked_parts in H as (ab & bb & cb & db & Ha & Hb & Hc & Hd & ->).
    apply fixedBytes_length in Ha, Hb, Hd.
    apply uint256_Some in Hc as [_ ->].
    rewrite !length_app, Ha, Hb, Hd, bigEndian_length. reflexivity.
  - intros id user amount contract id' user' amount' contract' packed H H'.
    unfold Unified.digestInput in H, H'. fold (transferIdBytes id) in H.
    fold (transferIdBytes id') in H'.
    apply solidityPacked_parts in H as (ab & bb & cb & db & Ha & Hb & Hc & Hd & ->).
    apply solidityPacked_parts in H' as (ab' & bb' & cb' & db' & Ha' & Hb' & Hc' & Hd' & Heq).
    pose proof (fixedBytes_length _ _ _ Ha) as La.
    pose proof (fixedBytes_length _ _ _ Ha') as La'.
    pose proof (fixedBytes_length _ _ _ Hb) as Lb.
    pose proof (fixedBytes_length _ _ _ Hb') as Lb'.
    assert (Lc : length cb = 32%nat)
      by (apply uint256_Some in Hc as [_ ->]; apply bigEndian_length).
    assert (Lc' : length cb' = 32%nat)
      by (apply uint256_Some in Hc' as [_ ->]; apply bigEndian_length).
    apply app_inj_1 in Heq as [E1 Heq]; [| congruence].
    apply app_inj_1 in Heq as [E2 Heq]; [| congruence].
    apply app_inj_1 in Heq as [E3 E4]; [| congruence].
    subst ab' bb' cb' db'.
    repeat split; try congruence.
    eapply uint256_inj; eassumption.
Qed.


(** ** Start-up and the first scan *)

Lemma startupWith_run env lookback w :
  startupWith env lookback w =
  match eth_blockNumber env (clock w) with
  | Some head => mkOut (Ok tt) (setCursor (Z.max 0 (head - lookback)) (bump w))
                       [GetBlockNumber]
  | None => mkOut (Throw (ProcessExit 1)) (bump w)
                  [GetBlockNumber; ConsoleError "Error getting starting block:";
                   ConsoleError "Failed to determine starting block. Exiting."]
  end.
Proof.
  unfold startupWith, getStartingBlockWith, getBlockNumber, tryCatch, bind, consoleError,
    emit, ret, throw, setLastCheckedBlock.
  rewrite rpc_run. destruct (eth_blockNumber env (clock w)); reflexivity.
Qed.

Lemma unified_tick_scan cfg env w head :
  eth_blockNumber env (clock w) = Some head ->
  (forall n a b, is_Some (eth_bridgeLogs env n a b)) ->
  (forall n a b, is_Some (eth_refundLogs env n a b)) ->
  let window := subRanges (lastCheckedBlock w + 1) head in
  exists rest,
    emitted (Unified.tick cfg env w)
    = GetBlockNumber
        :: ((fun r => QueryFilter KBridgeInitiated r.1 r.2) <$> window)
        ++ ((fun r => QueryFilter KRefunded r.1 r.2) <$> window)
        ++ rest.
Proof.
  intros Hh Hb Hr window.
  destruct (tryCatch_emitted (Unified.tickBody cfg env)
              (fun _ => consoleError "Error polling for events:") w) as [tail Htail].
  unfold Unified.tick. rewrite Htail. clear Htail.
  rewrite unified_tickBody_run, Hh.
  destruct (head <=? lastCheckedBlock w) eqn:Hle.
  { apply Z.leb_le in Hle. subst window. rewrite subRanges_empty by lia.
    exists tail. reflexivity. }
  cbv zeta. cbn [emitted].
  pose proof (scanAndProcess_run cfg env head (bump w)) as Hrun.
  cbv zeta in Hrun. cbn [lastCheckedBlock bump] in Hrun.
  set (s1 := queryLoop (queryBridgeInitiated env) head (lastCheckedBlock w + 1) []
                       (bump w)) in *.
  set (s2 := queryLoop (queryRefunded env) head (lastCheckedBlock w + 1) []
                       (world s1)) in *.
  assert (He1 : emitted s1 = (fun r => QueryFilter KBridgeInitiated r.1 r.2) <$> window).
  { subst s1. unfold queryBridgeInitiated. rewrite queryLoop_queryAll.
    apply (queryAll_emitted KBridgeInitiated (eth_bridgeLogs env)), Hb. }
  assert (He2 : emitted s2 = (fun r => QueryFilter KRefunded r.1 r.2) <$> window).
  { subst s2. unfold queryRefunded. rewrite queryLoop_queryAll.
    apply (queryAll_emitted KRefunded (eth_refundLogs env)), Hr. }
  assert (Ha1 : exists bev, res s1 = Ok bev).
  { subst s1. unfold queryBridgeInitiated. rewrite queryLoop_queryAll.
    apply (queryAll_answers KBridgeInitiated (eth_bridgeLogs env)), Hb. }
  assert (Ha2 : exists rev, res s2 = Ok rev).
  { subst s2. unfold queryRefunded. rewrite queryLoop_queryAll.
    apply (queryAll_answers KRefunded (eth_refundLogs env)), Hr. }
  destruct Ha1 as [bev Ha1]. destruct Ha2 as [rev Ha2].
  rewrite Ha1, Ha2 in Hrun. rewrite <- He1, <- He2.
  set (p1 := forEach (Unified.processBridgeEvent cfg env) bev (world s2)) in *.
  set (p2 := forEach (processRefund env) rev (world p1)) in *.
  destruct (res p1); [destruct (res p2) |]; rewrite Hrun; cbn [emitted];
    rewrite <- app_comm_cons, <- !app_assoc; eexists; reflexivity.
Qed.

(** X14.  Start-up of the unified variant, and the scan that follows it.
    When the head is read, start-up sets the cursor to [max(0, head - 200)]
    and does nothing else; when the read fails it logs twice and ends the
    process with exit code 1, the cursor untouched.  The first tick then
    scans, for both kinds of event, the windows of the range from the block
    after that starting block to the head it reads itself: the starting
    block is not scanned, and nothing is when the head has not moved past
    it. *)
Theorem unified_startup_then_first_scan cfg env w :
  let s := Unified.startup env w in
  match eth_blockNumber env (clock w) with
  | None =>
      res s = Throw (ProcessExit 1) /\
      lastCheckedBlock (world s) = lastCheckedBlock w /\
      emitted s = [GetBlockNumber; ConsoleError "Error getting starting block:";
                   ConsoleError "Failed to determine starting block. Exiting."]
  | Some head0 =>
      let startingBlock := Z.max 0 (head0 - 200) in
      res s = Ok tt /\ emitted s = [GetBlockNumber] /\
      world s = setCursor startingBlock (bump w) /\
      forall head1,
        eth_blockNumber env (S (clock w)) = Some head1 ->
        (forall n a b, is_Some (eth_bridgeLogs env n a b)) ->
        (forall n a b, is_Some (eth_refundLogs env n a b)) ->
        let window := subRanges (startingBlock + 1) head1 in
        (head1 <= startingBlock -> window = []) /\
        exists rest,
          emitted (Unified.tick cfg env (world s))
          = GetBlockNumber
              :: ((fun r => QueryFilter KBridgeInitiated r.1 r.2) <$> window)
              ++ ((fun r => QueryFilter KRefunded r.1 r.2) <$> window)
              ++ rest
  end.
Proof.
  cbv zeta. unfold Unified.startup. rewrite startupWith_run.
  destruct (eth_blockNumber env (clock w)) as [head0|] eqn:Hh.
  2:{ repeat split. }
  split; [reflexivity |]. split; [reflexivity |]. split; [reflexivity |].
  intros head1 Hh1 Hb Hr. cbn [world].
  split; [intros Hle; apply subRanges_empty; lia |].
  apply (unified_tick_scan cfg env (setCursor (Z.max 0 (head0 - 200)) (bump w)) head1);
    assumption.
Qed.


(** ** The maintenance script *)

Lemma deleteIn_lookup ids s k r :
  Maintenance.deleteIn ids s !! k = Some r <-> s !! k = Some r /\ tx_id r ∉ ids.
Proof. unfold Maintenance.deleteIn. rewrite map_lookup_filter_Some. reflexivity. Qed.

Lemma rowsOf_elem s r : r ∈ rowsOf s <-> exists k, s !! k = Some r.
Proof.
  unfold rowsOf. rewrite list_elem_of_fmap. split.
  - intros ([k r'] & -> & Hin). exists k. apply elem_of_map_to_list in Hin. exact Hin.
  - intros [k Hk]. exists (k, r). split; [reflexivity |].
    apply elem_of_map_to_list. exact Hk.
Qed.

Lemma rowsOf_NoDup s : keyedByTxId s -> NoDup (rowsOf s).
Proof.
  intros Hkey. unfold rowsOf. apply NoDup_fmap_2_strong; [| apply NoDup_map_to_list].
  intros [k1 r1] [k2 r2] H1 H2 Heq. cbn in Heq. subst r2.
  apply elem_of_map_to_list in H1, H2.
  apply Hkey in H1, H2. congruence.
Qed.

Lemma sorted_take_drop (l : list Row) n d r :
  StronglySorted byBlockNumber l -> d ∈ take n l -> r ∈ drop n l ->
  block_number d <= block_number r.
Proof.
  intros Hs. revert n. induction Hs as [|x l Hs IH Hx]; intros n Hd Hr.
  - rewrite take_nil in Hd. inversion Hd.
  - destruct n as [|n]; [cbn in Hd; inversion Hd |].
    cbn in Hd, Hr. apply elem_of_cons in Hd as [-> | Hd].
    + rewrite List.Forall_forall in Hx. apply Hx.
      apply list_elem_of_lookup_1 in Hr as [i Hi].
      rewrite lookup_drop in Hi.
      apply list_elem_of_In. eapply list_elem_of_lookup_2. exact Hi.
    + eapply IH; eassumption.
Qed.

(** X15.  [clearFirst200] when both calls are answered without error and
    the database returns the table in ascending order of [block_number].
    It asks for 200 rows and deletes by the identifiers of those it got, at
    most 200.  Nothing is added or changed: what is left was there.  Every
    row it was shown is gone, and every row that is left has a block number
    at least that of every row it was shown.  If the rows are stored under
    their own identifier, the rows beyond the first 200 are all left. *)
Theorem clearFirst200_deletes_lowest_blocks db s :
  Maintenance.selectError db = None ->
  Maintenance.deleteError db = None ->
  ordersByBlockNumber db s ->
  let shown := take 200 (Maintenance.db_order db s) in
  let s' := (Maintenance.clearFirst200 db s).1 in
  (length shown <= 200)%nat /\
  (forall a, In a (Maintenance.clearFirst200 db s).2 ->
             a = Maintenance.SelectOrdered 200 \/ a = Maintenance.DeleteIn (tx_id <$> shown)) /\
  (forall k r, s' !! k = Some r -> s !! k = Some r) /\
  (forall k d, d ∈ shown -> s' !! k <> Some d) /\
  (forall k r d, s' !! k = Some r -> d ∈ shown -> block_number d <= block_number r) /\
  (keyedByTxId s ->
   forall r, r ∈ drop 200 (Maintenance.db_order db s) -> s' !! tx_id r = Some r).
Proof.
  intros Hsel Hdel [Hperm Hsorted]. cbv zeta.
  set (L := Maintenance.db_order db s) in *.
  assert (Hs' : (Maintenance.clearFirst200 db s).1
                = Maintenance.deleteIn (tx_id <$> take 200 L) s).
  { unfold Maintenance.clearFirst200. rewrite Hsel, Hdel. fold L. cbv zeta.
    destruct (take 200 L) as [|x l] eqn:Ht; cbn [length Nat.eqb fst]; [| reflexivity].
    apply map_eq. intros k. apply option_eq. intros r.
    rewrite deleteIn_lookup. cbn. split; [intros H; split; [exact H | apply not_elem_of_nil] |].
    intros [H _]. exact H. }
  rewrite Hs'.
  split; [rewrite length_take; lia |]. split.
  { unfold Maintenance.clearFirst200. rewrite Hsel, Hdel. fold L. cbv zeta.
    destruct (Nat.eqb (length (take 200 L)) 0); cbn.
    - intros a [<- | []]. left. reflexivity.
    - intros a [<- | [<- | []]]; [left | right]; reflexivity. }
  split.
  { intros k r Hk. apply deleteIn_lookup in Hk as [Hk _]. exact Hk. }
  split.
  { intros k d Hd Hk. apply deleteIn_lookup in Hk as [_ Hk]. apply Hk.
    apply list_elem_of_fmap. exists d. split; [reflexivity | exact Hd]. }
  split.
  { intros k r d Hk Hd. apply deleteIn_lookup in Hk as [Hk Hnot].
    assert (Hr : r ∈ L).
    { rewrite Hperm. apply rowsOf_elem. exists k. exact Hk. }
    rewrite <- (take_drop 200 L) in Hr. apply elem_of_app in Hr as [Hr | Hr].
    - exfalso. apply Hnot. apply list_elem_of_fmap. exists r. split; [reflexivity | exact Hr].
    - eapply sorted_take_drop; eassumption. }
  intros Hkey r Hr. apply deleteIn_lookup.
  assert (HrL : r ∈ L) by (rewrite <- (take_drop 200 L); apply elem_of_app; right; exact Hr).
  assert (Hin : exists k, s !! k = Some r) by (apply rowsOf_elem; rewrite <- Hperm; exact HrL).
  destruct Hin as [k Hk]. pose proof (Hkey k r Hk) as Hkr. subst k.
  split; [exact Hk |].
  intros Hid. apply list_elem_of_fmap in Hid as (d & Hd & Hdin).
  assert (HdL : d ∈ L) by (rewrite <- (take_drop 200 L); apply elem_of_app; left; exact Hdin).
  assert (Hdk : exists k, s !! k = Some d) by (apply rowsOf_elem; rewrite <- Hperm; exact HdL).
  destruct Hdk as [k Hdk]. pose proof (Hkey k d Hdk) as Hkd. subst k.
  rewrite <- Hd, Hk in Hdk. apply Some_inj in Hdk. subst d.
  assert (Hnd : NoDup L) by (rewrite Hperm; apply rowsOf_NoDup, Hkey).
  rewrite <- (take_drop 200 L) in Hnd. apply NoDup_app in Hnd as (_ & Hdisj & _).
  exact (Hdisj r Hdin Hr).
Qed.

(** X16.  [clearFirst200] deletes only after a select that answered and
    returned rows: a failed select or an empty answer ends the script
    without a delete call, and a delete that the store refuses leaves the
    table as it was.  A delete call always names between 1 and 200
    identifiers, those of the rows the select returned. *)
Theorem clearFirst200_deletes_only_what_it_was_shown db s :
  let o := Maintenance.clearFirst200 db s in
  (forall ids, In (Maintenance.DeleteIn ids) o.2 ->
     Maintenance.selectError db = None /\
     ids = tx_id <$> take 200 (Maintenance.db_order db s) /\
     (1 <= length ids <= 200)%nat) /\
  (o.1 <> s ->
   Maintenance.selectError db = None /\ Maintenance.deleteError db = None /\
   In (Maintenance.DeleteIn (tx_id <$> take 200 (Maintenance.db_order db s))) o.2) /\
  (Maintenance.db_order db s = [] -> o.1 = s /\ forall ids, ~ In (Maintenance.DeleteIn ids) o.2).
Proof.
  cbv zeta. unfold Maintenance.clearFirst200.
  set (L := Maintenance.db_order db s).
  assert (Hlen : forall ids, ids = tx_id <$> take 200 L ->
                             length (take 200 L) <> 0%nat ->
                             (1 <= length ids <= 200)%nat).
  { intros ids -> Hne.
    rewrite length_fmap. rewrite length_take in *. lia. }
  destruct (Maintenance.selectError db) as [e|] eqn:Hsel.
  { cbn. split; [| split].
    - intros ids [H | [H | []]]; discriminate.
    - intros H. contradiction.
    - intros _. split; [reflexivity |]. intros ids [H | [H | []]]; discriminate. }
  cbv zeta.
  destruct (Nat.eqb (length (take 200 L)) 0) eqn:Hz.
  { cbn. split; [| split].
    - intros ids [H | []]; discriminate.
    - intros H. contradiction.
    - intros _. split; [reflexivity |]. intros ids [H | []]; discriminate. }
  destruct (Maintenance.deleteError db) as [e|] eqn:Hdel.
  - cbn. split; [| split].
    + intros ids [H | [H | [H | []]]]; try discriminate.
      injection H as <-. split; [reflexivity |]. split; [reflexivity |].
      apply Hlen; [reflexivity | apply Nat.eqb_neq, Hz].
    + intros H. contradiction.
    + intros HL. rewrite HL in Hz. discriminate.
  - cbn. split; [| split].
    + intros ids [H | [H | []]]; try discriminate.
      injection H as <-. split; [reflexivity |]. split; [reflexivity |].
      apply Hlen; [reflexivity | apply Nat.eqb_neq, Hz].
    + intros _. split; [reflexivity |]. split; [reflexivity |]. right. left. reflexivity.
    + intros HL. rewrite HL in Hz. discriminate.
Qed.


(** ** A scan that fails *)

Lemma reads_refl w : readsChainOnly w [] w.
Proof. repeat split. apply List.Forall_nil. Qed.

Lemma reads_trans w1 t1 w2 t2 w3 :
  readsChainOnly w1 t1 w2 -> readsChainOnly w2 t2 w3 -> readsChainOnly w1 (t1 ++ t2) w3.
Proof.
  intros (S1 & C1 & F1) (S2 & C2 & F2). repeat split; try congruence.
  apply Forall_app. split; assumption.
Qed.

Lemma reads_rpc {A} a method (answer : nat -> option A) :
  isChainRead a = true -> obeys readsChainOnly (rpc a method answer).
Proof.
  intros Ha w. rewrite rpc_run. repeat split.
  apply List.Forall_cons; [exact Ha | apply List.Forall_nil].
Qed.

Lemma reads_scan {E} kind (logs : nat -> Z -> Z -> option (list E)) cur from ev :
  obeys readsChainOnly
    (queryLoop (fun a b => rpc (QueryFilter kind a b) "queryFilter" (fun n => logs n a b))
               cur from ev).
Proof.
  apply (ob_queryLoop _ reads_refl reads_trans).
  intros a b. apply reads_rpc. reflexivity.
Qed.

Lemma tryCatch_caught {A} (m : M A) h w e :
  res (m w) = Throw e ->
  tryCatch m h w = prepend (emitted (m w)) (h e (world (m w))).
Proof. intros H. unfold tryCatch, prepend. cbn beta zeta. rewrite H. reflexivity. Qed.

(** X17.  A tick whose scan fails (one of the log queries of either kind
    throws) is harmless in both variants: the callback still returns, the
    record store and the cursor are as they were, and the tick has only
    read the head and queried logs before it logs the failure; no event is
    processed, also none of those that the initiation scan had already
    returned when the refund scan failed. *)
Theorem failed_scan_touches_nothing :
  (forall cfg env w head,
      eth_blockNumber env (clock w) = Some head ->
      lastCheckedBlock w < head ->
      let s1 := queryLoop (queryBridgeInitiated env) head (lastCheckedBlock w + 1) []
                          (bump w) in
      let s2 := queryLoop (queryRefunded env) head (lastCheckedBlock w + 1) []
                          (world s1) in
      let o := Unified.tick cfg env w in
      match res s1, res s2 with
      | Ok _, Ok _ => True
      | _, _ =>
          res o = Ok tt /\ store (world o) = store w /\
          lastCheckedBlock (world o) = lastCheckedBlock w /\
          exists reads,
            Forall (fun a => isChainRead a = true) reads /\
            emitted o = reads ++ [ConsoleError "Error polling for events:"]
      end) /\
  (forall env w head,
      eth_blockNumber env (clock w) = Some head ->
      let s1 := queryLoop (queryBridgeInitiated env) head (Z.max 0 (head - 1000)) []
                          (bump w) in
      let s2 := queryLoop (queryRefunded env) head (Z.max 0 (head - 1000)) []
                          (world s1) in
      let o := Minimal.tick env w in
      match res s1, res s2 with
      | Ok _, Ok _ => True
      | _, _ =>
          res o = Ok tt /\ store (world o) = store w /\
          lastCheckedBlock (world o) = lastCheckedBlock w /\
          exists reads,
            Forall (fun a => isChainRead a = true) reads /\
            emitted o = reads ++ [ConsoleError "Error polling for events:"]
      end).
Proof.
  assert (Hone : Forall (fun a => isChainRead a = true) [GetBlockNumber])
    by (apply List.Forall_cons; [reflexivity | apply List.Forall_nil]).
  split.
  - intros cfg env w head Hh Hlt. cbv zeta.
    set (s1 := queryLoop (queryBridgeInitiated env) head (lastCheckedBlock w + 1) []
                         (bump w)).
    set (s2 := queryLoop (queryRefunded env) head (lastCheckedBlock w + 1) []
                         (world s1)).
    destruct (reads_scan KBridgeInitiated (eth_bridgeLogs env) head
                (lastCheckedBlock w + 1) [] (bump w)) as (S1 & C1 & F1).
    destruct (reads_scan KRefunded (eth_refundLogs env) head
                (lastCheckedBlock w + 1) [] (world s1)) as (S2 & C2 & F2).
    fold (queryBridgeInitiated env) in S1, C1, F1. fold s1 in S1, C1, F1.
    fold (queryRefunded env) in S2, C2, F2. fold s2 in S2, C2, F2.
    pose proof (scanAndProcess_run cfg env head (bump w)) as Hrun.
    cbv zeta in Hrun. cbn [lastCheckedBlock bump] in Hrun. fold s1 s2 in Hrun.
    assert (Hbody : forall e w' t,
               scanAndProcess cfg env head (bump w) = mkOut (Throw e) w' t ->
               Unified.tick cfg env w
               = mkOut (Ok tt) w' (GetBlockNumber :: t
                                     ++ [ConsoleError "Error polling for events:"])).
    { intros e w' t Hs. unfold Unified.tick.
      assert (Hb : Unified.tickBody cfg env w = mkOut (Throw e) w' (GetBlockNumber :: t)).
      { rewrite unified_tickBody_run, Hh.
        replace (head <=? lastCheckedBlock w) with false by (symmetry; apply Z.leb_gt; lia).
        cbv zeta. rewrite Hs. reflexivity. }
      rewrite (tryCatch_caught _ _ w e) by (rewrite Hb; reflexivity).
      rewrite Hb. reflexivity. }
    destruct (res s1) as [bev|e] eqn:Hr1.
    + destruct (res s2) as [rev|e] eqn:Hr2; [exact I |].
      rewrite (Hbody _ _ _ Hrun). cbn [res world emitted].
      split; [reflexivity |]. split; [cbn in S1; congruence |].
      split; [cbn in C1; congruence |].
      exists (GetBlockNumber :: emitted s1 ++ emitted s2). split; [| reflexivity].
      apply List.Forall_cons; [reflexivity |]. apply Forall_app. split; assumption.
    + rewrite (Hbody _ _ _ Hrun). cbn [res world emitted].
      split; [reflexivity |]. split; [exact S1 |]. split; [exact C1 |].
      exists (GetBlockNumber :: emitted s1). split; [| reflexivity].
      apply List.Forall_cons; [reflexivity | exact F1].
  - intros env w head Hh. cbv zeta.
    set (from := Z.max 0 (head - 1000)).
    set (s1 := queryLoop (queryBridgeInitiated env) head from [] (bump w)).
    set (s2 := queryLoop (queryRefunded env) head from [] (world s1)).
    destruct (reads_scan KBridgeInitiated (eth_bridgeLogs env) head from [] (bump w))
      as (S1 & C1 & F1).
    destruct (reads_scan KRefunded (eth_refundLogs env) head from [] (world s1))
      as (S2 & C2 & F2).
    fold (queryBridgeInitiated env) in S1, C1, F1. fold s1 in S1, C1, F1.
    fold (queryRefunded env) in S2, C2, F2. fold s2 in S2, C2, F2.
    pose proof (minimal_tickBody_run env w) as Hrun. rewrite Hh in Hrun.
    cbv zeta in Hrun. fold from s1 in Hrun. fold s2 in Hrun.
    unfold Minimal.tick.
    destruct (res s1) as [bev|e] eqn:Hr1.
    + destruct (res s2) as [rev|e] eqn:Hr2; [exact I |].
      rewrite (tryCatch_caught _ _ w e) by (rewrite Hrun; reflexivity).
      rewrite Hrun. cbn [res world emitted prepend].
      split; [reflexivity |]. split; [cbn in S1; cbn; congruence |].
      split; [cbn in C1; cbn; congruence |].
      exists (GetBlockNumber :: emitted s1 ++ emitted s2). split; [| reflexivity].
      apply List.Forall_cons; [reflexivity |]. apply Forall_app. split; assumption.
    + rewrite (tryCatch_caught _ _ w e) by (rewrite Hrun; reflexivity).
      rewrite Hrun. cbn [res world emitted prepend].
      split; [reflexivity |]. split; [exact S1 |]. split; [exact C1 |].
      exists (GetBlockNumber :: emitted s1). split; [| reflexivity].
      apply List.Forall_cons; [reflexivity | exact F1].
Qed.


(** ** The window of the minimal watcher *)







(** ** Runs of the further scenarios *)

(** The event of [idA] when the source chain reports the transfer as
    Completed and the record store has no row for it. *)
Lemma non_pending_event_is_skipped_witness :
  isStatus 0 (t_status (chainTransfer idA (BigInt 1))) = false /\
  Unified.processBridgeEvent cfg0 completedEnv evA w0
  = mkOut (Ok tt) (bump (bump (withStore (arrive completedEnv w0) w0)))
          [DbSelect idA; GetTransfer idA; SetTimeout 1000].
Proof.
  split; [reflexivity |].
  apply (proj2 non_pending_event_is_skipped cfg0 completedEnv evA w0
           (chainTransfer idA (BigInt 1)));
    vm_compute; reflexivity.
Defined.

(** The event of [idA] when [getTransfer] is rejected for it. *)
Lemma event_body_throws_only_at_status_read_witness :
  res (Unified.processBridgeEvent cfg0 flakyEnv evA w0) = Throw (RpcError "getTransfer").
Proof.
  apply (proj2 (proj2 event_body_throws_only_at_status_read cfg0 flakyEnv evA w0
                  (RpcError "getTransfer"))).
  repeat split; vm_compute; reflexivity.
Defined.


(** The completion of [idA] on a quiet chain: the update follows the
    [complete] call and its wait. *)
Lemma completion_updates_after_confirmed_complete_witness :
  let o := Unified.processPayoutCompletion cfg0 calmEnv idA alice 100 (Some 77) w0 in
  exists packed post,
    emitted o
    = [GetTransfer idA; SignMessage (keccak256 cfg0 packed); GetTransfer idA;
       L2Complete idA ["0xsignature"] [AUTHORIZED_SIGNER]; L2Wait "0xcomplete";
       DbUpdate idA (Unified.completedPatch (Some 77) "0xsignature") true] ++ post.
Proof.
  destruct (completion_updates_after_confirmed_complete cfg0 calmEnv idA alice 100
              (Some 77) w0 idA (Unified.completedPatch (Some 77) "0xsignature") true)
    as (t1 & packed & tx & post & Ht1 & Hp & Hi & Hpatch & Hc & Hw & Hem).
  { vm_compute. do 5 right. left. reflexivity. }
  cbv zeta. exists packed, post. rewrite Hem.
  assert (Htx : tx = "0xcomplete") by (vm_compute in Hc; apply Some_inj in Hc; congruence).
  rewrite Htx. reflexivity.
Defined.


(** A payout whose confirmation is not seen: the second submission follows
    the first after 2000 ms. *)
Lemma unconfirmed_payout_is_resubmitted_witness :
  exists rest,
    emitted (Unified.payoutLoop slowConfirmEnv evA st0 w0)
    = payAction evA :: L1Wait "0xpayout" :: failLog :: SetTimeout 2000
        :: payAction evA :: rest.
Proof.
  apply (proj1 unconfirmed_payout_is_resubmitted slowConfirmEnv evA w0 "0xpayout");
    reflexivity.
Defined.

(** The event of [idA] on a quiet chain, from the empty store: the store
    ends with the completed row of [idA]. *)
Lemma new_transfer_end_to_end_witness :
  let o := Unified.processBridgeEvent cfg0 calmEnv evA w0 in
  res o = Ok tt /\ length (emitted o) = 12%nat /\ store (world o) = {[ idA := completedRow ]}.
Proof.
  destruct (new_transfer_end_to_end cfg0 calmEnv evA w0
              (chainTransfer idA (BigInt 0)) "0xpayout" 77 (chainTransfer idA (BigInt 0))
              (default [] (Unified.digestInput idA alice 100 (L2_ADDRESS cfg0)))
              (chainTransfer idA (BigInt 0)) "0xcomplete"
              (fun _ => eq_refl) (fun _ => eq_refl) eq_refl eq_refl eq_refl eq_refl eq_refl
              eq_refl eq_refl eq_refl eq_refl eq_refl eq_refl)
    as (Hres & Hem & Hst).
  cbv zeta. split; [exact Hres |]. split; [rewrite Hem; reflexivity |].
  rewrite Hst. vm_compute. reflexivity.
Defined.

(** The completed row of [idA] across a tick on a quiet chain. *)
Lemma ticks_keep_rows_witness :
  exists r', store (world (Unified.tick cfg0 calmEnv w1)) !! idA = Some r' /\
             evolves completedRow r'.
Proof.
  apply (proj1 ticks_keep_rows cfg0 calmEnv w1 idA completedRow).
  vm_compute. reflexivity.
Defined.


(** A refund of [idA] when the store holds its completed row. *)
Lemma refund_loop_marks_named_rows_witness :
  status <$> store (world (forEach (processRefund calmEnv) [refundA] w1)) !! idA
  = Some "refunded".
Proof.
  rewrite (proj2 (proj2 (refund_loop_marks_named_rows calmEnv [refundA] w1
                           (fun _ => eq_refl) (fun _ => eq_refl))) idA).
  vm_compute. reflexivity.
Defined.

(** [idA] with and without its prefix gives the same signed bytes. *)
Lemma signed_bytes_determine_the_transfer_witness :
  fixedBytes 32 (transferIdBytes idA) = fixedBytes 32 (transferIdBytes idA_bare).
Proof.
  eapply (proj2 (proj2 signed_bytes_determine_the_transfer)
            idA alice 100 (L2_ADDRESS cfg0) idA_bare alice 100 (L2_ADDRESS cfg0));
    vm_compute; reflexivity.
Defined.

(** Start-up at head 1700 sets the cursor to 1500; the first tick scans
    1501..1700. *)
Lemma unified_startup_then_first_scan_witness :
  let s := Unified.startup calmEnv w0 in
  world s = setCursor 1500 (bump w0) /\
  exists rest,
    emitted (Unified.tick cfg0 calmEnv (world s))
    = GetBlockNumber
        :: ((fun r => QueryFilter KBridgeInitiated r.1 r.2) <$> subRanges (1500 + 1) 1700)
        ++ ((fun r => QueryFilter KRefunded r.1 r.2) <$> subRanges (1500 + 1) 1700)
        ++ rest.
Proof.
  pose proof (unified_startup_then_first_scan cfg0 calmEnv w0) as H.
  cbv zeta in H. change (eth_blockNumber calmEnv (clock w0)) with (Some 1700) in H.
  cbv iota beta in H. destruct H as (_ & _ & Hw & Hscan).
  cbv zeta. split; [exact Hw |].
  destruct (Hscan 1700 eq_refl) as [_ Hrest].
  - intros n a b. eexists. reflexivity.
  - intros n a b. eexists. reflexivity.
  - exact Hrest.
Defined.

(** The table of two rows: both are shown, and the completed row of [idA]
    is gone afterwards. *)
Lemma clearFirst200_deletes_lowest_blocks_witness :
  ordersByBlockNumber sortedDb twoRows /\
  (Maintenance.clearFirst200 sortedDb twoRows).1 !! idA = None.
Proof.
  assert (Hord : ordersByBlockNumber sortedDb twoRows).
  { split.
    - vm_compute. reflexivity.
    - vm_compute. repeat constructor; discriminate. }
  split; [exact Hord |].
  destruct (clearFirst200_deletes_lowest_blocks sortedDb twoRows eq_refl eq_refl Hord)
    as (_ & _ & Hkept & Hgone & _).
  destruct ((Maintenance.clearFirst200 sortedDb twoRows).1 !! idA) as [r|] eqn:Hr;
    [| reflexivity].
  exfalso. pose proof (Hkept idA r Hr) as Hwas.
  assert (Hrow : twoRows !! idA = Some completedRow) by (vm_compute; reflexivity).
  rewrite Hrow in Hwas. apply Some_inj in Hwas. subst r.
  apply (Hgone idA completedRow); [vm_compute; constructor | exact Hr].
Defined.

(** On an empty table the script ends after the select. *)
Lemma clearFirst200_deletes_only_what_it_was_shown_witness :
  (Maintenance.clearFirst200 sortedDb ∅).1 = ∅ /\
  forall ids, ~ In (Maintenance.DeleteIn ids) (Maintenance.clearFirst200 sortedDb ∅).2.
Proof.
  apply (proj2 (proj2 (clearFirst200_deletes_only_what_it_was_shown sortedDb ∅))).
  vm_compute. reflexivity.
Defined.

(** A tick whose refund query is rejected: the two events that the
    initiation scan returned are not processed. *)
Lemma failed_scan_touches_nothing_witness :
  let o := Unified.tick cfg0 scanFailEnv w0 in
  res o = Ok tt /\ store (world o) = store w0 /\
  lastCheckedBlock (world o) = lastCheckedBlock w0.
Proof.
  pose proof (proj1 failed_scan_touches_nothing cfg0 scanFailEnv w0 1700 eq_refl eq_refl)
    as H.
  cbv zeta in H.
  assert (Hs1 : res (queryLoop (queryBridgeInitiated scanFailEnv) 1700
                               (lastCheckedBlock w0 + 1) [] (bump w0)) = Ok [evA; evB])
    by (vm_compute; reflexivity).
  rewrite Hs1 in H.
  assert (Hs2 : res (queryLoop (queryRefunded scanFailEnv) 1700
                               (lastCheckedBlock w0 + 1) []
                               (world (queryLoop (queryBridgeInitiated scanFailEnv) 1700
                                         (lastCheckedBlock w0 + 1) [] (bump w0))))
                = Throw (RpcError "queryFilter"))
    by (vm_compute; reflexivity).
  rewrite Hs2 in H.
  destruct H as (Hres & Hst & Hcur & _).
  cbv zeta. split; [exact Hres |]. split; [exact Hst | exact Hcur].
Defined.



(** ** Failures that are not retried *)

(** A new Pending transfer while the record store answers: the existence
    check, the status read and the insert, then the payout part and what
    follows it. *)
Lemma new_pending_event_run env onPending afterEvent ev w t w4 tp w5 ta :
  let id := bi_transferId ev in
  let row := pendingRow ev (bi_blockNumber ev) in
  let w3 := bump (withStore (<[id := row]> (store w)) (bump (bump (withStore (store w) w)))) in
  (forall n, db_error env n = None) ->
  (forall n, db_concurrent env n = None) ->
  store w !! id = None ->
  eth_getTransfer env (S (clock w)) id = Some t ->
  isStatus 0 (t_status t) = true ->
  onPending ev w3 = mkOut (Ok tt) w4 tp ->
  afterEvent w4 = mkOut (Ok tt) w5 ta ->
  processBridgeEventWith env onPending afterEvent ev w
  = mkOut (Ok tt) w5 ([DbSelect id; GetTransfer id; DbInsert row true] ++ tp ++ ta).
Proof.
  intros id row w3 Hdb Hconc Habs Ht Hst Hp Ha.
  rewrite processBridgeEventWith_run. cbv zeta. fold id.
  rewrite Hdb, (arrive_quiet env w (Hconc _)), Habs, Ht, Hst.
  set (w2 := bump (bump (withStore (store w) w))) in *.
  assert (Hins : supabase_insert env row w2
                 = mkOut (Ok {| data := None; error := None |}) w3 [DbInsert row true]).
  { unfold supabase_insert. cbn beta zeta.
    rewrite Hdb, (arrive_quiet env w2 (Hconc _)).
    change (tx_id row) with id. change (store w2) with (store w). rewrite Habs.
    reflexivity. }
  unfold storeAndPay. fold row.
  erewrite (bind_run_ok (bind (supabase_insert env row) _)).
  2:{ erewrite bind_run_ok by exact Hins. cbn [error].
      erewrite (bind_run_ok (ret tt)) by reflexivity.
      rewrite Hp. unfold prepend. cbn [res world emitted app]. reflexivity. }
  rewrite Ha. unfold prepend. cbn [res world emitted app]. reflexivity.
Qed.

Lemma payoutLoop_all_rejected env ev w :
  (forall n, eth_payout env n = None) ->
  Unified.payoutLoop env ev st0 w
  = mkOut (Ok {| Unified.retryCount := 3; Unified.payoutSuccess := false;
                 Unified.payoutTx := None |})
          (bump (bump (bump w)))
          [payAction ev; failLog; SetTimeout 2000;
           payAction ev; failLog; SetTimeout 4000;
           payAction ev; failLog; allFailedLog].
Proof.
  intros Hp.
  rewrite payoutLoop_iter by reflexivity. rewrite Hp.
  rewrite payoutLoop_iter by reflexivity. rewrite Hp.
  rewrite payoutLoop_iter by reflexivity. rewrite Hp.
  rewrite payoutLoop_done by reflexivity. reflexivity.
Qed.

Lemma payoutOnce_rejected env ev w :
  eth_payout env (clock w) = None ->
  Minimal.payoutOnce env ev w
  = mkOut (Ok tt) (bump w) [payAction ev; ConsoleError "Error processing payout:"].
Proof.
  intros Hp. unfold Minimal.payoutOnce.
  erewrite tryCatch_run_thrown.
  2:{ erewrite bind_run_thrown by (rewrite rpc_run, Hp; reflexivity). reflexivity. }
  reflexivity.
Qed.

Lemma rerun_only_checks env onPending afterEvent ev w r :
  store w !! bi_transferId ev = Some r ->
  Forall (fun a => a = DbSelect (bi_transferId ev) \/
                   a = ConsoleError "Supabase select error:")
         (emitted (processBridgeEventWith env onPending afterEvent ev w)).
Proof.
  intros Hr. rewrite present_event_skipped by (eexists; exact Hr). cbn [emitted].
  apply List.Forall_cons; [left; reflexivity |].
  destruct (db_error env (clock w)); [| apply List.Forall_nil].
  apply List.Forall_cons; [right; reflexivity | apply List.Forall_nil].
Qed.

(** X19.  A payout that the destination chain rejects is not tried again
    by a later tick.  For a new Pending transfer, with the record store
    answering, the body first inserts the pending row and then fails to pay
    (once in the minimal variant, three times with waits of 2000 and 4000 ms
    in the unified one); it logs, returns and leaves the row in the store
    with status [pending].  Because the row is there, a later run of the
    body for the same event, whatever the chains answer then, makes the
    existence check and nothing else. *)
Theorem rejected_payout_is_not_retried cfg env ev w t :
  let id := bi_transferId ev in
  let row := pendingRow ev (bi_blockNumber ev) in
  (forall n, db_error env n = None) ->
  (forall n, db_concurrent env n = None) ->
  store w !! id = None ->
  eth_getTransfer env (S (clock w)) id = Some t ->
  isStatus 0 (t_status t) = true ->
  (forall n, eth_payout env n = None) ->
  let m := Minimal.processBridgeEvent env ev w in
  let u := Unified.processBridgeEvent cfg env ev w in
  (res m = Ok tt /\
   emitted m = [DbSelect id; GetTransfer id; DbInsert row true;
                payAction ev; ConsoleError "Error processing payout:"] /\
   store (world m) = <[id := row]> (store w) /\
   forall env', Forall (fun a => a = DbSelect id \/ a = ConsoleError "Supabase select error:")
                       (emitted (Minimal.processBridgeEvent env' ev (world m)))) /\
  (res u = Ok tt /\
   emitted u = [DbSelect id; GetTransfer id; DbInsert row true;
                payAction ev; failLog; SetTimeout 2000;
                payAction ev; failLog; SetTimeout 4000;
                payAction ev; failLog; allFailedLog; SetTimeout 1000] /\
   store (world u) = <[id := row]> (store w) /\
   forall cfg' env', Forall (fun a => a = DbSelect id \/
                                      a = ConsoleError "Supabase select error:")
                            (emitted (Unified.processBridgeEvent cfg' env' ev (world u)))).
Proof.
  intros id row Hdb Hconc Habs Ht Hst Hpay m u.
  set (w3 := bump (withStore (<[id := row]> (store w))
                             (bump (bump (withStore (store w) w))))).
  split.
  - assert (Hm : m = mkOut (Ok tt) (bump w3)
                       ([DbSelect id; GetTransfer id; DbInsert row true]
                          ++ [payAction ev; ConsoleError "Error processing payout:"] ++ [])).
    { subst m. unfold Minimal.processBridgeEvent.
      eapply new_pending_event_run; try eassumption.
      - apply payoutOnce_rejected, Hpay.
      - reflexivity. }
    rewrite Hm. cbn [res world emitted app].
    split; [reflexivity |]. split; [reflexivity |]. split; [reflexivity |].
    intros env'. unfold Minimal.processBridgeEvent.
    apply (rerun_only_checks env' _ _ ev (bump w3) row).
    cbn [store bump withStore w3]. apply lookup_insert_eq.
  - assert (Hu : u = mkOut (Ok tt) (bump (bump (bump w3)))
                       ([DbSelect id; GetTransfer id; DbInsert row true]
                          ++ [payAction ev; failLog; SetTimeout 2000;
                              payAction ev; failLog; SetTimeout 4000;
                              payAction ev; failLog; allFailedLog]
                          ++ [SetTimeout 1000])).
    { subst u. unfold Unified.processBridgeEvent.
      eapply new_pending_event_run; try eassumption.
      - rewrite (payoutAndComplete_after_failure cfg env ev _
                   {| Unified.retryCount := 3; Unified.payoutSuccess := false;
                      Unified.payoutTx := None |})
          by (first [rewrite payoutLoop_all_rejected by exact Hpay; reflexivity
                    | reflexivity]).
        rewrite payoutLoop_all_rejected by exact Hpay. reflexivity.
      - reflexivity. }
    rewrite Hu. cbn [res world emitted app].
    split; [reflexivity |]. split; [reflexivity |]. split; [reflexivity |].
    intros cfg' env'. unfold Unified.processBridgeEvent.
    apply (rerun_only_checks env' _ _ ev (bump (bump (bump w3))) row).
    cbn [store bump withStore w3]. apply lookup_insert_eq.
Qed.

(** X20.  A completion that the source chain rejects is not tried again
    either.  For a new Pending transfer whose payout is confirmed, when the
    [complete] call is rejected the unified variant logs and returns; the
    payout has been made, but the row is left with status [pending] and
    without the payout's block number or a signature, and a later run of the
    body for the same event makes the existence check and nothing else: no
    second payout, and no second attempt to complete. *)
Theorem rejected_completion_is_not_retried cfg env ev w t ptx b packed :
  let id := bi_transferId ev in
  let row := pendingRow ev (bi_blockNumber ev) in
  let signature := wallet_signMessage cfg (SIGNER_KEY cfg) (keccak256 cfg packed) in
  (forall n, db_error env n = None) ->
  (forall n, db_concurrent env n = None) ->
  store w !! id = None ->
  (forall n, eth_getTransfer env n id = Some t) ->
  isStatus 0 (t_status t) = true ->
  (forall n, eth_payout env n = Some ptx) ->
  (forall n, eth_payoutWait env n = Some b) ->
  Unified.digestInput id (t_user t) (t_bridgedAmount t) (L2_ADDRESS cfg) = Some packed ->
  (forall n, eth_complete env n = None) ->
  let u := Unified.processBridgeEvent cfg env ev w in
  res u = Ok tt /\
  emitted u = [DbSelect id; GetTransfer id; DbInsert row true;
               payAction ev; L1Wait ptx;
               GetTransfer id; SignMessage (keccak256 cfg packed); GetTransfer id;
               L2Complete id [signature] [AUTHORIZED_SIGNER];
               ConsoleError "Error calling complete on L2:"]
              ++ completionLogs ++ [SetTimeout 1000] /\
  store (world u) = <[id := row]> (store w) /\
  forall cfg' env', Forall (fun a => a = DbSelect id \/
                                     a = ConsoleError "Supabase select error:")
                           (emitted (Unified.processBridgeEvent cfg' env' ev (world u))).
Proof.
  intros id row signature Hdb Hconc Habs Ht Hst Hpay Hwait Hpacked Hcomplete u.
  set (w3 := bump (withStore (<[id := row]> (store w))
                             (bump (bump (withStore (store w) w))))).
  assert (Hloop : Unified.payoutLoop env ev st0 w3
                  = mkOut (Ok (confirmedState st0 ptx b)) (bump (bump w3))
                          [payAction ev; L1Wait ptx]).
  { rewrite payoutLoop_iter by reflexivity. rewrite Hpay, Hwait.
    rewrite payoutLoop_done by reflexivity. reflexivity. }
  set (w5 := bump (bump w3)) in *.
  assert (Hcompl : Unified.processPayoutCompletion cfg env id (bi_user ev)
                     (bi_bridgedAmount ev) (Some b) w5
                   = mkOut (Ok tt) (bump (bump (bump w5)))
                       ([GetTransfer id; SignMessage (keccak256 cfg packed); GetTransfer id;
                         L2Complete id [signature] [AUTHORIZED_SIGNER];
                         ConsoleError "Error calling complete on L2:"] ++ completionLogs)).
  { rewrite processPayoutCompletion_run. rewrite Ht, Hpacked. cbv zeta.
    fold signature. rewrite completionGuarded_run. cbv zeta.
    rewrite Ht, Hst, Hcomplete. cbn [res world emitted app]. reflexivity. }
  assert (Hpc : Unified.payoutAndComplete cfg env ev w3
                = prepend [payAction ev; L1Wait ptx]
                    (Unified.processPayoutCompletion cfg env id (bi_user ev)
                       (bi_bridgedAmount ev) (Some b) w5)).
  { unfold Unified.payoutAndComplete. fold st0.
    erewrite bind_run_ok by exact Hloop.
    cbn [confirmedState Unified.payoutSuccess Unified.payoutTx Unified.blockNumber].
    rewrite tryCatch_returned by apply nt_processPayoutCompletion. reflexivity. }
  assert (Hu : u = mkOut (Ok tt) (bump (bump (bump w5)))
                     ([DbSelect id; GetTransfer id; DbInsert row true]
                        ++ ([payAction ev; L1Wait ptx]
                              ++ [GetTransfer id; SignMessage (keccak256 cfg packed);
                                  GetTransfer id;
                                  L2Complete id [signature] [AUTHORIZED_SIGNER];
                                  ConsoleError "Error calling complete on L2:"]
                              ++ completionLogs)
                        ++ [SetTimeout 1000])).
  { subst u. unfold Unified.processBridgeEvent.
    eapply new_pending_event_run; try eassumption.
    - apply Ht.
    - fold id row w3. rewrite Hpc, Hcompl. reflexivity.
    - reflexivity. }
  rewrite Hu. cbn [res world emitted].
  split; [reflexivity |]. split; [reflexivity |]. split; [reflexivity |].
  intros cfg' env'. unfold Unified.processBridgeEvent.
  apply (rerun_only_checks env' _ _ ev (bump (bump (bump w5))) row).
  cbn [store bump withStore w3 w5]. apply lookup_insert_eq.
Qed.

(** The event of [idA] when the destination chain rejects every payout. *)
Lemma rejected_payout_is_not_retried_witness :
  let m := Minimal.processBridgeEvent noPayoutEnv evA w0 in
  res m = Ok tt /\
  store (world m) = {[ idA := pendingRow evA 1201 ]} /\
  Forall (fun a => a = DbSelect idA \/ a = ConsoleError "Supabase select error:")
         (emitted (Minimal.processBridgeEvent calmEnv evA (world m))).
Proof.
  destruct (proj1 (rejected_payout_is_not_retried cfg0 noPayoutEnv evA w0
                     (chainTransfer idA (BigInt 0))
                     (fun _ => eq_refl) (fun _ => eq_refl) eq_refl eq_refl eq_refl
                     (fun _ => eq_refl)))
    as (Hres & _ & Hst & Hre).
  cbv zeta. split; [exact Hres |]. split; [rewrite Hst; vm_compute; reflexivity |].
  apply Hre.
Defined.

(** The event of [idA] when the source chain rejects every [complete]. *)
Lemma rejected_completion_is_not_retried_witness :
  let u := Unified.processBridgeEvent cfg0 noCompleteEnv evA w0 in
  res u = Ok tt /\
  store (world u) = {[ idA := pendingRow evA 1201 ]} /\
  Forall (fun a => a = DbSelect idA \/ a = ConsoleError "Supabase select error:")
         (emitted (Unified.processBridgeEvent cfg0 calmEnv evA (world u))).
Proof.
  destruct (rejected_completion_is_not_retried cfg0 noCompleteEnv evA w0
              (chainTransfer idA (BigInt 0)) "0xpayout" 77
              (default [] (Unified.digestInput idA alice 100 (L2_ADDRESS cfg0)))
              (fun _ => eq_refl) (fun _ => eq_refl) eq_refl (fun _ => eq_refl) eq_refl
              (fun _ => eq_refl) (fun _ => eq_refl) eq_refl (fun _ => eq_refl))
    as (Hres & _ & Hst & Hre).
  cbv zeta. split; [exact Hres |]. split; [rewrite Hst; vm_compute; reflexivity |].
  apply Hre.
Defined.


(** ** Consecutive ticks *)



